(** * HealthPro cryptic: the envelope codec and the token codec

    A shallow embedding of [src/lib/encrypt.ts], [src/lib/jwt.ts] and the
    envelope decryption routine, together with the parts of the host
    (ECMAScript strings, [btoa]/[atob], [JSON]) and of node-forge
    ([util.encode64], [util.decode64], UTF-8 helpers) that they call.
    Of the React code it embeds the state that the application context
    keeps and persists, and the expiry message of the decoder page.

    Conventions.
    - A JavaScript string is the list of its UTF-16 code units, each a [Z].
      A "binary string" (node-forge) is a string whose code units are all
      below 256.
    - An exception is a value of [error]; [result A] is either a returned
      value or a thrown exception.
    - JavaScript [null] is [JNull]; [undefined] is [None] in [option value]. *)

From Stdlib Require Import ZArith QArith Qabs Qround Qpower List Lia Bool.
From Stdlib Require String Ascii.
Import ListNotations String.StringSyntax Ascii.AsciiSyntax.
Local Open Scope Z_scope.
Local Open Scope string_scope.
Delimit Scope char_scope with char.

Abbreviation string := String.string.
Abbreviation ascii := Ascii.ascii.

(* ================================================================== *)
(** * Part I: definitions *)
(* ================================================================== *)

(** ** Strings *)

Definition jsstring := list Z.

Definition code (a : ascii) : Z := Z.of_N (Ascii.N_of_ascii a).

(** A string literal of the source, as the list of its code units. *)
Definition js (s : string) : jsstring := map code (String.list_ascii_of_string s).

(** The same, with every apostrophe standing for a quotation mark (to
    write JSON texts). *)
Definition jsq (s : string) : jsstring :=
  map (fun c => if c =? 39 then 34 else c) (js s).

Definition length16 (s : jsstring) : Z := Z.of_nat (length s).

Definition is_byte (c : Z) : bool := (0 <=? c) && (c <? 256).
Definition is_unit (c : Z) : bool := (0 <=? c) && (c <? 65536).

(** [s.includes(c)] for a one-character needle. *)
Definition includes (c : Z) (s : jsstring) : bool := existsb (Z.eqb c) s.

(** [s.split(c)] for a one-character separator: never empty. *)
Fixpoint split (sep : Z) (s : jsstring) : list jsstring :=
  match s with
  | [] => [[]]
  | c :: s' =>
      if c =? sep then [] :: split sep s'
      else match split sep s' with
           | [] => [[c]]
           | p :: ps => (c :: p) :: ps
           end
  end.

(** [s.replace(/a/g, b)] for single characters [a] and [b]. *)
Definition replace_all (a b : Z) (s : jsstring) : jsstring :=
  map (fun c => if c =? a then b else c) s.

(** [s.replace(/a/g, '')]. *)
Definition remove_all (a : Z) (s : jsstring) : jsstring :=
  filter (fun c => negb (c =? a)) s.

(** [s.charAt(i)]: the empty string out of range. *)
Definition charAt (s : jsstring) (i : Z) : jsstring :=
  if i <? 0 then []
  else match nth_error s (Z.to_nat i) with
       | Some c => [c]
       | None => []
       end.

(** [String.fromCharCode(n)]. *)
Definition fromCharCode (n : Z) : Z := n mod 65536.

(** ** Exceptions *)

Inductive error : Type :=
| InvalidCharacterError     (* btoa / atob *)
| SyntaxError               (* JSON.parse *)
| URIError                  (* encodeURIComponent / decodeURIComponent *)
| RangeError                (* Date.prototype.toISOString *)
| Error (message : string). (* new Error(message) and library errors *)

Inductive result (A : Type) : Type :=
| Ok (a : A)
| Throw (e : error).
Arguments Ok {A} a.
Arguments Throw {A} e.

Definition bind {A B} (r : result A) (k : A -> result B) : result B :=
  match r with
  | Ok a => k a
  | Throw e => Throw e
  end.

Notation "'do' x <- r ; k" := (bind r (fun x => k))
  (at level 10, x name, r at level 100, k at level 200).

(** ** Base64 (RFC 4648, section 4) *)

Module Base64.

Definition alphabet : jsstring :=
  js "ABCDEFGHIJKLMNOPQRSTUVWXYZabcdefghijklmnopqrstuvwxyz0123456789+/".

Definition pad : Z := code "="%char.

(** Value of a character of the alphabet. *)
Definition index (c : Z) : option Z :=
  if (65 <=? c) && (c <=? 90) then Some (c - 65)
  else if (97 <=? c) && (c <=? 122) then Some (c - 71)
  else if (48 <=? c) && (c <=? 57) then Some (c + 4)
  else if c =? 43 then Some 62
  else if c =? 47 then Some 63
  else None.

Definition in_alphabet (c : Z) : bool :=
  match index c with Some _ => true | None => false end.

(** The encoder, three input characters at a time.  A missing second or
    third character reads as 0 in the bit operations and switches the
    output to padding. *)
Fixpoint encode (input : jsstring) : jsstring :=
  match input with
  | [] => []
  | [chr1] =>
      charAt alphabet (Z.shiftr chr1 2)
      ++ charAt alphabet (Z.lor (Z.shiftl (Z.land chr1 3) 4) (Z.shiftr 0 4))
      ++ [pad; pad]
  | [chr1; chr2] =>
      charAt alphabet (Z.shiftr chr1 2)
      ++ charAt alphabet (Z.lor (Z.shiftl (Z.land chr1 3) 4) (Z.shiftr chr2 4))
      ++ charAt alphabet (Z.lor (Z.shiftl (Z.land chr2 15) 2) (Z.shiftr 0 6))
      ++ [pad]
  | chr1 :: chr2 :: chr3 :: rest =>
      charAt alphabet (Z.shiftr chr1 2)
      ++ charAt alphabet (Z.lor (Z.shiftl (Z.land chr1 3) 4) (Z.shiftr chr2 4))
      ++ charAt alphabet (Z.lor (Z.shiftl (Z.land chr2 15) 2) (Z.shiftr chr3 6))
      ++ charAt alphabet (Z.land chr3 63)
      ++ encode rest
  end.

(** The six-bit values of the encoding of a byte string (for the proofs). *)
Fixpoint sextets (input : jsstring) : list Z :=
  match input with
  | [] => []
  | [chr1] => [Z.shiftr chr1 2; Z.shiftl (Z.land chr1 3) 4]
  | [chr1; chr2] =>
      [Z.shiftr chr1 2;
       Z.lor (Z.shiftl (Z.land chr1 3) 4) (Z.shiftr chr2 4);
       Z.shiftl (Z.land chr2 15) 2]
  | chr1 :: chr2 :: chr3 :: rest =>
      Z.shiftr chr1 2
      :: Z.lor (Z.shiftl (Z.land chr1 3) 4) (Z.shiftr chr2 4)
      :: Z.lor (Z.shiftl (Z.land chr2 15) 2) (Z.shiftr chr3 6)
      :: Z.land chr3 63
      :: sextets rest
  end.

Definition symbol (v : Z) : Z := nth (Z.to_nat v) alphabet 0.

(** Number of padding characters of the encoding. *)
Definition padding (input : jsstring) : nat :=
  match (length input mod 3)%nat with
  | 1%nat => 2%nat
  | 2%nat => 1%nat
  | _ => 0%nat
  end.

End Base64.

(** ** The host's [btoa] and [atob] (HTML, forgiving-base64) *)

Definition btoa (s : jsstring) : result jsstring :=
  if forallb is_byte s then Ok (Base64.encode s) else Throw InvalidCharacterError.

Definition ascii_whitespace (c : Z) : bool :=
  (c =? 9) || (c =? 10) || (c =? 12) || (c =? 13) || (c =? 32).

(** Remove one or two trailing [=]. *)
Definition strip_padding (s : jsstring) : jsstring :=
  match rev s with
  | c1 :: c2 :: r =>
      if c1 =? 61 then (if c2 =? 61 then rev r else rev (c2 :: r)) else s
  | [c1] => if c1 =? 61 then [] else s
  | [] => s
  end.

(** The bit buffer of forgiving-base64 decode: 24 bits give three bytes,
    a remainder of 12 bits gives one and of 18 bits gives two. *)
Fixpoint atob_buffer (vals : list Z) : jsstring :=
  match vals with
  | v1 :: v2 :: v3 :: v4 :: rest =>
      let n := Z.lor (Z.lor (Z.lor (Z.shiftl v1 18) (Z.shiftl v2 12)) (Z.shiftl v3 6)) v4 in
      Z.land (Z.shiftr n 16) 255 :: Z.land (Z.shiftr n 8) 255 :: Z.land n 255
      :: atob_buffer rest
  | [v1; v2; v3] =>
      let n := Z.shiftr (Z.lor (Z.lor (Z.shiftl v1 12) (Z.shiftl v2 6)) v3) 2 in
      [Z.land (Z.shiftr n 8) 255; Z.land n 255]
  | [v1; v2] =>
      let n := Z.shiftr (Z.lor (Z.shiftl v1 6) v2) 4 in
      [Z.land n 255]
  | _ => []
  end.

Fixpoint indices (s : jsstring) : option (list Z) :=
  match s with
  | [] => Some []
  | c :: s' =>
      match Base64.index c, indices s' with
      | Some v, Some vs => Some (v :: vs)
      | _, _ => None
      end
  end.

Definition atob (data : jsstring) : result jsstring :=
  let data := filter (fun c => negb (ascii_whitespace c)) data in
  let data := if length16 data mod 4 =? 0 then strip_padding data else data in
  if length16 data mod 4 =? 1 then Throw InvalidCharacterError
  else match indices data with
       | None => Throw InvalidCharacterError
       | Some vals => Ok (atob_buffer vals)
       end.

(** ** Numbers

    A number that JSON can carry is kept as the decimal it is written with,
    [mantissa * 10 ^ exponent], in lowest terms: the mantissa has no
    trailing zero, and zero is [Dec 0 0].  This is the triple (s, k, n) of
    Number::toString.  Arithmetic is exact (rationals); the rounding of
    IEEE 754 doubles, the infinities and the sign of zero are not modelled.
    A theorem that gives the value of a difference or of a product is for
    whole numbers in the range where the doubles are exact as well. *)

Record decimal : Type := Dec { mantissa : Z; exponent : Z }.

Fixpoint norm_loop (fuel : nat) (m e : Z) : decimal :=
  match fuel with
  | O => Dec m e
  | S fuel' => if m mod 10 =? 0 then norm_loop fuel' (m / 10) (e + 1) else Dec m e
  end.

Definition normalize (m e : Z) : decimal :=
  if m =? 0 then Dec 0 0 else norm_loop (S (Z.to_nat (Z.log2 (Z.abs m)))) m e.

Definition dec_of_Z (z : Z) : decimal := normalize z 0.

Definition dec_Q (d : decimal) : Q :=
  (inject_Z (mantissa d) * Qpower (inject_Z 10) (exponent d))%Q.

(** A number at run time: not-a-number or an exact rational. *)
Inductive number : Type :=
| NaN
| Fin (q : Q).

Definition num_add (a b : number) : number :=
  match a, b with Fin x, Fin y => Fin (x + y)%Q | _, _ => NaN end.
Definition num_sub (a b : number) : number :=
  match a, b with Fin x, Fin y => Fin (x - y)%Q | _, _ => NaN end.
Definition num_mul (a b : number) : number :=
  match a, b with Fin x, Fin y => Fin (x * y)%Q | _, _ => NaN end.
(** [a <= b] and [a > b]: false as soon as one side is NaN. *)
Definition num_le (a b : number) : bool :=
  match a, b with Fin x, Fin y => Qle_bool x y | _, _ => false end.
Definition num_gt (a b : number) : bool :=
  match a, b with Fin x, Fin y => negb (Qle_bool x y) | _, _ => false end.
(** [Math.max(a, b)]. *)
Definition Math_max (a b : number) : number :=
  match a, b with
  | Fin x, Fin y => if Qle_bool x y then Fin y else Fin x
  | _, _ => NaN
  end.
Definition of_int (z : Z) : number := Fin (inject_Z z).

(** [Math.floor(a)]. *)
Definition Math_floor (a : number) : number :=
  match a with Fin x => of_int (Qfloor x) | NaN => NaN end.
(** [a === b] on numbers: false as soon as one side is NaN. *)
Definition num_eq (a b : number) : bool :=
  match a, b with Fin x, Fin y => Qeq_bool x y | _, _ => false end.
(** [a / k] for an integer literal [k] that is not zero. *)
Definition num_div_int (a : number) (k : Z) : number :=
  match a with Fin x => Fin (x / inject_Z k) | NaN => NaN end.
(** [a % k] for an integer literal [k] that is not zero: the quotient is
    truncated, so the remainder has the sign of [a]. *)
Definition num_rem_int (a : number) (k : Z) : number :=
  match a with
  | Fin x =>
      let q := (x / inject_Z k)%Q in
      let t := if Qle_bool 0 q then Qfloor q else Qceiling q in
      Fin (x - inject_Z (t * k))
  | NaN => NaN
  end.

(** Decimal digits of a non-negative integer, most significant first. *)
Fixpoint to_digits (fuel : nat) (n : Z) (acc : list Z) : list Z :=
  match fuel with
  | O => acc
  | S fuel' =>
      if n <? 10 then n :: acc else to_digits fuel' (n / 10) (n mod 10 :: acc)
  end.

Definition digits (n : Z) : list Z := to_digits (S (Z.to_nat (Z.log2 n))) n [].

Definition digit_char (d : Z) : Z := d + 48.

(** Number::toString(x, 10) for a finite [x]. *)
Definition Number_toString (d : decimal) : jsstring :=
  let m := mantissa d in
  if m =? 0 then js "0"
  else
    let ds := map digit_char (digits (Z.abs m)) in
    let k := length16 ds in
    let n := k + exponent d in
    (if m <? 0 then js "-" else [])
    ++ (if (k <=? n) && (n <=? 21) then ds ++ repeat 48 (Z.to_nat (n - k))
        else if (0 <? n) && (n <=? 21) then
          firstn (Z.to_nat n) ds ++ js "." ++ skipn (Z.to_nat n) ds
        else if (-6 <? n) && (n <=? 0) then
          js "0." ++ repeat 48 (Z.to_nat (- n)) ++ ds
        else
          let e := n - 1 in
          let es := (if e <? 0 then js "-" else js "+")
                    ++ map digit_char (digits (Z.abs e)) in
          match ds with
          | [] => []
          | [d1] => [d1] ++ js "e" ++ es
          | d1 :: rest => [d1] ++ js "." ++ rest ++ js "e" ++ es
          end).

(** ** JSON values *)

#[local] Unset Elimination Schemes.
Inductive value : Type :=
| JNull
| JBool (b : bool)
| JNum (d : decimal)
| JStr (s : jsstring)
| JArr (elements : list value)
| JObj (members : list (jsstring * value)).
#[local] Set Elimination Schemes.

Fixpoint str_eqb (s t : jsstring) : bool :=
  match s, t with
  | [], [] => true
  | c :: s', d :: t' => (c =? d) && str_eqb s' t'
  | _, _ => false
  end.

(** Own properties of an object, in creation order.  (That array-index
    keys are enumerated first is not modelled: it changes the order of the
    members of a serialization, not what a lookup returns.) *)
Fixpoint obj_get (o : list (jsstring * value)) (k : jsstring) : option value :=
  match o with
  | [] => None
  | (k', v) :: o' => if str_eqb k' k then Some v else obj_get o' k
  end.

(** Define or overwrite a property: an existing key keeps its place. *)
Fixpoint obj_set (o : list (jsstring * value)) (k : jsstring) (v : value)
  : list (jsstring * value) :=
  match o with
  | [] => [(k, v)]
  | (k', v') :: o' =>
      if str_eqb k' k then (k', v) :: o' else (k', v') :: obj_set o' k v
  end.

(** [{...o, ...p}]: the own properties of [p], in order, over [o]. *)
Definition obj_spread (o p : list (jsstring * value)) : list (jsstring * value) :=
  fold_left (fun acc kv => obj_set acc (fst kv) (snd kv)) p o.

(** [v.k] for a non-null [v] and a key [k] that no prototype defines:
    [None] is [undefined]. *)
Definition get_prop (v : value) (k : jsstring) : option value :=
  match v with
  | JObj o => obj_get o k
  | _ => None
  end.

(** ToBoolean. *)
Definition truthy (v : value) : bool :=
  match v with
  | JNull => false
  | JBool b => b
  | JNum d => negb (mantissa d =? 0)
  | JStr s => match s with [] => false | _ => true end
  | JArr _ | JObj _ => true
  end.

Definition truthy_opt (o : option value) : bool :=
  match o with Some v => truthy v | None => false end.

(** [a || b] where [b] is a value. *)
Definition or_else (a : option value) (b : value) : value :=
  match a with
  | Some v => if truthy v then v else b
  | None => b
  end.

(** ** [JSON.stringify] (no replacer, no indentation) *)

Definition hex_digit (v : Z) : Z := if v <? 10 then v + 48 else v + 87.

(** UnicodeEscape: [\uXXXX] with lower-case digits. *)
Definition unicode_escape (c : Z) : jsstring :=
  js "\u" ++ [hex_digit (c / 4096 mod 16); hex_digit (c / 256 mod 16);
              hex_digit (c / 16 mod 16); hex_digit (c mod 16)].

Definition is_high_surrogate (c : Z) : bool := (55296 <=? c) && (c <=? 56319).
Definition is_low_surrogate (c : Z) : bool := (56320 <=? c) && (c <=? 57343).

Definition quote_unit (c : Z) : jsstring :=
  if c =? 8 then js "\b"
  else if c =? 9 then js "\t"
  else if c =? 10 then js "\n"
  else if c =? 12 then js "\f"
  else if c =? 13 then js "\r"
  else if c =? 34 then [92; 34]
  else if c =? 92 then js "\\"
  else if (c <? 32) || is_high_surrogate c || is_low_surrogate c
       then unicode_escape c
  else [c].

(** The body of QuoteJSONString: a surrogate pair passes as it is, a lone
    surrogate is escaped. *)
Fixpoint quote_units (s : jsstring) : jsstring :=
  match s with
  | [] => []
  | c :: s' =>
      if is_high_surrogate c then
        match s' with
        | d :: s'' =>
            if is_low_surrogate d then c :: d :: quote_units s''
            else quote_unit c ++ quote_units s'
        | [] => quote_unit c
        end
      else quote_unit c ++ quote_units s'
  end.

Definition QuoteJSONString (s : jsstring) : jsstring :=
  [34] ++ quote_units s ++ [34].

Fixpoint join (sep : jsstring) (l : list jsstring) : jsstring :=
  match l with
  | [] => []
  | [x] => x
  | x :: l' => x ++ sep ++ join sep l'
  end.

Fixpoint JSON_stringify (v : value) : jsstring :=
  match v with
  | JNull => js "null"
  | JBool true => js "true"
  | JBool false => js "false"
  | JNum d => Number_toString d
  | JStr s => QuoteJSONString s
  | JArr l => js "[" ++ join (js ",") (map JSON_stringify l) ++ js "]"
  | JObj o =>
      js "{"
      ++ join (js ",")
           (map (fun kv => QuoteJSONString (fst kv) ++ js ":" ++ JSON_stringify (snd kv)) o)
      ++ js "}"
  end.

(** ** [JSON.parse] (no reviver)

    A recursive-descent reader of the JSON grammar of ECMA-404.  The
    recursion is on a fuel that [JSON_parse] sets from the length of the
    text, and that is enough for every text ([JSON_parse_fuel]). *)

Inductive parsed (A : Type) : Type :=
| Parsed (a : A) (rest : jsstring)
| Malformed
| OutOfFuel.
Arguments Parsed {A} a rest.
Arguments Malformed {A}.
Arguments OutOfFuel {A}.

Definition json_ws (c : Z) : bool :=
  (c =? 32) || (c =? 9) || (c =? 10) || (c =? 13).

Fixpoint skip_ws (s : jsstring) : jsstring :=
  match s with
  | c :: s' => if json_ws c then skip_ws s' else s
  | [] => []
  end.

Definition is_digit (c : Z) : bool := (48 <=? c) && (c <=? 57).

Definition hex_value (c : Z) : option Z :=
  if is_digit c then Some (c - 48)
  else if (97 <=? c) && (c <=? 102) then Some (c - 87)
  else if (65 <=? c) && (c <=? 70) then Some (c - 55)
  else None.

Definition hex4 (h1 h2 h3 h4 : Z) : option Z :=
  match hex_value h1, hex_value h2, hex_value h3, hex_value h4 with
  | Some a, Some b, Some c, Some d => Some (a * 4096 + b * 256 + c * 16 + d)
  | _, _, _, _ => None
  end.

(** The character an escape [\e] stands for ([\u] apart). *)
Definition simple_escape (e : Z) : option Z :=
  if e =? 34 then Some 34            (* quotation mark *)
  else if e =? 92 then Some 92       (* reverse solidus *)
  else if e =? 47 then Some 47       (* solidus *)
  else if e =? 98 then Some 8        (* b *)
  else if e =? 102 then Some 12      (* f *)
  else if e =? 110 then Some 10      (* n *)
  else if e =? 114 then Some 13      (* r *)
  else if e =? 116 then Some 9       (* t *)
  else None.

Definition parsed_cons (c : Z) (r : option (jsstring * jsstring))
  : option (jsstring * jsstring) :=
  match r with
  | Some (cs, rest) => Some (c :: cs, rest)
  | None => None
  end.

(** The characters of a string, after its opening quotation mark, up to
    and including the closing one. *)
Fixpoint parse_chars (s : jsstring) : option (jsstring * jsstring) :=
  match s with
  | [] => None
  | c :: s' =>
      if c =? 34 then Some ([], s')
      else if c =? 92 then
        match s' with
        | [] => None
        | e :: s'' =>
            if e =? 117 then
              match s'' with
              | h1 :: h2 :: h3 :: h4 :: s4 =>
                  match hex4 h1 h2 h3 h4 with
                  | Some u => parsed_cons u (parse_chars s4)
                  | None => None
                  end
              | _ => None
              end
            else
              match simple_escape e with
              | Some u => parsed_cons u (parse_chars s'')
              | None => None
              end
        end
      else if (0 <=? c) && (c <? 32) then None
      else parsed_cons c (parse_chars s')
  end.

(** The longest prefix of digits, as digit values. *)
Fixpoint take_digits (s : jsstring) : list Z * jsstring :=
  match s with
  | c :: s' =>
      if is_digit c then let (ds, rest) := take_digits s' in (c - 48 :: ds, rest)
      else ([], s)
  | [] => ([], [])
  end.

Definition digits_value (ds : list Z) : Z :=
  fold_left (fun acc d => 10 * acc + d) ds 0.

(** [int]: a single 0, or digits that do not start with 0. *)
Definition parse_int (s : jsstring) : option (list Z * jsstring) :=
  match s with
  | c :: s' =>
      if c =? 48 then Some ([0], s')
      else if is_digit c then Some (take_digits s)
      else None
  | [] => None
  end.

(** [s] starts with the character [c]: what follows it. *)
Definition starts_with (c : Z) (s : jsstring) : option jsstring :=
  match s with
  | x :: rest => if x =? c then Some rest else None
  | [] => None
  end.

(** [frac]: nothing, or a point and at least one digit. *)
Definition parse_frac (s : jsstring) : option (list Z * jsstring) :=
  match starts_with 46 s with
  | Some s' =>
      match take_digits s' with
      | ([], _) => None
      | r => Some r
      end
  | None => Some ([], s)
  end.

(** [exp]: nothing, or [e]/[E], an optional sign and at least one digit. *)
Definition parse_exp (s : jsstring) : option (Z * jsstring) :=
  match s with
  | c :: s' =>
      if (c =? 101) || (c =? 69) then
        let (neg, s1) :=
          match starts_with 45 s', starts_with 43 s' with
          | Some s1, _ => (true, s1)
          | None, Some s1 => (false, s1)
          | None, None => (false, s')
          end in
        match take_digits s1 with
        | ([], _) => None
        | (ds, rest) =>
            Some (if neg then - digits_value ds else digits_value ds, rest)
        end
      else Some (0, s)
  | [] => Some (0, [])
  end.

(** A number after its sign. *)
Definition parse_unsigned (neg : bool) (s0 : jsstring) : option (decimal * jsstring) :=
  match parse_int s0 with
  | None => None
  | Some (ints, s1) =>
      match parse_frac s1 with
      | None => None
      | Some (fracs, s2) =>
          match parse_exp s2 with
          | None => None
          | Some (e, s3) =>
              let m := digits_value (ints ++ fracs) in
              Some (normalize (if neg then - m else m) (e - length16 fracs), s3)
          end
      end
  end.

Definition parse_number (s : jsstring) : option (decimal * jsstring) :=
  match starts_with 45 s with
  | Some s0 => parse_unsigned true s0
  | None => parse_unsigned false s
  end.

(** [s] starts with the literal [lit]: what follows it. *)
Fixpoint expect (lit s : jsstring) : option jsstring :=
  match lit, s with
  | [], _ => Some s
  | l :: lit', c :: s' => if c =? l then expect lit' s' else None
  | _ :: _, [] => None
  end.

Definition lift {A} (r : option (A * jsstring)) : parsed A :=
  match r with
  | Some (a, rest) => Parsed a rest
  | None => Malformed
  end.

Fixpoint parse_value (fuel : nat) (s : jsstring) {struct fuel} : parsed value :=
  match fuel with
  | O => OutOfFuel
  | S fuel' =>
      match skip_ws s with
      | [] => Malformed
      | c :: s' =>
          if c =? 110 then lift (option_map (pair JNull) (expect (js "ull") s'))
          else if c =? 116 then lift (option_map (pair (JBool true)) (expect (js "rue") s'))
          else if c =? 102 then lift (option_map (pair (JBool false)) (expect (js "alse") s'))
          else if c =? 34 then
            match parse_chars s' with
            | Some (str, rest) => Parsed (JStr str) rest
            | None => Malformed
            end
          else if c =? 91 then
            match starts_with 93 (skip_ws s') with
            | Some rest => Parsed (JArr []) rest
            | None =>
                match parse_elements fuel' s' with
                | Parsed l rest => Parsed (JArr l) rest
                | Malformed => Malformed
                | OutOfFuel => OutOfFuel
                end
            end
          else if c =? 123 then
            match starts_with 125 (skip_ws s') with
            | Some rest => Parsed (JObj []) rest
            | None =>
                match parse_members fuel' s' with
                | Parsed l rest => Parsed (JObj (obj_spread [] l)) rest
                | Malformed => Malformed
                | OutOfFuel => OutOfFuel
                end
            end
          else if (c =? 45) || is_digit c then
            match parse_number (c :: s') with
            | Some (d, rest) => Parsed (JNum d) rest
            | None => Malformed
            end
          else Malformed
      end
  end

(** One or more values separated by commas, then a closing bracket. *)
with parse_elements (fuel : nat) (s : jsstring) {struct fuel} : parsed (list value) :=
  match fuel with
  | O => OutOfFuel
  | S fuel' =>
      match parse_value fuel' s with
      | Parsed v s1 =>
          match starts_with 44 (skip_ws s1), starts_with 93 (skip_ws s1) with
          | Some s2, _ =>
              match parse_elements fuel' s2 with
              | Parsed l rest => Parsed (v :: l) rest
              | Malformed => Malformed
              | OutOfFuel => OutOfFuel
              end
          | None, Some rest => Parsed [v] rest
          | None, None => Malformed
          end
      | Malformed => Malformed
      | OutOfFuel => OutOfFuel
      end
  end

(** One or more [string : value] members separated by commas, then a
    closing brace. *)
with parse_members (fuel : nat) (s : jsstring) {struct fuel}
  : parsed (list (jsstring * value)) :=
  match fuel with
  | O => OutOfFuel
  | S fuel' =>
      match starts_with 34 (skip_ws s) with
      | None => Malformed
      | Some s0 =>
          match parse_chars s0 with
          | None => Malformed
          | Some (k, s1) =>
              match starts_with 58 (skip_ws s1) with
              | None => Malformed
              | Some s2 =>
                  match parse_value fuel' s2 with
                  | Parsed v s3 =>
                      match starts_with 44 (skip_ws s3), starts_with 125 (skip_ws s3) with
                      | Some s4, _ =>
                          match parse_members fuel' s4 with
                          | Parsed l rest => Parsed ((k, v) :: l) rest
                          | Malformed => Malformed
                          | OutOfFuel => OutOfFuel
                          end
                      | None, Some rest => Parsed [(k, v)] rest
                      | None, None => Malformed
                      end
                  | Malformed => Malformed
                  | OutOfFuel => OutOfFuel
                  end
              end
          end
      end
  end.

(** [JSON.parse(text)]: a value, or a SyntaxError. *)
Definition JSON_parse (text : jsstring) : result value :=
  match parse_value (2 * length text + 1) text with
  | Parsed v rest =>
      match skip_ws rest with
      | [] => Ok v
      | _ => Throw SyntaxError
      end
  | _ => Throw SyntaxError
  end.

(** ** Coercions and dates

    What the token accessors need from the host and this development does
    not spell out: the numeric reading of a string (StringToNumber), of an
    array or object (ToPrimitive, then ToNumber), and the text of a valid
    date.  They are parameters, with no assumption made about them. *)

Class Host : Type := {
  StringToNumber : jsstring -> number;
  ObjectToNumber : value -> number;
  Date_format : Z -> jsstring
}.

Section Coercions.
Context {host : Host}.

(** ToNumber, of a value or of [undefined]. *)
Definition ToNumber (o : option value) : number :=
  match o with
  | None => NaN
  | Some JNull => of_int 0
  | Some (JBool b) => of_int (if b then 1 else 0)
  | Some (JNum d) => Fin (dec_Q d)
  | Some (JStr s) => StringToNumber s
  | Some v => ObjectToNumber v
  end.

(** TimeClip: the time value of [new Date(t)], [None] for an invalid date. *)
Definition TimeClip (t : number) : option Z :=
  match t with
  | NaN => None
  | Fin q =>
      if Qle_bool (Qabs q) (inject_Z 8640000000000000)
      then Some (if Qle_bool 0 q then Qfloor q else Qceiling q)
      else None
  end.

(** [new Date(t).toISOString()]. *)
Definition toISOString (t : number) : result jsstring :=
  match TimeClip t with
  | Some ms => Ok (Date_format ms)
  | None => Throw RangeError
  end.
End Coercions.

(** [Math.random()], read through [toString(36)]: the source is a tape of
    the base-36 digits of the fraction of each successive result (no digit
    for the result 0). *)
Record random_source : Type := { tape : nat -> list Z; position : nat }.

Definition digit36 (d : Z) : Z :=
  let v := d mod 36 in if v <? 10 then v + 48 else v + 87.

Definition Math_random_toString36 (g : random_source) : jsstring * random_source :=
  let text := match tape g (position g) with
              | [] => js "0"
              | ds => js "0." ++ map digit36 ds
              end in
  (text, {| tape := tape g; position := S (position g) |}).

(** [s.substring(a, b)] for [0 <= a <= b]. *)
Definition substring (a b : nat) (s : jsstring) : jsstring :=
  firstn (b - a) (skipn a s).

(** ** [src/lib/encrypt.ts]: the segment codec *)

Module Encrypt.

(** [while (str.length % 4) str += '=']; the loop body runs at most
    three times. *)
Fixpoint pad_loop (fuel : nat) (str : jsstring) : jsstring :=
  match fuel with
  | O => str
  | S fuel' =>
      if length16 str mod 4 =? 0 then str
      else pad_loop fuel' (str ++ js "=")
  end.

Definition base64UrlDecode (str : jsstring) : result jsstring :=
  let str := replace_all (code "_"%char) (code "/"%char) (replace_all (code "-"%char) (code "+"%char) str) in
  let str := pad_loop 3 str in
  atob str.

Definition base64UrlEncode (str : jsstring) : result jsstring :=
  do b <- btoa str;
  Ok (remove_all (code "="%char)
        (replace_all (code "/"%char) (code "_"%char)
           (replace_all (code "+"%char) (code "-"%char) b))).

(** [try { ... } catch (error) { console.error(...); return null; }] *)
Definition catch_null (body : result value) : value :=
  match body with
  | Ok v => v
  | Throw _ => JNull
  end.

Definition decodeTokenPayload (token : jsstring) : value :=
  catch_null
    (if negb (includes (code "."%char) token) then Ok JNull
     else
       let parts := split (code "."%char) token in
       if negb (length parts =? 3)%nat then Throw (Error "Invalid JWT format")
       else
         do text <- base64UrlDecode (nth 1 parts []);
         JSON_parse text).

(** The deprecated alias kept in [encrypt.ts]. *)
Definition decodeJWT (token : jsstring) : value := decodeTokenPayload token.

Section Accessors.
Context {host : Host}.

(** [Date_now] is the reading of [Date.now()], in milliseconds;
    [bufferMinutes] is [None] when the argument is left out. *)
Definition isTokenExpired (Date_now : Z) (token : jsstring)
           (bufferMinutes : option number) : bool :=
  let bufferMinutes := match bufferMinutes with Some b => b | None => of_int 5 end in
  let payload := decodeTokenPayload token in
  if negb (truthy payload) || negb (truthy_opt (get_prop payload (js "exp")))
  then true
  else
    let now := Date_now / 1000 in
    let bufferSeconds := num_mul bufferMinutes (of_int 60) in
    num_le (ToNumber (get_prop payload (js "exp")))
           (num_add (of_int now) bufferSeconds).

Record TokenSummary : Type := {
  valid : bool;
  expired : bool;
  type : value;
  userId : option value;
  expiresIn : jsstring;
  roleProfile : option value;
  expiresAt : jsstring
}.

(** [Date_now1] and [Date_now2] are the two readings of [Date.now()],
    in the order the function takes them.  [Ok None] is [null]. *)
Definition getTokenSummary (Date_now1 Date_now2 : Z) (token : jsstring)
  : result (option TokenSummary) :=
  let payload := decodeTokenPayload token in
  if negb (truthy payload) then Ok None
  else
    let exp := ToNumber (get_prop payload (js "exp")) in
    let now := Date_now1 / 1000 in
    let isExpired := num_le exp (of_int now) in
    let timeRemaining :=
      Math_max (of_int 0)
               (num_sub (num_mul exp (of_int 1000)) (of_int Date_now2)) in
    let expiresIn :=
      match timeRemaining with
      | Fin t =>
          if negb (Qle_bool t 0)
          then Number_toString (dec_of_Z (Qfloor (t / inject_Z 1000 / inject_Z 60)))
               ++ js " minutes"
          else js "expired"
      | NaN => js "expired"
      end in
    do iso <- toISOString (num_mul exp (of_int 1000));
    Ok (Some {| valid := negb isExpired;
                expired := isExpired;
                type := or_else (get_prop payload (js "token_type")) (JStr (js "access"));
                userId := get_prop payload (js "user_id");
                expiresIn := expiresIn;
                roleProfile := get_prop payload (js "role_profile");
                expiresAt := iso |}).
End Accessors.

Definition createJWTHeader : result jsstring :=
  let header := JObj [(js "alg", JStr (js "HS256")); (js "typ", JStr (js "JWT"))] in
  base64UrlEncode (JSON_stringify header).

Definition generateRandomId (g : random_source) : jsstring * random_source :=
  let (s1, g1) := Math_random_toString36 g in
  let (s2, g2) := Math_random_toString36 g1 in
  (substring 2 15 s1 ++ substring 2 15 s2, g2).

Definition default_access_scope : value :=
  JObj [(js "level", JStr (js "facility"));
        (js "organization", JStr (js "ORG-001"));
        (js "region", JNull);
        (js "facilities", JArr [JStr (js "FAC-001")]);
        (js "supplier_id", JNull);
        (js "practitioner_id", JNull);
        (js "org_company_id", JNull);
        (js "region_company_id", JNull)].

Definition strict_eq_string (o : option value) (s : jsstring) : bool :=
  match o with
  | Some (JStr t) => str_eqb t s
  | _ => false
  end.

(** The object literal [fullPayload]: the defaults in the order of the
    source, then the own properties of [payload] spread over them.
    [generateRandomId] runs once for [jti], and once more only when
    [payload.session_id] is falsy. *)
Definition fullPayload (Date_now : Z) (payload : list (jsstring * value))
           (g : random_source) : list (jsstring * value) * random_source :=
  let now := Date_now / 1000 in
  let get k := obj_get payload (js k) in
  let (jti, g1) := generateRandomId g in
  let (session_id, g2) :=
    if truthy_opt (get "session_id") then (or_else (get "session_id") JNull, g1)
    else let (id, g2) := generateRandomId g1 in (JStr id, g2) in
  (obj_spread
     [(js "iss", JStr (js "HealthPro ERP Backend"));
      (js "sub", or_else (get "user_id") (JStr (js "test-user")));
      (js "iat", JNum (dec_of_Z now));
      (js "exp", JNum (dec_of_Z
                         (now + (if strict_eq_string (get "token_type") (js "refresh")
                                 then 24 * 60 * 60 else 30 * 60))));
      (js "jti", JStr jti);
      (js "session_id", session_id);
      (js "user_id", or_else (get "user_id") (JStr (js "test-user@example.com")));
      (js "role_profile", or_else (get "role_profile") (JStr (js "Healthcare Provider")));
      (js "access_scope", or_else (get "access_scope") default_access_scope);
      (js "token_type", or_else (get "token_type") (JStr (js "access")))]
     payload,
   g2).

Definition createMockToken (Date_now : Z) (payload : list (jsstring * value))
           (g : random_source) : result jsstring * random_source :=
  let (full, g') := fullPayload Date_now payload g in
  (do header <- createJWTHeader;
   do encodedPayload <- base64UrlEncode (JSON_stringify (JObj full));
   Ok (header ++ js "." ++ encodedPayload ++ js ".UNSIGNED_TOKEN_FOR_TESTING_ONLY"),
   g').

(** [decodeTokenHeader]: the first segment, read the way
    [decodeTokenPayload] reads the second. *)
Definition decodeTokenHeader (token : jsstring) : value :=
  catch_null
    (if negb (includes (code "."%char) token) then Ok JNull
     else
       let parts := split (code "."%char) token in
       if negb (length parts =? 3)%nat then Throw (Error "Invalid JWT format")
       else
         do text <- base64UrlDecode (nth 0 parts []);
         JSON_parse text).

(** The argument of [createMockAccessToken] and [createMockRefreshToken]. *)
Module UserInfo.
Record t : Type := {
  userId : jsstring;
  roleProfile : option jsstring;
  accessScope : option (list (jsstring * value));
  sessionId : option jsstring
}.
End UserInfo.

(** The result of [getUserFromToken]; a [Date] is its time value, [None]
    for an invalid date. *)
Module UserFromToken.
Record t : Type := {
  userId : option value;
  sessionId : option value;
  roleProfile : option value;
  accessScope : option value;
  tokenType : value;
  expiresAt : option Z;
  issuedAt : option Z
}.
End UserFromToken.

Section Remaining.
Context {host : Host}.

(** [None] is [null]; [Some d] is the [Date] of time value [d]. *)
Definition getTokenExpiryDate (token : jsstring) : option (option Z) :=
  let payload := decodeTokenPayload token in
  if truthy payload && truthy_opt (get_prop payload (js "exp"))
  then Some (TimeClip (num_mul (ToNumber (get_prop payload (js "exp"))) (of_int 1000)))
  else None.

Definition getTokenTimeRemaining (Date_now : Z) (token : jsstring) : number :=
  let payload := decodeTokenPayload token in
  if negb (truthy payload) || negb (truthy_opt (get_prop payload (js "exp")))
  then of_int 0
  else
    let now := of_int Date_now in
    let expiryTime := num_mul (ToNumber (get_prop payload (js "exp"))) (of_int 1000) in
    Math_max (of_int 0) (num_sub expiryTime now).

(** The deprecated [getTokenExpiration] of [encrypt.ts].  Nothing in its
    [try] block throws. *)
Definition getTokenExpiration (Date_now : Z) (token : jsstring) : option number :=
  let timeRemaining := getTokenTimeRemaining Date_now token in
  if num_eq timeRemaining (of_int 0) then None
  else Some (Math_floor (num_div_int timeRemaining 1000)).

Definition getUserFromToken (token : jsstring) : option UserFromToken.t :=
  let payload := decodeTokenPayload token in
  if negb (truthy payload) then None
  else
    Some {| UserFromToken.userId := get_prop payload (js "user_id");
            UserFromToken.sessionId := get_prop payload (js "session_id");
            UserFromToken.roleProfile := get_prop payload (js "role_profile");
            UserFromToken.accessScope := get_prop payload (js "access_scope");
            UserFromToken.tokenType :=
              or_else (get_prop payload (js "token_type")) (JStr (js "access"));
            UserFromToken.expiresAt :=
              TimeClip (num_mul (ToNumber (get_prop payload (js "exp"))) (of_int 1000));
            UserFromToken.issuedAt :=
              TimeClip (num_mul (ToNumber (get_prop payload (js "iat"))) (of_int 1000)) |}.
End Remaining.

(** [s || d] for an optional string [s]. *)
Definition string_or (s : option jsstring) (d : jsstring) : jsstring :=
  match s with
  | Some (c :: s') => c :: s'
  | _ => d
  end.

(** The scope literal of [createMockAccessToken], over which the scope of
    the user is spread. *)
Definition access_scope_literal : list (jsstring * value) :=
  [(js "level", JStr (js "facility"));
   (js "organization", JStr (js "ORG-001"));
   (js "region", JNull);
   (js "facilities", JArr [JStr (js "FAC-001")]);
   (js "supplier_id", JNull);
   (js "practitioner_id", JNull);
   (js "org_company_id", JNull);
   (js "region_company_id", JNull)].

Definition createMockAccessToken (Date_now : Z) (userInfo : UserInfo.t)
           (g : random_source) : result jsstring * random_source :=
  createMockToken Date_now
    [(js "user_id", JStr (UserInfo.userId userInfo));
     (js "role_profile",
      JStr (string_or (UserInfo.roleProfile userInfo) (js "Healthcare Provider")));
     (js "access_scope",
      JObj (obj_spread access_scope_literal
              (match UserInfo.accessScope userInfo with Some o => o | None => [] end)));
     (js "token_type", JStr (js "access"))]
    g.

(** The argument object is built first: [generateRandomId] runs for
    [session_id] before [createMockToken] draws [jti]. *)
Definition createMockRefreshToken (Date_now : Z) (userInfo : UserInfo.t)
           (g : random_source) : result jsstring * random_source :=
  let (session_id, g1) :=
    match UserInfo.sessionId userInfo with
    | Some (c :: s) => (c :: s, g)
    | _ => generateRandomId g
    end in
  createMockToken Date_now
    [(js "user_id", JStr (UserInfo.userId userInfo));
     (js "role_profile",
      JStr (string_or (UserInfo.roleProfile userInfo) (js "Healthcare Provider")));
     (js "session_id", JStr session_id);
     (js "token_type", JStr (js "refresh"))]
    g1.

End Encrypt.

(** ** [src/lib/jwt.ts] *)

Module Jwt.

(** [try { ... } catch (error) { return null; }] *)
Definition catch_null (body : result value) : value :=
  match body with
  | Ok v => v
  | Throw _ => JNull
  end.

Definition decodeJWT (token : jsstring) : value :=
  catch_null
    (let parts := split (code "."%char) token in
     if negb (length parts =? 3)%nat then Ok JNull
     else
       do text <- atob (nth 1 parts []);
       JSON_parse text).

Definition encodeJWT (payload : value) : result jsstring :=
  let header := JObj [(js "alg", JStr (js "HS256")); (js "typ", JStr (js "JWT"))] in
  match
    (do encodedHeader <- btoa (JSON_stringify header);
     do encodedPayload <- btoa (JSON_stringify payload);
     Ok (encodedHeader ++ js "." ++ encodedPayload ++ js ".mock-signature"))
  with
  | Ok t => Ok t
  | Throw _ => Throw (Error "Failed to encode JWT")
  end.

(** [getTokenExpiration] of [jwt.ts]: the whole seconds left, [None]
    ([null]) when there is none.  ([payload.exp] on a [null] payload throws
    a TypeError, which the [catch] turns into the [null] that a missing
    [exp] gives.) *)
Definition getTokenExpiration (Date_now : Z) (token : jsstring) : option number :=
  match
    (let parts := split (code "."%char) token in
     if negb (length parts =? 3)%nat then Ok None
     else
       do text <- atob (nth 1 parts []);
       do payload <- JSON_parse text;
       match get_prop payload (js "exp") with
       | Some (JNum d) =>
           let currentTime := Date_now / 1000 in
           let maxAge := num_sub (Fin (dec_Q d)) (of_int currentTime) in
           if num_gt maxAge (of_int 0) then Ok (Some maxAge) else Ok None
       | _ => Ok None
       end)
  with
  | Ok r => r
  | Throw _ => None
  end.

End Jwt.

(** ** node-forge: text helpers *)

Module Forge.

(** [forge.util.encode64(input)], without line breaks. *)
Definition encode64 (input : jsstring) : jsstring := Base64.encode input.

(** An entry of the decoder's table for a character that survived the
    filter: the value of a character of the alphabet, 64 for [=]. *)
Definition base64Idx (c : Z) : Z :=
  match Base64.index c with
  | Some v => v
  | None => 64
  end.

(** A table entry, or [undefined] past the end of the input, in a bit
    operation. *)
Definition int32 (e : option Z) : Z :=
  match e with
  | Some v => v
  | None => 0
  end.

(** [e !== 64]. *)
Definition not64 (e : option Z) : bool :=
  match e with
  | Some v => negb (v =? 64)
  | None => true
  end.

Definition decode_group (enc1 enc2 enc3 enc4 : option Z) : jsstring :=
  [fromCharCode (Z.lor (Z.shiftl (int32 enc1) 2) (Z.shiftr (int32 enc2) 4))]
  ++ (if not64 enc3 then
        [fromCharCode (Z.lor (Z.shiftl (Z.land (int32 enc2) 15) 4)
                             (Z.shiftr (int32 enc3) 2))]
        ++ (if not64 enc4 then
              [fromCharCode (Z.lor (Z.shiftl (Z.land (int32 enc3) 3) 6) (int32 enc4))]
            else [])
      else []).

Fixpoint decode_loop (input : jsstring) : jsstring :=
  match input with
  | [] => []
  | [c1] => decode_group (Some (base64Idx c1)) None None None
  | [c1; c2] => decode_group (Some (base64Idx c1)) (Some (base64Idx c2)) None None
  | [c1; c2; c3] =>
      decode_group (Some (base64Idx c1)) (Some (base64Idx c2)) (Some (base64Idx c3)) None
  | c1 :: c2 :: c3 :: c4 :: rest =>
      decode_group (Some (base64Idx c1)) (Some (base64Idx c2))
                   (Some (base64Idx c3)) (Some (base64Idx c4))
      ++ decode_loop rest
  end.

(** [forge.util.decode64(input)]: characters outside the alphabet and
    [=] are dropped first. *)
Definition decode64 (input : jsstring) : jsstring :=
  decode_loop (filter (fun c => Base64.in_alphabet c || (c =? 61)) input).

(** [forge.util.encodeUtf8(str)], that is [unescape(encodeURIComponent(str))]:
    the UTF-8 bytes of a string; a lone surrogate is a URIError. *)
Fixpoint encodeUtf8 (str : jsstring) : result jsstring :=
  match str with
  | [] => Ok []
  | c :: str' =>
      if is_high_surrogate c then
        match str' with
        | d :: str'' =>
            if is_low_surrogate d then
              let cp := 65536 + (c - 55296) * 1024 + (d - 56320) in
              do rest <- encodeUtf8 str'';
              Ok (240 + cp / 262144 :: 128 + cp / 4096 mod 64
                  :: 128 + cp / 64 mod 64 :: 128 + cp mod 64 :: rest)
            else Throw URIError
        | [] => Throw URIError
        end
      else if is_low_surrogate c then Throw URIError
      else if c <? 128 then
        do rest <- encodeUtf8 str'; Ok (c :: rest)
      else if c <? 2048 then
        do rest <- encodeUtf8 str';
        Ok (192 + c / 64 :: 128 + c mod 64 :: rest)
      else
        do rest <- encodeUtf8 str';
        Ok (224 + c / 4096 :: 128 + c / 64 mod 64 :: 128 + c mod 64 :: rest)
  end.

Definition continuation (b : Z) : bool := (128 <=? b) && (b <? 192).

(** [forge.util.decodeUtf8(str)], that is [decodeURIComponent(escape(str))]:
    anything but the UTF-8 encoding of code points is a URIError. *)
Fixpoint decodeUtf8 (bytes : jsstring) : result jsstring :=
  match bytes with
  | [] => Ok []
  | b1 :: bytes1 =>
      if (0 <=? b1) && (b1 <? 128) then
        do rest <- decodeUtf8 bytes1; Ok (b1 :: rest)
      else if (192 <=? b1) && (b1 <? 224) then
        match bytes1 with
        | b2 :: bytes2 =>
            let cp := (b1 - 192) * 64 + (b2 - 128) in
            if continuation b2 && (128 <=? cp) then
              do rest <- decodeUtf8 bytes2; Ok (cp :: rest)
            else Throw URIError
        | _ => Throw URIError
        end
      else if (224 <=? b1) && (b1 <? 240) then
        match bytes1 with
        | b2 :: b3 :: bytes3 =>
            let cp := (b1 - 224) * 4096 + (b2 - 128) * 64 + (b3 - 128) in
            if continuation b2 && continuation b3 && (2048 <=? cp)
               && negb ((55296 <=? cp) && (cp <=? 57343)) then
              do rest <- decodeUtf8 bytes3; Ok (cp :: rest)
            else Throw URIError
        | _ => Throw URIError
        end
      else if (240 <=? b1) && (b1 <? 248) then
        match bytes1 with
        | b2 :: b3 :: b4 :: bytes4 =>
            let cp := (b1 - 240) * 262144 + (b2 - 128) * 4096
                      + (b3 - 128) * 64 + (b4 - 128) in
            if continuation b2 && continuation b3 && continuation b4
               && (65536 <=? cp) && (cp <=? 1114111) then
              do rest <- decodeUtf8 bytes4;
              Ok (55296 + (cp - 65536) / 1024 :: 56320 + (cp - 65536) mod 1024 :: rest)
            else Throw URIError
        | _ => Throw URIError
        end
      else Throw URIError
  end.

(** [forge.random]: a tape of bytes and the place of the next one. *)
Record prng : Type := { bytes_tape : nat -> Z; cursor : nat }.

Definition getBytesSync (count : nat) (g : prng) : jsstring * prng :=
  (map (fun i => bytes_tape g (cursor g + i) mod 256) (seq 0 count),
   {| bytes_tape := bytes_tape g; cursor := cursor g + count |}).

(** The cryptographic primitives, as parameters.
    - [rsa_encrypt key message seed] is [key.encrypt(message, "RSA-OAEP")],
      with the seed that OAEP draws from [forge.random];
    - [rsa_decrypt key data] is [key.decrypt(data, "RSA-OAEP")];
    - [aes_cbc_encrypt key iv data] is the output of an AES-CBC cipher
      started with [iv], fed [data] and finished;
    - [aes_cbc_decrypt key iv data] is the same for a decipher: an
      exception, [Ok None] when [finish()] answers false, or the output. *)
Class Crypto : Type := {
  publicKey : Type;
  privateKey : Type;
  publicKeyFromPem : jsstring -> result publicKey;
  privateKeyFromPem : jsstring -> result privateKey;
  oaep_seed_length : nat;
  rsa_encrypt : publicKey -> jsstring -> jsstring -> result jsstring;
  rsa_decrypt : privateKey -> jsstring -> result jsstring;
  aes_cbc_encrypt : jsstring -> jsstring -> jsstring -> jsstring;
  aes_cbc_decrypt : jsstring -> jsstring -> jsstring -> result (option jsstring)
}.

End Forge.

(** [String.prototype.trim]: white space and line terminators. *)
Definition js_whitespace (c : Z) : bool :=
  ((9 <=? c) && (c <=? 13)) || (c =? 32) || (c =? 160) || (c =? 5760)
  || ((8192 <=? c) && (c <=? 8202)) || (c =? 8232) || (c =? 8233)
  || (c =? 8239) || (c =? 8287) || (c =? 12288) || (c =? 65279).

Fixpoint trim_start (s : jsstring) : jsstring :=
  match s with
  | c :: s' => if js_whitespace c then trim_start s' else s
  | [] => []
  end.

Definition trim (s : jsstring) : jsstring := rev (trim_start (rev (trim_start s))).

(** A computation that draws from [forge.random] and may throw. *)
Definition rand (A : Type) : Type := Forge.prng -> result A * Forge.prng.

Definition ret {A} (a : A) : rand A := fun g => (Ok a, g).
Definition throw {A} (e : error) : rand A := fun g => (Throw e, g).
Definition lift_result {A} (r : result A) : rand A := fun g => (r, g).
Definition draw (count : nat) : rand jsstring :=
  fun g => let (b, g') := Forge.getBytesSync count g in (Ok b, g').
Definition bind_rand {A B} (m : rand A) (k : A -> rand B) : rand B :=
  fun g => match m g with
           | (Ok a, g') => k a g'
           | (Throw e, g') => (Throw e, g')
           end.

Notation "x <~ m ;; k" := (bind_rand m (fun x => k))
  (at level 10, m at level 100, k at level 200, only parsing).

(** ** [src/lib/encrypt.ts]: the envelope, sealed *)

Module Envelope.
Section WithCrypto.
Context {crypto : Forge.Crypto}.

Definition encryptDataWithRSA_AES (payload : value) (publicKeyPem : jsstring)
  : rand jsstring :=
  let jsonData := JSON_stringify payload in
  aesKey <~ draw 32 ;;
  iv <~ draw 16 ;;
  data <~ lift_result (Forge.encodeUtf8 jsonData) ;;
  let encryptedJsonData := Forge.encode64 (Forge.aes_cbc_encrypt aesKey iv data) in
  match publicKeyPem with
  | [] => throw (Error "Public key is not defined")
  | _ =>
      let trimmedPublicKeyPem := trim publicKeyPem in
      publicKey <~ lift_result (Forge.publicKeyFromPem trimmedPublicKeyPem) ;;
      seed1 <~ draw Forge.oaep_seed_length ;;
      wrappedKey <~ lift_result (Forge.rsa_encrypt publicKey (Forge.encode64 aesKey) seed1) ;;
      let encryptedAesKey := Forge.encode64 wrappedKey in
      seed2 <~ draw Forge.oaep_seed_length ;;
      wrappedIv <~ lift_result (Forge.rsa_encrypt publicKey (Forge.encode64 iv) seed2) ;;
      let encryptedIv := Forge.encode64 wrappedIv in
      let combined :=
        encryptedAesKey ++ js ":" ++ encryptedIv ++ js ":" ++ encryptedJsonData in
      ret (Forge.encode64 combined)
  end.

(** The bytes a call draws, in order: the key, the IV and the two OAEP
    seeds. *)
Definition key_of (g : Forge.prng) : jsstring := fst (Forge.getBytesSync 32 g).
Definition iv_of (g : Forge.prng) : jsstring :=
  fst (Forge.getBytesSync 16 (snd (Forge.getBytesSync 32 g))).
Definition seed1_of (g : Forge.prng) : jsstring :=
  fst (Forge.getBytesSync Forge.oaep_seed_length
         (snd (Forge.getBytesSync 16 (snd (Forge.getBytesSync 32 g))))).
Definition seed2_of (g : Forge.prng) : jsstring :=
  fst (Forge.getBytesSync Forge.oaep_seed_length
         (snd (Forge.getBytesSync Forge.oaep_seed_length
                 (snd (Forge.getBytesSync 16 (snd (Forge.getBytesSync 32 g))))))).

(** The transport format, in the words of the specification:
    base64( base64(wrapped key) : base64(wrapped IV) : base64(ciphertext) ). *)
Definition transport_format (wrapped_key wrapped_iv ciphertext : jsstring) : jsstring :=
  Base64.encode
    (Base64.encode wrapped_key ++ js ":" ++ Base64.encode wrapped_iv ++ js ":"
     ++ Base64.encode ciphertext).

(** [!part] for an element of a destructured array: missing or empty. *)
Definition falsy_part (p : option jsstring) : bool :=
  match p with
  | Some (_ :: _) => false
  | _ => true
  end.

Definition part (p : option jsstring) : jsstring :=
  match p with
  | Some s => s
  | None => []
  end.

(** The envelope, opened (the decryption routine). *)
Definition decryptDataWithRSA_AES (encrypted privateKeyPem : jsstring)
  : result value :=
  match privateKeyPem with
  | [] => Throw (Error "Private key is not defined")
  | _ =>
      let trimmedPrivateKeyPem := trim privateKeyPem in
      do privateKey <- Forge.privateKeyFromPem trimmedPrivateKeyPem;
      let decodedCombined := Forge.decode64 encrypted in
      let parts := split (code ":"%char) decodedCombined in
      let encryptedAesKey := nth_error parts 0 in
      let encryptedIv := nth_error parts 1 in
      let encryptedData := nth_error parts 2 in
      if falsy_part encryptedAesKey || falsy_part encryptedIv || falsy_part encryptedData
      then Throw (Error "Encrypted data format is invalid")
      else
        do keyText <- Forge.rsa_decrypt privateKey (Forge.decode64 (part encryptedAesKey));
        let aesKey := Forge.decode64 keyText in
        do ivText <- Forge.rsa_decrypt privateKey (Forge.decode64 (part encryptedIv));
        let iv := Forge.decode64 ivText in
        let encryptedBytes := Forge.decode64 (part encryptedData) in
        do finished <- Forge.aes_cbc_decrypt aesKey iv encryptedBytes;
        match finished with
        | None => Throw (Error "AES decryption failed")
        | Some output =>
            do text <- Forge.decodeUtf8 output;
            JSON_parse text
        end
  end.

End WithCrypto.
End Envelope.

(** ** The decoder page: the expiry message *)

Module JWTDecoder.
Section Page.
(** The text of a number inside a template string. *)
Variable Number_text : number -> jsstring.

(** What both effects of the page put in [expirationInfo] for the age
    that [getTokenExpiration] returned. *)
Definition expirationInfo (maxAge : option number) : jsstring :=
  match maxAge with
  | Some maxAge =>
      let minutes := Math_floor (num_div_int maxAge 60) in
      let seconds := num_rem_int maxAge 60 in
      if num_gt maxAge (of_int 0)
      then js "Token expires in " ++ Number_text minutes ++ js "m "
           ++ Number_text seconds ++ js "s"
      else js "Token has expired"
  | None => []
  end.
End Page.
End JWTDecoder.

(** ** The application context: what is kept and what is persisted *)

Module AppContext.

Definition defaultEncryptionState : list (jsstring * value) :=
  [(js "text", JStr []);
   (js "key", JStr []);
   (js "privateKey", JStr []);
   (js "algorithm", JStr (js "AES"));
   (js "mode", JStr (js "encrypt"));
   (js "result", JStr [])].

(** [const { k: _, ...rest } = o]. *)
Definition obj_rest (k : jsstring) (o : list (jsstring * value))
  : list (jsstring * value) :=
  filter (fun kv => negb (str_eqb (fst kv) k)) o.

(** The keys [0], [1], ... of an array or of a string. *)
Definition index_keys (n : nat) : list jsstring :=
  map (fun i => Number_toString (dec_of_Z (Z.of_nat i))) (seq 0 n).

(** The own enumerable properties that [{ ...v }] copies. *)
Definition own_properties (v : value) : list (jsstring * value) :=
  match v with
  | JObj o => o
  | JArr l => combine (index_keys (length l)) l
  | JStr s => combine (index_keys (length s)) (map (fun c => JStr [c]) s)
  | _ => []
  end.

(** The initializer of [encryptionState]: [saved] is what
    [localStorage.getItem] returned. *)
Definition initialEncryptionState (saved : option jsstring)
  : result (list (jsstring * value)) :=
  match saved with
  | Some (c :: text) =>
      do parsed <- JSON_parse (c :: text);
      Ok (obj_set (obj_spread [] (own_properties parsed)) (js "privateKey") (JStr []))
  | _ => Ok defaultEncryptionState
  end.

(** The text that the persisting effect stores for a state. *)
Definition persistedEncryptionState (encryptionState : list (jsstring * value))
  : jsstring :=
  let stateToSave := obj_rest (js "privateKey") encryptionState in
  JSON_stringify (JObj stateToSave).

(** An object of the provider's state: a property holds a JSON value or
    [undefined] ([None]).  [encryptionState] is such an object, and so is
    the [Partial<EncryptionState>] that an update brings. *)
Definition state_object : Type := list (jsstring * option value).

(** [o[k]]: [None] when [o] has no property [k]. *)
Fixpoint prop_get (o : state_object) (k : jsstring) : option (option value) :=
  match o with
  | [] => None
  | (k', v) :: o' => if str_eqb k' k then Some v else prop_get o' k
  end.

(** Define or overwrite a property: an existing key keeps its place.
    The statements read a state object by key only, not in order. *)
Fixpoint prop_set (o : state_object) (k : jsstring) (v : option value)
  : state_object :=
  match o with
  | [] => [(k, v)]
  | (k', v') :: o' =>
      if str_eqb k' k then (k', v) :: o' else (k', v') :: prop_set o' k v
  end.

(** [{...o, ...p}]: a property of [p] is copied even when it holds
    [undefined]. *)
Definition prop_spread (o p : state_object) : state_object :=
  fold_left (fun acc kv => prop_set acc (fst kv) (snd kv)) p o.

(** [const { k: _, ...rest } = o]. *)
Definition prop_rest (k : jsstring) (o : state_object) : state_object :=
  filter (fun kv => negb (str_eqb (fst kv) k)) o.

(** An object of JSON values, as a state object. *)
Definition of_json (o : list (jsstring * value)) : state_object :=
  map (fun kv => (fst kv, Some (snd kv))) o.

(** The two pieces of React state that [updateEncryptionState] sets. *)
Record store : Type := {
  privateKey : value;
  encryptionState : state_object
}.

(** The store when the provider mounts, for the state that the
    initializer built. *)
Definition initialStore (es : list (jsstring * value)) : store :=
  {| privateKey := JStr []; encryptionState := of_json es |}.

(** [updateEncryptionState(state)].  The first branch is taken when
    [state] has a [privateKey] that is not [undefined]; otherwise [state]
    is spread as it is, with a [privateKey] that holds [undefined] if it
    has one. *)
Definition updateEncryptionState (state : state_object) (st : store) : store :=
  match prop_get state (js "privateKey") with
  | Some (Some key) =>
      let restState := prop_rest (js "privateKey") state in
      {| privateKey := key;
         encryptionState :=
           prop_set (prop_spread (prop_spread [] (encryptionState st)) restState)
                    (js "privateKey") (Some (JStr [])) |}
  | _ =>
      {| privateKey := privateKey st;
         encryptionState := prop_spread (prop_spread [] (encryptionState st)) state |}
  end.

Definition clearEncryptionState (st : store) : store :=
  {| privateKey := JStr []; encryptionState := of_json defaultEncryptionState |}.

End AppContext.

(** A stand-in for the cryptographic primitives, to run the envelope on
    examples.  It has the shape of the real ones and none of their
    strength: the wrap puts the seed before the shifted message, the
    cipher puts the key-and-IV checksum before the data and one byte of
    padding after it. *)
Definition checksum (key iv : jsstring) : Z :=
  fold_left Z.add (key ++ iv) 0 mod 256.

Definition example_crypto : Forge.Crypto :=
  {| Forge.publicKey := Z;
     Forge.privateKey := Z;
     Forge.publicKeyFromPem := fun pem =>
       match expect (js "PUBLIC ") pem with
       | Some [k] => Ok k
       | _ => Throw (Error "Invalid PEM formatted message.")
       end;
     Forge.privateKeyFromPem := fun pem =>
       match expect (js "PRIVATE ") pem with
       | Some [k] => Ok k
       | _ => Throw (Error "Invalid PEM formatted message.")
       end;
     Forge.oaep_seed_length := 20;
     Forge.rsa_encrypt := fun k message seed =>
       if (length message <=? 214)%nat
       then Ok (seed ++ map (fun b => (b + k) mod 256) message)
       else Throw (Error "RSAES-OAEP input message length is too long.");
     Forge.rsa_decrypt := fun k data =>
       if (20 <=? length data)%nat
       then Ok (map (fun b => (b - k) mod 256) (skipn 20 data))
       else Throw (Error "Encryption block is invalid.");
     Forge.aes_cbc_encrypt := fun key iv data => checksum key iv :: data ++ [1];
     Forge.aes_cbc_decrypt := fun key iv data =>
       match data with
       | c :: data' =>
           if c =? checksum key iv then
             match rev data' with
             | 1 :: r => Ok (Some (rev r))
             | _ => Ok None
             end
           else Ok None
       | [] => Ok None
       end |}.

Definition example_random : random_source :=
  {| tape := fun i => [Z.of_nat i; 7; 35; 12]; position := 0 |}.

Definition example_prng : Forge.prng :=
  {| Forge.bytes_tape := fun i => Z.of_nat (i * 37 + 11); Forge.cursor := 0 |}.

Definition example_payload : value := JObj [(js "a", JNum (Dec 1 0))].

(** The envelope of the example payload under the example key, and the
    same with a fourth part added to the combined string. *)
Definition example_transport : jsstring :=
  Eval vm_compute in
    match fst (@Envelope.encryptDataWithRSA_AES example_crypto example_payload
                 (js " PUBLIC 7 ") example_prng) with
    | Ok t => t
    | Throw _ => []
    end.

Definition example_prng2 : Forge.prng :=
  {| Forge.bytes_tape := fun i => Z.of_nat (i * 37 + 11); Forge.cursor := 88 |}.

Definition example_transport2 : jsstring :=
  Eval vm_compute in
    match fst (@Envelope.encryptDataWithRSA_AES example_crypto example_payload
                 (js " PUBLIC 7 ") example_prng2) with
    | Ok t => t
    | Throw _ => []
    end.

Definition example_four_parts : jsstring :=
  Eval vm_compute in
    Forge.encode64 (Forge.decode64 example_transport ++ js ":AAAA").

(** A host to run the accessors on examples: strings, arrays and objects
    read as NaN, and a date is printed as its time value. *)
Definition example_host : Host :=
  {| StringToNumber := fun _ => NaN;
     ObjectToNumber := fun _ => NaN;
     Date_format := fun ms => Number_toString (dec_of_Z ms) |}.

(** ** Predicates of the statements and of the proofs *)

(** A decimal digit, and a text that does not go on with one. *)
Definition digit (d : Z) : Prop := 0 <= d <= 9.

Definition not_digit_head (rest : jsstring) : Prop :=
  match rest with
  | [] => True
  | c :: _ => is_digit c = false
  end.

(** What may follow a number. *)
Definition number_end (rest : jsstring) : Prop :=
  match rest with
  | [] => True
  | c :: _ => is_digit c = false /\ c <> 46 /\ c <> 101 /\ c <> 69
  end.

(** The decimal is the one [normalize] keeps: ten does not divide the
    mantissa, and zero is [0e0]. *)
Definition dec_ok (d : decimal) : bool :=
  if mantissa d =? 0 then exponent d =? 0 else negb (mantissa d mod 10 =? 0).

(** No key twice. *)
Fixpoint distinct (keys : list jsstring) : bool :=
  match keys with
  | [] => true
  | k :: keys' => negb (existsb (str_eqb k) keys') && distinct keys'
  end.

(** A value that JSON can carry: normalized numbers, strings and keys of
    characters that satisfy [unit_ok], objects without repeated keys. *)
Fixpoint value_ok (unit_ok : Z -> bool) (v : value) : bool :=
  match v with
  | JNull | JBool _ => true
  | JNum d => dec_ok d
  | JStr s => forallb unit_ok s
  | JArr l => forallb (value_ok unit_ok) l
  | JObj o =>
      distinct (map fst o)
      && forallb (fun kv => forallb unit_ok (fst kv) && value_ok unit_ok (snd kv)) o
  end.

(** The strings of a well-formed value are strings of UTF-16 code units. *)
Definition well_formed (v : value) : bool := value_ok is_unit v.

(** The fuel the parser needs to read a value back. *)
Fixpoint weight (v : value) : nat :=
  match v with
  | JArr l => S (list_sum (map (fun x => S (weight x)) l))
  | JObj o => S (list_sum (map (fun kv => S (weight (snd kv))) o))
  | _ => 1
  end.

(** What may follow a value inside a text. *)
Definition value_end (rest : jsstring) : Prop :=
  match rest with
  | [] => True
  | c :: _ => c = 44 \/ c = 93 \/ c = 125
  end.

(** A character a value can start with. *)
Definition value_start (c : Z) : Prop :=
  c = 110 \/ c = 116 \/ c = 102 \/ c = 34 \/ c = 91 \/ c = 123 \/ c = 45
  \/ is_digit c = true.

(** The parser reads the text of [v] back, whatever follows it. *)
Definition reads_back (v : value) : Prop :=
  well_formed v = true ->
  forall fuel rest,
    (weight v <= fuel)%nat -> value_end rest ->
    parse_value fuel (JSON_stringify v ++ rest) = Parsed v rest.

(** A member of an object, as [JSON_stringify] writes it. *)
Definition member_text (kv : jsstring * value) : jsstring :=
  QuoteJSONString (fst kv) ++ js ":" ++ JSON_stringify (snd kv).

Definition member_ok (kv : jsstring * value) : bool :=
  forallb is_unit (fst kv) && well_formed (snd kv).

(** No lone surrogate, and every character a code unit. *)
Fixpoint utf16_ok (s : jsstring) : bool :=
  match s with
  | [] => true
  | c :: s' =>
      if is_high_surrogate c then
        match s' with
        | d :: s'' => is_low_surrogate d && utf16_ok s''
        | [] => false
        end
      else negb (is_low_surrogate c) && is_unit c && utf16_ok s'
  end.

Definition is_ascii (c : Z) : bool := (0 <=? c) && (c <? 128).

(** A payload that survives serialization: its JSON text has a UTF-8
    encoding that decodes to it, and parses back to the payload. *)
Definition serializable (payload : value) : Prop :=
  exists data,
    Forge.encodeUtf8 (JSON_stringify payload) = Ok data /\
    forallb is_byte data = true /\
    Forge.decodeUtf8 data = Ok (JSON_stringify payload) /\
    JSON_parse (JSON_stringify payload) = Ok payload.

(** The seconds a token lives: a day when the claims ask for a refresh
    token, half an hour otherwise. *)
Definition lifetime (C : list (jsstring * value)) : Z :=
  if Encrypt.strict_eq_string (obj_get C (js "token_type")) (js "refresh")
  then 24 * 60 * 60 else 30 * 60.

(** The strings and the scope of a user are Latin-1. *)
Definition user_ok (u : Encrypt.UserInfo.t) : bool :=
  forallb is_byte (Encrypt.UserInfo.userId u)
  && match Encrypt.UserInfo.roleProfile u with
     | Some r => forallb is_byte r
     | None => true
     end
  && match Encrypt.UserInfo.accessScope u with
     | Some o => value_ok is_byte (JObj o)
     | None => true
     end
  && match Encrypt.UserInfo.sessionId u with
     | Some s => forallb is_byte s
     | None => true
     end.

(** A digit or a lower-case letter: a digit of base 36. *)
Definition is_base36 (c : Z) : bool :=
  ((48 <=? c) && (c <=? 57)) || ((97 <=? c) && (c <=? 122)).

(** The states the provider can be in: the initial one, for whatever text
    [localStorage] holds, and what the two setters make of a state.  The
    object an update brings has no key twice. *)
Inductive reachable : AppContext.store -> Prop :=
| reach_initial saved es :
    AppContext.initialEncryptionState saved = Ok es ->
    reachable (AppContext.initialStore es)
| reach_update state st :
    distinct (map fst state) = true ->
    reachable st -> reachable (AppContext.updateEncryptionState state st)
| reach_clear st :
    reachable st -> reachable (AppContext.clearEncryptionState st).

(* ================================================================== *)
(** * Part II: lemmas and theorems *)
(* ================================================================== *)

(** ** Lists, three elements at a time *)

Lemma list_ind3 {A : Type} (P : list A -> Prop) :
  P [] ->
  (forall a, P [a]) ->
  (forall a b, P [a; b]) ->
  (forall a b c l, P l -> P (a :: b :: c :: l)) ->
  forall l, P l.
Proof.
  intros H0 H1 H2 H3.
  refine (fix F (l : list A) : P l :=
            match l with
            | [] => H0
            | [a] => H1 a
            | [a; b] => H2 a b
            | a :: b :: c :: l' => H3 a b c l' (F l')
            end).
Qed.

(** ** Bit operations as arithmetic *)

Lemma lor_add k a b :
  0 <= k -> a mod 2 ^ k = 0 -> 0 <= b < 2 ^ k -> Z.lor a b = a + b.
Proof.
  intros Hk Ha Hb.
  assert (Z.land a b = 0) as Hl.
  { apply Z.bits_inj'. intros n Hn. rewrite Z.land_spec, Z.bits_0.
    destruct (Z.lt_ge_cases n k) as [Hlt|Hge].
    - rewrite <- (Z.mod_pow2_bits_low a k n) by lia.
      rewrite Ha, Z.bits_0. reflexivity.
    - replace (Z.testbit b n) with false; [apply andb_false_r|].
      symmetry. destruct (Z.eq_dec b 0) as [->|Hb0]; [apply Z.bits_0|].
      apply Z.bits_above_log2; [lia|].
      apply Z.log2_lt_pow2; [lia|]. apply Z.lt_le_trans with (2 ^ k); [lia|].
      apply Z.pow_le_mono_r; lia. }
  rewrite Z.add_nocarry_lxor by exact Hl.
  rewrite Z.lxor_lor by exact Hl. reflexivity.
Qed.

Lemma land_3 a : Z.land a 3 = a mod 4.
Proof. exact (Z.land_ones a 2 ltac:(lia)). Qed.
Lemma land_15 a : Z.land a 15 = a mod 16.
Proof. exact (Z.land_ones a 4 ltac:(lia)). Qed.
Lemma land_63 a : Z.land a 63 = a mod 64.
Proof. exact (Z.land_ones a 6 ltac:(lia)). Qed.
Lemma land_255 a : Z.land a 255 = a mod 256.
Proof. exact (Z.land_ones a 8 ltac:(lia)). Qed.

Lemma shiftr_div a k : 0 <= k -> Z.shiftr a k = a / 2 ^ k.
Proof. intros; apply Z.shiftr_div_pow2; assumption. Qed.
Lemma shiftl_mul a k : 0 <= k -> Z.shiftl a k = a * 2 ^ k.
Proof. intros; apply Z.shiftl_mul_pow2; assumption. Qed.

(** Turn shifts and masks by constants into [/], [*] and [mod]. *)
Ltac bits_to_arith :=
  rewrite ?land_3, ?land_15, ?land_63, ?land_255;
  rewrite ?shiftr_div, ?shiftl_mul by lia;
  change (2 ^ 2) with 4; change (2 ^ 4) with 16; change (2 ^ 6) with 64;
  change (2 ^ 8) with 256; change (2 ^ 12) with 4096;
  change (2 ^ 16) with 65536; change (2 ^ 18) with 262144.

Ltac euclid := Z.to_euclidean_division_equations; lia.

Lemma is_byte_range c : is_byte c = true <-> 0 <= c < 256.
Proof. unfold is_byte. rewrite andb_true_iff, Z.leb_le, Z.ltb_lt. tauto. Qed.

Lemma bytes_cons c s :
  forallb is_byte (c :: s) = true <-> 0 <= c < 256 /\ forallb is_byte s = true.
Proof. simpl. rewrite andb_true_iff, is_byte_range. tauto. Qed.

(** The two-part sextets are sums: their halves do not overlap. *)
Lemma sextet2 a b :
  0 <= a < 256 -> 0 <= b < 256 ->
  Z.lor (Z.shiftl (Z.land a 3) 4) (Z.shiftr b 4) = (a mod 4) * 16 + b / 16.
Proof.
  intros Ha Hb. bits_to_arith.
  apply (lor_add 4); [lia | euclid | change (2 ^ 4) with 16; euclid].
Qed.

Lemma sextet3 b c :
  0 <= b < 256 -> 0 <= c < 256 ->
  Z.lor (Z.shiftl (Z.land b 15) 2) (Z.shiftr c 6) = (b mod 16) * 4 + c / 64.
Proof.
  intros Hb Hc. bits_to_arith.
  apply (lor_add 2); [lia | euclid | change (2 ^ 2) with 4; euclid].
Qed.

(** ** Base64: alphabet *)

Lemma small_cases (P : Z -> Prop) (n : nat) :
  (forall i, (i < n)%nat -> P (Z.of_nat i)) ->
  forall v, 0 <= v < Z.of_nat n -> P v.
Proof.
  intros H v Hv. rewrite <- (Z2Nat.id v) by lia. apply H. lia.
Qed.

Lemma index_symbol v : 0 <= v < 64 -> Base64.index (Base64.symbol v) = Some v.
Proof.
  apply (small_cases (fun v => Base64.index (Base64.symbol v) = Some v) 64).
  intros i Hi.
  do 64 (destruct i as [|i]; [reflexivity|]). lia.
Qed.

Lemma charAt_symbol v : 0 <= v < 64 -> charAt Base64.alphabet v = [Base64.symbol v].
Proof.
  apply (small_cases (fun v => charAt Base64.alphabet v = [Base64.symbol v]) 64).
  intros i Hi.
  do 64 (destruct i as [|i]; [reflexivity|]). lia.
Qed.

(** What a character with an index looks like. *)
Lemma index_Some c v :
  Base64.index c = Some v ->
  0 <= v < 64 /\ 0 <= c < 256 /\ c <> 45 /\ c <> 95 /\ c <> 61 /\ c <> 58
  /\ ascii_whitespace c = false.
Proof.
  unfold Base64.index, ascii_whitespace.
  repeat match goal with
         | |- context [if ?b then _ else _] => destruct b eqn:?
         end; intros [= <-]; repeat split; try lia;
    repeat match goal with
           | |- (_ || _) = false => apply orb_false_iff; split
           | |- (_ =? _) = false => apply Z.eqb_neq
           end; lia.
Qed.

(** ** Base64: the encoder in terms of sextets *)

Definition sextet (v : Z) : Prop := 0 <= v < 64.

Lemma sextets_range s :
  forallb is_byte s = true -> Forall sextet (Base64.sextets s).
Proof.
  unfold sextet.
  induction s as [|a|a b|a b c l IH] using list_ind3; intros H;
    cbn [Base64.sextets].
  - constructor.
  - apply bytes_cons in H as [Ha _].
    repeat (apply Forall_cons; [bits_to_arith; euclid|]). apply Forall_nil.
  - apply bytes_cons in H as [Ha H]. apply bytes_cons in H as [Hb _].
    rewrite sextet2 by assumption.
    repeat (apply Forall_cons; [bits_to_arith; euclid|]). apply Forall_nil.
  - apply bytes_cons in H as [Ha H]. apply bytes_cons in H as [Hb H].
    apply bytes_cons in H as [Hc H].
    rewrite sextet2, sextet3 by assumption.
    do 4 (apply Forall_cons; [bits_to_arith; euclid|]). apply IH, H.
Qed.

Lemma padding_step {A} (a b c : A) (l : list A) :
  (length (a :: b :: c :: l) mod 3 = length l mod 3)%nat.
Proof.
  simpl length. replace (S (S (S (length l)))) with (length l + 1 * 3)%nat by lia.
  apply Nat.Div0.mod_add.
Qed.

Lemma encode_sextets s :
  forallb is_byte s = true ->
  Base64.encode s
  = map Base64.symbol (Base64.sextets s) ++ repeat 61 (Base64.padding s).
Proof.
  induction s as [|a|a b|a b c l IH] using list_ind3; intros H.
  - reflexivity.
  - pose proof (sextets_range _ H) as R. cbn [Base64.sextets] in R.
    inversion R as [|? ? R1 R']; subst. inversion R' as [|? ? R2 _]; subst.
    cbn [Base64.encode Base64.sextets].
    change (Z.shiftr 0 4) with 0. rewrite Z.lor_0_r.
    rewrite !charAt_symbol by assumption. reflexivity.
  - pose proof (sextets_range _ H) as R. cbn [Base64.sextets] in R.
    inversion R as [|? ? R1 R']; subst. inversion R' as [|? ? R2 R'']; subst.
    inversion R'' as [|? ? R3 _]; subst.
    cbn [Base64.encode Base64.sextets].
    change (Z.shiftr 0 6) with 0. rewrite Z.lor_0_r.
    rewrite !charAt_symbol by assumption. reflexivity.
  - pose proof (sextets_range _ H) as R. cbn [Base64.sextets] in R.
    inversion R as [|? ? R1 R']; subst. inversion R' as [|? ? R2 R'']; subst.
    inversion R'' as [|? ? R3 R3']; subst. inversion R3' as [|? ? R4 _]; subst.
    apply bytes_cons in H as [_ H]. apply bytes_cons in H as [_ H].
    apply bytes_cons in H as [_ H].
    cbn [Base64.encode Base64.sextets].
    rewrite !charAt_symbol by assumption. rewrite (IH H).
    unfold Base64.padding. rewrite padding_step. reflexivity.
Qed.

(** The encoding is a whole number of four-character groups. *)
Lemma sextets_length s :
  ((length (Base64.sextets s) + Base64.padding s) mod 4 = 0)%nat /\
  (Base64.padding s <= 2)%nat /\
  (length (Base64.sextets s) mod 4 <> 1)%nat.
Proof.
  unfold Base64.padding.
  induction s as [|a|a b|a b c l IH] using list_ind3.
  - simpl. repeat split; lia.
  - simpl. repeat split; lia.
  - simpl. repeat split; lia.
  - rewrite padding_step. cbn [Base64.sextets length].
    destruct IH as (IH1 & IH2 & IH3). repeat split.
    + replace (S (S (S (S (length (Base64.sextets l))))) + _)%nat
        with ((length (Base64.sextets l)
               + match (length l mod 3)%nat with
                 | 1%nat => 2 | 2%nat => 1 | _ => 0 end) + 1 * 4)%nat by lia.
      rewrite Nat.Div0.mod_add. exact IH1.
    + exact IH2.
    + replace (S (S (S (S (length (Base64.sextets l))))))
        with (length (Base64.sextets l) + 1 * 4)%nat by lia.
      rewrite Nat.Div0.mod_add. exact IH3.
Qed.

(** ** Base64: the decoder's bit buffer inverts the sextets *)

Lemma pack2 v1 v2 :
  sextet v1 -> sextet v2 -> Z.lor (Z.shiftl v1 6) v2 = v1 * 64 + v2.
Proof.
  unfold sextet; intros H1 H2. bits_to_arith.
  apply (lor_add 6); [lia | euclid | change (2 ^ 6) with 64; lia].
Qed.

Lemma pack3 v1 v2 v3 :
  sextet v1 -> sextet v2 -> sextet v3 ->
  Z.lor (Z.lor (Z.shiftl v1 12) (Z.shiftl v2 6)) v3 = v1 * 4096 + v2 * 64 + v3.
Proof.
  unfold sextet; intros H1 H2 H3. bits_to_arith.
  rewrite (lor_add 12 (v1 * 4096) (v2 * 64));
    [| lia | euclid | change (2 ^ 12) with 4096; lia].
  apply (lor_add 6); [lia | euclid | change (2 ^ 6) with 64; lia].
Qed.

Lemma pack4 v1 v2 v3 v4 :
  sextet v1 -> sextet v2 -> sextet v3 -> sextet v4 ->
  Z.lor (Z.lor (Z.lor (Z.shiftl v1 18) (Z.shiftl v2 12)) (Z.shiftl v3 6)) v4
  = v1 * 262144 + v2 * 4096 + v3 * 64 + v4.
Proof.
  unfold sextet; intros H1 H2 H3 H4. bits_to_arith.
  rewrite (lor_add 18 (v1 * 262144) (v2 * 4096));
    [| lia | euclid | change (2 ^ 18) with 262144; lia].
  rewrite (lor_add 12 _ (v3 * 64));
    [| lia | euclid | change (2 ^ 12) with 4096; lia].
  apply (lor_add 6); [lia | euclid | change (2 ^ 6) with 64; lia].
Qed.

Lemma atob_buffer_sextets s :
  forallb is_byte s = true -> atob_buffer (Base64.sextets s) = s.
Proof.
  induction s as [|a|a b|a b c l IH] using list_ind3; intros H.
  - reflexivity.
  - pose proof (sextets_range _ H) as R. cbn [Base64.sextets] in R.
    inversion R as [|? ? R1 R']; subst. inversion R' as [|? ? R2 _]; subst.
    apply bytes_cons in H as [Ha _].
    cbn [Base64.sextets atob_buffer]. rewrite pack2 by assumption.
    f_equal. bits_to_arith. euclid.
  - pose proof (sextets_range _ H) as R. cbn [Base64.sextets] in R.
    inversion R as [|? ? R1 R']; subst. inversion R' as [|? ? R2 R'']; subst.
    inversion R'' as [|? ? R3 _]; subst.
    apply bytes_cons in H as [Ha H]. apply bytes_cons in H as [Hb _].
    cbn [Base64.sextets atob_buffer]. rewrite pack3 by assumption.
    rewrite sextet2 by assumption.
    f_equal; [|f_equal]; bits_to_arith; euclid.
  - pose proof (sextets_range _ H) as R. cbn [Base64.sextets] in R.
    inversion R as [|? ? R1 R']; subst. inversion R' as [|? ? R2 R'']; subst.
    inversion R'' as [|? ? R3 R3']; subst. inversion R3' as [|? ? R4 _]; subst.
    apply bytes_cons in H as [Ha H]. apply bytes_cons in H as [Hb H].
    apply bytes_cons in H as [Hc H].
    cbn [Base64.sextets atob_buffer]. rewrite pack4 by assumption.
    rewrite sextet2, sextet3 by assumption. rewrite (IH H).
    f_equal; [|f_equal; [|f_equal]]; bits_to_arith; euclid.
Qed.

Lemma indices_symbols vs :
  Forall sextet vs -> indices (map Base64.symbol vs) = Some vs.
Proof.
  induction 1 as [|v vs Hv _ IH]; simpl.
  - reflexivity.
  - rewrite (index_symbol v Hv), IH. reflexivity.
Qed.

(** ** [atob] on padded and unpadded encodings *)

Lemma filter_all {A} (f : A -> bool) (l : list A) :
  Forall (fun x => f x = true) l -> filter f l = l.
Proof.
  induction 1 as [|x l Hx _ IH]; simpl; [reflexivity|].
  rewrite Hx, IH. reflexivity.
Qed.

Lemma symbols_shape vs :
  Forall sextet vs ->
  Forall (fun c => exists v, Base64.index c = Some v) (map Base64.symbol vs).
Proof.
  induction 1 as [|v vs Hv _ IH]; simpl; constructor; [|exact IH].
  exists v. apply index_symbol, Hv.
Qed.

Lemma strip_padding_symbols vs k :
  Forall sextet vs -> (k <= 2)%nat ->
  strip_padding (map Base64.symbol vs ++ repeat 61 k) = map Base64.symbol vs.
Proof.
  intros Hvs Hk. pose proof (symbols_shape vs Hvs) as Hs.
  set (body := map Base64.symbol vs) in *.
  assert (Hne : forall c, In c (rev body) -> c <> 61).
  { intros c Hc. apply in_rev in Hc. rewrite Forall_forall in Hs.
    destruct (Hs c Hc) as [v Hv]. apply index_Some in Hv. tauto. }
  unfold strip_padding. rewrite rev_app_distr.
  destruct k as [|[|[|k]]]; [| | |lia]; cbn [repeat rev app].
  - rewrite app_nil_r.
    destruct (rev body) as [|c1 [|c2 r]] eqn:E; [reflexivity| |].
    + destruct (Z.eqb_spec c1 61) as [->|_]; [|reflexivity].
      exfalso. apply (Hne 61); [left|]; reflexivity.
    + destruct (Z.eqb_spec c1 61) as [->|_]; [|reflexivity].
      exfalso. apply (Hne 61); [left|]; reflexivity.
  - destruct (rev body) as [|c2 r] eqn:E;
      apply (f_equal (@rev Z)) in E; rewrite rev_involutive in E;
      rewrite E; cbn [app]; change (61 =? 61) with true; cbv iota;
      [reflexivity|].
    destruct (Z.eqb_spec c2 61) as [->|_]; [|reflexivity].
    exfalso. apply (Hne 61); [left|]; reflexivity.
  - cbn [app]. change (61 =? 61) with true. cbv iota.
    apply rev_involutive.
Qed.

Lemma length16_app s t : length16 (s ++ t) = length16 s + length16 t.
Proof. unfold length16. rewrite length_app. lia. Qed.

Lemma atob_padded vs k :
  Forall sextet vs -> (k <= 2)%nat ->
  (length vs mod 4 <> 1)%nat -> ((length vs + k) mod 4 = 0)%nat ->
  atob (map Base64.symbol vs ++ repeat 61 k) = Ok (atob_buffer vs).
Proof.
  intros Hvs Hk H1 H0. unfold atob.
  rewrite filter_all.
  2:{ apply Forall_app; split.
      - pose proof (symbols_shape vs Hvs) as Hs.
        eapply Forall_impl; [|exact Hs]. cbv beta.
        intros c [v Hv]. apply index_Some in Hv.
        destruct Hv as (_ & _ & _ & _ & _ & _ & ->). reflexivity.
      - apply Forall_forall. intros c Hc. apply repeat_spec in Hc. subst c.
        reflexivity. }
  assert (length16 (map Base64.symbol vs ++ repeat 61 k) mod 4 = 0) as E0.
  { unfold length16. rewrite length_app, length_map, repeat_length.
    change 4 with (Z.of_nat 4).
    rewrite <- Nat2Z.inj_mod, H0. reflexivity. }
  rewrite E0. cbn [Z.eqb]. rewrite strip_padding_symbols by assumption.
  assert (length16 (map Base64.symbol vs) mod 4 <> 1) as E1.
  { unfold length16. rewrite length_map. change 4 with (Z.of_nat 4).
    rewrite <- Nat2Z.inj_mod. lia. }
  apply Z.eqb_neq in E1. rewrite E1.
  rewrite indices_symbols by assumption. reflexivity.
Qed.

Lemma atob_encode s : forallb is_byte s = true -> atob (Base64.encode s) = Ok s.
Proof.
  intros H. rewrite (encode_sextets s H).
  destruct (sextets_length s) as (L0 & L2 & L1).
  rewrite atob_padded by (try apply sextets_range; assumption).
  rewrite atob_buffer_sextets by assumption. reflexivity.
Qed.

(** ** The segment codec of [encrypt.ts] *)

Lemma pad_loop_spec l k :
  (k <= 3)%nat -> ((length l + k) mod 4 = 0)%nat ->
  Encrypt.pad_loop 3 l = l ++ repeat 61 k.
Proof.
  intros Hk H0.
  assert (Hlen : forall m, length16 (l ++ repeat 61 m) mod 4
                           = Z.of_nat ((length l + m) mod 4)).
  { intros m. unfold length16. rewrite length_app, repeat_length.
    rewrite Nat2Z.inj_mod. reflexivity. }
  pose proof (Hlen 0%nat) as Hl0. cbn [repeat] in Hl0. rewrite app_nil_r in Hl0.
  pose proof (Hlen 1%nat) as Hl1. cbn [repeat] in Hl1.
  pose proof (Hlen 2%nat) as Hl2. cbn [repeat] in Hl2.
  assert (Hstep : forall m, (m < k)%nat -> (Z.of_nat ((length l + m) mod 4) =? 0) = false).
  { intros m Hm. apply Z.eqb_neq. intros E.
    apply (f_equal Z.of_nat) in H0. rewrite Nat2Z.inj_mod in H0, E. euclid. }
  destruct k as [|[|[|[|k]]]]; [| | | |lia];
    cbn [Encrypt.pad_loop repeat]; change (js "=") with [61].
  - rewrite Hl0, H0, app_nil_r. reflexivity.
  - rewrite Hl0, Hstep by lia. rewrite Hl1, H0. reflexivity.
  - rewrite Hl0, Hstep by lia. rewrite Hl1, Hstep by lia.
    rewrite <- app_assoc. cbn [app]. rewrite Hl2, H0. reflexivity.
  - rewrite Hl0, Hstep by lia. rewrite Hl1, Hstep by lia.
    rewrite <- app_assoc. cbn [app]. rewrite Hl2, Hstep by lia.
    rewrite <- app_assoc. reflexivity.
Qed.

(** The URL-safe substitution of one character and its inverse. *)
Definition url_char (c : Z) : Z :=
  let c := if c =? 43 then 45 else c in if c =? 47 then 95 else c.
Definition std_char (c : Z) : Z :=
  let c := if c =? 45 then 43 else c in if c =? 95 then 47 else c.

Lemma url_char_spec c v :
  Base64.index c = Some v ->
  std_char (url_char c) = c /\
  url_char c <> 43 /\ url_char c <> 47 /\ url_char c <> 61.
Proof.
  intros H. apply index_Some in H.
  destruct H as (_ & _ & H45 & H95 & H61 & _).
  unfold std_char, url_char. cbv zeta.
  destruct (Z.eqb_spec c 43) as [->|?]; [cbn; repeat split; lia|].
  destruct (Z.eqb_spec c 47) as [->|?]; [cbn; repeat split; lia|].
  destruct (Z.eqb_spec c 45); [lia|].
  destruct (Z.eqb_spec c 95); [lia|]. repeat split; lia.
Qed.

Lemma replace_all_twice a b a' b' s :
  replace_all a' b' (replace_all a b s)
  = map (fun c => let c := if c =? a then b else c in if c =? a' then b' else c) s.
Proof. unfold replace_all. rewrite map_map. reflexivity. Qed.

Lemma base64UrlEncode_bytes s :
  forallb is_byte s = true ->
  Encrypt.base64UrlEncode s
  = Ok (map url_char (map Base64.symbol (Base64.sextets s))).
Proof.
  intros H. unfold Encrypt.base64UrlEncode, btoa. rewrite H. cbn [bind].
  rewrite (encode_sextets s H). f_equal.
  change (code "="%char) with 61. change (code "/"%char) with 47.
  change (code "_"%char) with 95. change (code "+"%char) with 43.
  change (code "-"%char) with 45.
  rewrite replace_all_twice. fold url_char.
  change (fun c => url_char c) with url_char.
  rewrite map_app. unfold remove_all. rewrite filter_app.
  pose proof (symbols_shape _ (sextets_range s H)) as Hs.
  rewrite filter_all.
  2:{ apply Forall_map. eapply Forall_impl; [|exact Hs]. cbv beta.
      intros c [v Hv]. apply url_char_spec in Hv.
      apply negb_true_iff, Z.eqb_neq. tauto. }
  replace (filter _ (map url_char (repeat 61 (Base64.padding s)))) with (@nil Z).
  - apply app_nil_r.
  - induction (Base64.padding s) as [|n IH]; [reflexivity|].
    cbn [repeat map filter]. exact IH.
Qed.

Lemma base64UrlDecode_encoded s :
  forallb is_byte s = true ->
  Encrypt.base64UrlDecode (map url_char (map Base64.symbol (Base64.sextets s))) = Ok s.
Proof.
  intros H.
  pose proof (sextets_range s H) as Hr.
  pose proof (symbols_shape _ Hr) as Hs.
  destruct (sextets_length s) as (L0 & L2 & L1).
  unfold Encrypt.base64UrlDecode.
  change (code "/"%char) with 47. change (code "_"%char) with 95.
  change (code "+"%char) with 43. change (code "-"%char) with 45.
  rewrite replace_all_twice. fold std_char.
  change (fun c => std_char c) with std_char.
  rewrite map_map.
  rewrite (map_ext_in _ (fun c => c)), map_id.
  2:{ intros c Hc. rewrite Forall_forall in Hs. destruct (Hs c Hc) as [v Hv].
      apply url_char_spec in Hv. tauto. }
  rewrite (pad_loop_spec _ (Base64.padding s));
    [| lia | rewrite length_map; assumption].
  rewrite atob_padded by assumption.
  rewrite atob_buffer_sextets by assumption. reflexivity.
Qed.

Lemma index_not_dot c v : Base64.index c = Some v -> c <> 46.
Proof.
  unfold Base64.index.
  repeat match goal with
         | |- context [if ?b then _ else _] => destruct b eqn:?
         end; intros [= <-]; lia.
Qed.

(** The characters of a URL-safe encoding. *)
Lemma url_encoded_chars s c :
  forallb is_byte s = true ->
  In c (map url_char (map Base64.symbol (Base64.sextets s))) ->
  c <> 43 /\ c <> 47 /\ c <> 61 /\ c <> 46.
Proof.
  intros H Hin.
  pose proof (symbols_shape _ (sextets_range s H)) as Hs.
  rewrite Forall_forall in Hs.
  apply in_map_iff in Hin. destruct Hin as (x & <- & Hin).
  destruct (Hs x Hin) as [v Hv].
  pose proof (index_not_dot x v Hv) as Hdot.
  apply url_char_spec in Hv. destruct Hv as (_ & H43 & H47 & H61).
  repeat split; try assumption.
  unfold url_char. cbv zeta.
  destruct (x =? 43); [cbn; lia|]. destruct (x =? 47); lia.
Qed.

(** C10. For every string [s] of 8-bit characters, [base64UrlEncode]
    returns a string that [base64UrlDecode] takes back to [s], and that
    string contains none of the characters [+], [/] and [=]. *)
Theorem base64Url_roundtrip (s : jsstring) :
  forallb is_byte s = true ->
  exists e,
    Encrypt.base64UrlEncode s = Ok e /\
    Encrypt.base64UrlDecode e = Ok s /\
    ~ In (code "+"%char) e /\ ~ In (code "/"%char) e /\ ~ In (code "="%char) e.
Proof.
  intros H. eexists. split; [apply base64UrlEncode_bytes, H|].
  split; [apply base64UrlDecode_encoded, H|].
  change (code "/"%char) with 47. change (code "="%char) with 61.
  change (code "+"%char) with 43.
  repeat split; intros Hin; apply (url_encoded_chars s _ H) in Hin; tauto.
Qed.

Lemma base64Url_roundtrip_witness :
  exists e,
    Encrypt.base64UrlEncode (js "{?>~}") = Ok e /\
    Encrypt.base64UrlDecode e = Ok (js "{?>~}") /\
    ~ In (code "+"%char) e /\ ~ In (code "/"%char) e /\ ~ In (code "="%char) e.
Proof. apply (base64Url_roundtrip (js "{?>~}")). reflexivity. Defined.

(** ** Malformed tokens *)

(** C6. [decodeTokenPayload] answers [null] for a token without any [.]
    and for a token that does not split into exactly three segments; being
    a total function into values, it never throws. *)
Theorem decodeTokenPayload_malformed (token : jsstring) :
  includes (code "."%char) token = false \/
  length (split (code "."%char) token) <> 3%nat ->
  Encrypt.decodeTokenPayload token = JNull.
Proof.
  intros H. unfold Encrypt.decodeTokenPayload.
  destruct (includes (code "."%char) token); [|reflexivity].
  destruct H as [H|H]; [discriminate|].
  apply Nat.eqb_neq in H. rewrite H. reflexivity.
Qed.

Lemma decodeTokenPayload_malformed_witness :
  Encrypt.decodeTokenPayload (js "a.b") = JNull.
Proof.
  apply (decodeTokenPayload_malformed (js "a.b")). right. cbn. lia.
Defined.

Example decodeTokenPayload_not_a_jwt :
  Encrypt.decodeTokenPayload (js "not-a-jwt") = JNull.
Proof. apply decodeTokenPayload_malformed. left. reflexivity. Qed.

(** ** [jwt.ts] against [encrypt.ts] *)

Lemma length16_mod4 s : length16 s mod 4 = Z.of_nat (length s mod 4).
Proof. unfold length16. rewrite Nat2Z.inj_mod. reflexivity. Qed.

Lemma indices_pad l rest : indices (l ++ 61 :: rest) = None.
Proof.
  induction l as [|c l IH]; cbn [app indices].
  - reflexivity.
  - rewrite IH. destruct (Base64.index c); reflexivity.
Qed.

Lemma replace_all_absent a b s : ~ In a s -> replace_all a b s = s.
Proof.
  intros H. unfold replace_all. rewrite <- (map_id s) at 2.
  apply map_ext_in. intros c Hc.
  destruct (Z.eqb_spec c a) as [->|_]; [contradiction|reflexivity].
Qed.

Lemma replace_all_In a b c s : In c (replace_all a b s) -> c = b \/ In c s.
Proof.
  unfold replace_all. intros H. apply in_map_iff in H.
  destruct H as (x & Hx & Hin).
  destruct (Z.eqb_spec x a); subst; auto.
Qed.

(** Padding a segment that holds neither [=] nor white space does not
    change what [atob] makes of it. *)
Lemma atob_pad_loop seg :
  ~ In 61 seg -> forallb (fun c => negb (ascii_whitespace c)) seg = true ->
  atob (Encrypt.pad_loop 3 seg) = atob seg.
Proof.
  intros Hpad Hws.
  assert (Hf : forall k, filter (fun c => negb (ascii_whitespace c)) (seg ++ repeat 61 k)
                         = seg ++ repeat 61 k).
  { intros k. apply filter_all. apply Forall_forall. intros c Hc.
    apply in_app_or in Hc. destruct Hc as [Hc|Hc].
    - rewrite forallb_forall in Hws. auto.
    - apply repeat_spec in Hc. subst c. reflexivity. }
  pose proof (Hf 0%nat) as Hf0. cbn [repeat] in Hf0. rewrite app_nil_r in Hf0.
  assert (Hlen : forall k, length16 (seg ++ repeat 61 k) mod 4
                           = Z.of_nat ((length seg mod 4 + k) mod 4)).
  { intros k. rewrite length16_mod4, length_app, repeat_length.
    rewrite Nat.Div0.add_mod_idemp_l. reflexivity. }
  pose proof (Hlen 0%nat) as Hl0. cbn [repeat] in Hl0. rewrite app_nil_r in Hl0.
  pose proof (Nat.mod_upper_bound (length seg) 4 ltac:(lia)) as Hr.
  destruct (length seg mod 4)%nat as [|[|[|[|r]]]] eqn:R; [| | | |lia].
  - rewrite (pad_loop_spec seg 0); [apply f_equal, app_nil_r | lia |].
    rewrite Nat.add_0_r. exact R.
  - rewrite (pad_loop_spec seg 3); [| lia |].
    2:{ rewrite Nat.Div0.add_mod, R by lia. reflexivity. }
    unfold atob. cbv zeta. rewrite Hf, Hf0, Hlen, Hl0.
    change (Z.of_nat ((1 + 3) mod 4) =? 0) with true.
    change (Z.of_nat ((1 + 0) mod 4) =? 0) with false. cbv iota.
    rewrite Hl0. change (Z.of_nat ((1 + 0) mod 4) =? 1) with true. cbv iota.
    assert (strip_padding (seg ++ repeat 61 3) = seg ++ repeat 61 1) as ->.
    { unfold strip_padding. rewrite rev_app_distr. cbn [repeat rev app].
      change (61 =? 61) with true. cbv iota.
      cbn [rev]. rewrite rev_involutive. reflexivity. }
    rewrite Hlen. change (Z.of_nat ((1 + 1) mod 4) =? 1) with false. cbv iota.
    cbn [repeat]. rewrite indices_pad. reflexivity.
  - rewrite (pad_loop_spec seg 2); [| lia |].
    2:{ rewrite Nat.Div0.add_mod, R by lia. reflexivity. }
    unfold atob. cbv zeta. rewrite Hf, Hf0, Hlen, Hl0.
    change (Z.of_nat ((2 + 2) mod 4) =? 0) with true.
    change (Z.of_nat ((2 + 0) mod 4) =? 0) with false. cbv iota.
    assert (strip_padding (seg ++ repeat 61 2) = seg) as ->.
    { unfold strip_padding. rewrite rev_app_distr. cbn [repeat rev app].
      change (61 =? 61) with true. cbv iota. apply rev_involutive. }
    reflexivity.
  - rewrite (pad_loop_spec seg 1); [| lia |].
    2:{ rewrite Nat.Div0.add_mod, R by lia. reflexivity. }
    unfold atob. cbv zeta. rewrite Hf, Hf0, Hlen, Hl0.
    change (Z.of_nat ((3 + 1) mod 4) =? 0) with true.
    change (Z.of_nat ((3 + 0) mod 4) =? 0) with false. cbv iota.
    assert (strip_padding (seg ++ repeat 61 1) = seg) as ->.
    { unfold strip_padding. rewrite rev_app_distr. cbn [repeat rev app].
      destruct (rev seg) as [|c2 r'] eqn:E.
      { apply (f_equal (@length Z)) in E. rewrite length_rev in E.
        rewrite E in R. discriminate. }
      change (61 =? 61) with true. cbv iota.
      destruct (Z.eqb_spec c2 61) as [->|_].
      { exfalso. apply Hpad, in_rev. rewrite E. left. reflexivity. }
      apply (f_equal (@rev Z)) in E. rewrite rev_involutive in E.
      symmetry. exact E. }
    reflexivity.
Qed.

Lemma split_no_sep sep s : includes sep s = false -> split sep s = [s].
Proof.
  unfold includes. induction s as [|c s IH]; cbn [existsb split]; [reflexivity|].
  intros H. apply orb_false_iff in H. destruct H as [Hc Hs].
  rewrite Z.eqb_sym in Hc. rewrite Hc, (IH Hs). reflexivity.
Qed.

(** C2, as the code has it.  [decodeJWT] of [jwt.ts] hands the claims
    segment to [atob] unchanged; it agrees with [decodeTokenPayload] on
    every token whose claims segment holds neither [-] nor [_] and either
    has a length that is a multiple of four or holds neither [=] nor white
    space. *)
Theorem decodeJWT_agrees (token : jsstring) :
  let segment := nth 1 (split (code "."%char) token) [] in
  ~ In (code "-"%char) segment ->
  ~ In (code "_"%char) segment ->
  (length segment mod 4 = 0)%nat \/
  (~ In (code "="%char) segment /\
   forallb (fun c => negb (ascii_whitespace c)) segment = true) ->
  Jwt.decodeJWT token = Encrypt.decodeTokenPayload token.
Proof.
  intros segment Hm Hu Hs.
  unfold Jwt.decodeJWT, Encrypt.decodeTokenPayload.
  destruct (includes (code "."%char) token) eqn:Hdot; cbn [negb].
  2:{ rewrite (split_no_sep _ _ Hdot). reflexivity. }
  destruct (length (split (code "."%char) token) =? 3)%nat; cbn [negb];
    [|reflexivity].
  fold segment. unfold Encrypt.base64UrlDecode.
  rewrite (replace_all_absent _ _ segment Hm).
  rewrite (replace_all_absent _ _ segment Hu).
  destruct Hs as [H0|[Hp Hw]].
  - rewrite (pad_loop_spec segment 0); [rewrite app_nil_r; reflexivity | lia |].
    rewrite Nat.add_0_r. exact H0.
  - rewrite atob_pad_loop by assumption. reflexivity.
Qed.

Lemma decodeJWT_agrees_witness :
  Jwt.decodeJWT (js "e30.e30.x") = Encrypt.decodeTokenPayload (js "e30.e30.x").
Proof.
  apply (decodeJWT_agrees (js "e30.e30.x")).
  - cbn. intros [H|[H|[H|[]]]]; discriminate H.
  - cbn. intros [H|[H|[H|[]]]]; discriminate H.
  - right. split; [|reflexivity].
    cbn. intros [H|[H|[H|[]]]]; discriminate H.
Defined.

(** C2, as stated, fails: the claims segment below is URL-safe base64 of
    [{"a":">>>?"}]; [decodeTokenPayload] decodes it, [decodeJWT] of
    [jwt.ts] answers [null]. *)
Lemma decodeJWT_differs :
  Jwt.decodeJWT (js "e30.eyJhIjoiPj4-PyJ9.x") = JNull /\
  Encrypt.decodeTokenPayload (js "e30.eyJhIjoiPj4-PyJ9.x")
  = JObj [(js "a", JStr (js ">>>?"))] /\
  Jwt.decodeJWT (js "e30.eyJhIjoiPj4-PyJ9.x")
  <> Encrypt.decodeTokenPayload (js "e30.eyJhIjoiPj4-PyJ9.x").
Proof. vm_compute. repeat split. discriminate. Qed.

(** ** Expiry *)

Section Expiry.
Context {host : Host}.

Lemma get_prop_truthy v k x : get_prop v k = Some x -> truthy v = true.
Proof. destruct v; cbn; try discriminate. reflexivity. Qed.

Lemma default_buffer now :
  (inject_Z now + inject_Z 5 * inject_Z 60 == inject_Z (now + 300))%Q.
Proof. rewrite <- inject_Z_mult, <- inject_Z_plus. reflexivity. Qed.

Lemma dec_Q_zero d : mantissa d = 0 -> (dec_Q d == 0)%Q.
Proof. intros H. unfold dec_Q. rewrite H. apply Qmult_0_l. Qed.

Lemma isTokenExpired_numeric Date_now token d :
  0 <= Date_now ->
  get_prop (Encrypt.decodeTokenPayload token) (js "exp") = Some (JNum d) ->
  Encrypt.isTokenExpired Date_now token None = true
  <-> (dec_Q d <= inject_Z (Date_now / 1000 + 300))%Q.
Proof.
  intros Hnow Hexp. unfold Encrypt.isTokenExpired.
  rewrite Hexp, (get_prop_truthy _ _ _ Hexp).
  cbn [negb orb truthy_opt truthy ToNumber].
  destruct (Z.eqb_spec (mantissa d) 0) as [Hz|Hz]; cbn [negb].
  - split; [intros _|reflexivity].
    rewrite (dec_Q_zero d Hz). change 0%Q with (inject_Z 0).
    rewrite <- Zle_Qle. assert (0 <= Date_now / 1000) by (apply Z.div_pos; lia).
    lia.
  - unfold num_le, num_add, num_mul, of_int.
    rewrite Qle_bool_iff, default_buffer. reflexivity.
Qed.

Lemma Qle_bool_false x y : Qle_bool x y = false <-> (y < x)%Q.
Proof.
  split.
  - intros B. apply Qnot_le_lt. intros H. apply Qle_bool_iff in H. congruence.
  - intros H. destruct (Qle_bool x y) eqn:B; [|reflexivity].
    apply Qle_bool_iff in B. exfalso. exact (Qlt_not_le _ _ H B).
Qed.

Lemma num_le_default x now :
  num_le x (num_add (of_int now) (num_mul (of_int 5) (of_int 60)))
  = num_le x (of_int (now + 300)).
Proof.
  destruct x as [|q]; [reflexivity|]. cbn [num_le num_add num_mul of_int].
  apply eq_true_iff_eq. rewrite !Qle_bool_iff, default_buffer. reflexivity.
Qed.

(** The test of [isTokenExpired], for every token and clock: [!payload.exp],
    or the comparison of [payload.exp], read as a number, with the clock
    plus the buffer. *)
Lemma isTokenExpired_cases Date_now token :
  Encrypt.isTokenExpired Date_now token None = true
  <-> truthy_opt (get_prop (Encrypt.decodeTokenPayload token) (js "exp")) = false \/
      num_le (ToNumber (get_prop (Encrypt.decodeTokenPayload token) (js "exp")))
             (of_int (Date_now / 1000 + 300)) = true.
Proof.
  unfold Encrypt.isTokenExpired. rewrite num_le_default.
  destruct (truthy_opt (get_prop (Encrypt.decodeTokenPayload token) (js "exp"))) eqn:E.
  - destruct (get_prop (Encrypt.decodeTokenPayload token) (js "exp")) as [x|] eqn:G;
      [|discriminate].
    rewrite (get_prop_truthy _ _ _ G). cbn [negb orb].
    split; [intros H; right; exact H|intros [H|H]; [discriminate|exact H]].
  - cbn [negb]. rewrite orb_true_r. split; [intros _; left; reflexivity|reflexivity].
Qed.


(** C9. [getTokenSummary] compares [exp] with the clock itself: in every
    summary it returns, [expired] is [exp <= now], with [exp] read as a
    number and [now] the clock in whole seconds, and [valid] is its
    negation.  For a numeric [exp] that is an instant a Date can hold, a
    summary is returned, [expired] holds exactly when [exp <= now] and
    [valid] exactly when [now < exp]; so for [now < exp <= now + 300] the
    summary says [valid] and not [expired], while [isTokenExpired] with
    its default buffer says expired. *)
Theorem getTokenSummary_no_buffer (Date_now1 Date_now2 : Z) (token : jsstring) :
  let now := Date_now1 / 1000 in
  let claims := Encrypt.decodeTokenPayload token in
  (forall summary,
     Encrypt.getTokenSummary Date_now1 Date_now2 token = Ok (Some summary) ->
     Encrypt.expired summary
     = num_le (ToNumber (get_prop claims (js "exp"))) (of_int now) /\
     Encrypt.valid summary = negb (Encrypt.expired summary)) /\
  (forall d,
     get_prop claims (js "exp") = Some (JNum d) ->
     (Qabs (dec_Q d * inject_Z 1000) <= inject_Z 8640000000000000)%Q ->
     exists summary,
       Encrypt.getTokenSummary Date_now1 Date_now2 token = Ok (Some summary) /\
       (Encrypt.expired summary = true <-> (dec_Q d <= inject_Z now)%Q) /\
       (Encrypt.valid summary = true <-> (inject_Z now < dec_Q d)%Q) /\
       ((inject_Z now < dec_Q d)%Q -> (dec_Q d <= inject_Z (now + 300))%Q ->
        Encrypt.valid summary = true /\
        Encrypt.expired summary = false /\
        Encrypt.isTokenExpired Date_now1 token None = true)).
Proof.
  intros now claims. split.
  - intros summary. unfold Encrypt.getTokenSummary. fold claims. fold now.
    destruct (negb (truthy claims)); [discriminate|].
    destruct (toISOString (num_mul (ToNumber (get_prop claims (js "exp"))) (of_int 1000)))
      as [iso|e]; [|discriminate].
    cbn [bind]. intros H. injection H as <-.
    cbn [Encrypt.valid Encrypt.expired]. split; reflexivity.
  - intros d Hexp Hrange.
    unfold Encrypt.getTokenSummary. fold claims. fold now.
    rewrite Hexp, (get_prop_truthy _ _ _ Hexp).
    cbn [negb ToNumber]. unfold toISOString, TimeClip, num_mul, of_int.
    apply Qle_bool_iff in Hrange. rewrite Hrange. cbn [bind].
    eexists. split; [reflexivity|]. cbn [Encrypt.valid Encrypt.expired num_le].
    split; [apply Qle_bool_iff|]. split.
    + rewrite negb_true_iff. apply Qle_bool_false.
    + intros Hlt Hle. apply Qle_bool_false in Hlt. rewrite Hlt. cbn [negb].
      split; [reflexivity|]. split; [reflexivity|].
      apply isTokenExpired_cases. right. fold claims. rewrite Hexp.
      cbn [ToNumber num_le of_int]. fold now. apply Qle_bool_iff, Hle.
Qed.
End Expiry.



Lemma getTokenSummary_no_buffer_witness :
  let token := js "e30.eyJleHAiOjE3MDAwMDAyOTl9.x" in
  get_prop (Encrypt.decodeTokenPayload token) (js "exp")
  = Some (JNum (Dec 1700000299 0)) /\
  exists summary,
    @Encrypt.getTokenSummary example_host 1700000000999 1700000001000 token
    = Ok (Some summary) /\
    Encrypt.valid summary = true /\
    Encrypt.expired summary = false /\
    @Encrypt.isTokenExpired example_host 1700000000999 token None = true.
Proof.
  split; [reflexivity|].
  destruct (proj2 (@getTokenSummary_no_buffer example_host 1700000000999 1700000001000
                     (js "e30.eyJleHAiOjE3MDAwMDAyOTl9.x"))
              (Dec 1700000299 0) eq_refl)
    as [summary [Hs [_ [_ H]]]].
  - apply Qle_bool_iff. reflexivity.
  - exists summary. split; [exact Hs|]. apply H.
    + reflexivity.
    + apply Qle_bool_iff. reflexivity.
Defined.

Example summary_sample :
  @Encrypt.getTokenSummary example_host 1700000000999 1700000001000
    (js "e30.eyJleHAiOjE3MDAwMDAyOTl9.x")
  = Ok (Some {| Encrypt.valid := true;
                Encrypt.expired := false;
                Encrypt.type := JStr (js "access");
                Encrypt.userId := None;
                Encrypt.expiresIn := js "4 minutes";
                Encrypt.roleProfile := None;
                Encrypt.expiresAt := js "1700000299000" |}).
Proof. reflexivity. Qed.

(** ** node-forge: [decode64] inverts [encode64] on binary strings *)

Lemma base64Idx_symbol v : sextet v -> Forge.base64Idx (Base64.symbol v) = v.
Proof. intros H. unfold Forge.base64Idx. rewrite index_symbol by exact H. reflexivity. Qed.

Lemma fromCharCode_small n : 0 <= n < 65536 -> fromCharCode n = n.
Proof. intros H. unfold fromCharCode. apply Z.mod_small, H. Qed.

Lemma not64_sextet v : sextet v -> Forge.not64 (Some v) = true.
Proof.
  unfold sextet, Forge.not64. intros H.
  apply negb_true_iff, Z.eqb_neq. lia.
Qed.

Lemma decode_byte1 a b :
  0 <= a < 256 -> 0 <= b < 256 ->
  fromCharCode (Z.lor (Z.shiftl (a / 4) 2) (Z.shiftr (a mod 4 * 16 + b / 16) 4)) = a.
Proof.
  intros Ha Hb. bits_to_arith.
  rewrite (lor_add 2); [| lia | euclid | change (2 ^ 2) with 4; euclid].
  rewrite fromCharCode_small; euclid.
Qed.

Lemma decode_byte2 a b c :
  0 <= a < 256 -> 0 <= b < 256 -> 0 <= c < 256 ->
  fromCharCode (Z.lor (Z.shiftl (Z.land (a mod 4 * 16 + b / 16) 15) 4)
                      (Z.shiftr (b mod 16 * 4 + c / 64) 2)) = b.
Proof.
  intros Ha Hb Hc. bits_to_arith.
  rewrite (lor_add 4); [| lia | euclid | change (2 ^ 4) with 16; euclid].
  rewrite fromCharCode_small; euclid.
Qed.

Lemma decode_byte3 b c :
  0 <= b < 256 -> 0 <= c < 256 ->
  fromCharCode (Z.lor (Z.shiftl (Z.land (b mod 16 * 4 + c / 64) 3) 6) (c mod 64)) = c.
Proof.
  intros Hb Hc. bits_to_arith.
  rewrite (lor_add 6); [| lia | euclid | change (2 ^ 6) with 64; euclid].
  rewrite fromCharCode_small; euclid.
Qed.

Lemma decode_loop_sextets s :
  forallb is_byte s = true ->
  Forge.decode_loop (map Base64.symbol (Base64.sextets s)
                     ++ repeat 61 (Base64.padding s)) = s.
Proof.
  induction s as [|a|a b|a b c l IH] using list_ind3; intros H.
  - reflexivity.
  - pose proof (sextets_range _ H) as R. cbn [Base64.sextets] in R.
    inversion R as [|? ? R1 R']; subst. inversion R' as [|? ? R2 _]; subst.
    apply bytes_cons in H as [Ha _].
    cbn [Base64.sextets map app Forge.decode_loop].
    change (Base64.padding [a]) with 2%nat. cbn [repeat app Forge.decode_loop].
    rewrite !base64Idx_symbol by assumption.
    change (Forge.base64Idx 61) with 64.
    unfold Forge.decode_group. change (Forge.not64 (Some 64)) with false.
    cbv iota. cbn [Forge.int32 app]. rewrite ?app_nil_r.
    pose proof (decode_byte1 a 0 Ha ltac:(lia)) as E.
    change (0 / 16) with 0 in E. rewrite Z.add_0_r in E.
    revert E. bits_to_arith. intros ->. reflexivity.
  - pose proof (sextets_range _ H) as R. cbn [Base64.sextets] in R.
    inversion R as [|? ? R1 R']; subst. inversion R' as [|? ? R2 R'']; subst.
    inversion R'' as [|? ? R3 _]; subst.
    apply bytes_cons in H as [Ha H]. apply bytes_cons in H as [Hb _].
    cbn [Base64.sextets map app Forge.decode_loop].
    change (Base64.padding [a; b]) with 1%nat. cbn [repeat app Forge.decode_loop].
    rewrite !base64Idx_symbol by assumption.
    change (Forge.base64Idx 61) with 64.
    unfold Forge.decode_group. change (Forge.not64 (Some 64)) with false.
    rewrite not64_sextet by assumption.
    cbv iota. cbn [Forge.int32 app]. rewrite ?app_nil_r.
    rewrite sextet2 by assumption.
    pose proof (decode_byte1 a b Ha Hb) as E1.
    pose proof (decode_byte2 a b 0 Ha Hb ltac:(lia)) as E2.
    change (0 / 64) with 0 in E2. rewrite Z.add_0_r in E2.
    revert E1 E2. bits_to_arith. intros -> ->. reflexivity.
  - pose proof (sextets_range _ H) as R. cbn [Base64.sextets] in R.
    inversion R as [|? ? R1 R']; subst. inversion R' as [|? ? R2 R'']; subst.
    inversion R'' as [|? ? R3 R3']; subst. inversion R3' as [|? ? R4 _]; subst.
    apply bytes_cons in H as [Ha H]. apply bytes_cons in H as [Hb H].
    apply bytes_cons in H as [Hc H].
    unfold Base64.padding. rewrite padding_step. fold (Base64.padding l).
    cbn [Base64.sextets map app Forge.decode_loop].
    rewrite (IH H).
    rewrite !base64Idx_symbol by assumption.
    unfold Forge.decode_group. rewrite !not64_sextet by assumption.
    cbv iota. cbn [Forge.int32 app].
    rewrite sextet2, sextet3 by assumption.
    pose proof (decode_byte1 a b Ha Hb) as E1.
    pose proof (decode_byte2 a b c Ha Hb Hc) as E2.
    pose proof (decode_byte3 b c Hb Hc) as E3.
    revert E1 E2 E3. bits_to_arith. intros -> -> ->. reflexivity.
Qed.

(** What an encoding is made of, whatever the input. *)
Lemma alphabet_indexed :
  Forall (fun c => exists v, Base64.index c = Some v) Base64.alphabet.
Proof.
  unfold Base64.alphabet. cbn [js map String.list_ascii_of_string].
  repeat (apply Forall_cons; [eexists; reflexivity|]). apply Forall_nil.
Qed.

Lemma charAt_alphabet i c :
  In c (charAt Base64.alphabet i) -> exists v, Base64.index c = Some v.
Proof.
  unfold charAt. destruct (i <? 0); [intros []|].
  destruct (nth_error Base64.alphabet (Z.to_nat i)) as [x|] eqn:E; [|intros []].
  intros [<-|[]]. apply nth_error_In in E.
  pose proof alphabet_indexed as H. rewrite Forall_forall in H. auto.
Qed.

Lemma encode_chars s c :
  In c (Base64.encode s) -> (exists v, Base64.index c = Some v) \/ c = 61.
Proof.
  induction s as [|a|a b|a b x l IH] using list_ind3; cbn [Base64.encode];
    intros Hin.
  - destruct Hin.
  - repeat (apply in_app_or in Hin; destruct Hin as [Hin|Hin];
            [left; eapply charAt_alphabet; exact Hin|]).
    right. destruct Hin as [<-|[<-|[]]]; reflexivity.
  - repeat (apply in_app_or in Hin; destruct Hin as [Hin|Hin];
            [left; eapply charAt_alphabet; exact Hin|]).
    right. destruct Hin as [<-|[]]; reflexivity.
  - repeat (apply in_app_or in Hin; destruct Hin as [Hin|Hin];
            [left; eapply charAt_alphabet; exact Hin|]).
    apply IH, Hin.
Qed.

Lemma encode_is_bytes s : forallb is_byte (Base64.encode s) = true.
Proof.
  apply forallb_forall. intros c Hc. apply is_byte_range.
  destruct (encode_chars s c Hc) as [[v Hv]| ->]; [|lia].
  apply index_Some in Hv. tauto.
Qed.

Lemma encode_no_colon s : ~ In 58 (Base64.encode s).
Proof.
  intros Hc. destruct (encode_chars s 58 Hc) as [[v Hv]|E]; [|discriminate].
  apply index_Some in Hv. tauto.
Qed.

Lemma decode64_encode64 s :
  forallb is_byte s = true -> Forge.decode64 (Forge.encode64 s) = s.
Proof.
  intros H. unfold Forge.decode64, Forge.encode64.
  rewrite filter_all.
  - rewrite (encode_sextets s H). apply decode_loop_sextets, H.
  - apply Forall_forall. intros c Hc.
    destruct (encode_chars s c Hc) as [[v Hv]| ->]; [|reflexivity].
    unfold Base64.in_alphabet. rewrite Hv. reflexivity.
Qed.

Lemma encode_nonempty s :
  forallb is_byte s = true -> s <> [] -> Base64.encode s <> [].
Proof.
  intros H Hne E. apply Hne. rewrite <- (decode64_encode64 s H).
  unfold Forge.encode64. rewrite E. reflexivity.
Qed.

Lemma encode64_injective s t :
  forallb is_byte s = true -> forallb is_byte t = true ->
  Forge.encode64 s = Forge.encode64 t -> s = t.
Proof.
  intros Hs Ht E. rewrite <- (decode64_encode64 s Hs), <- (decode64_encode64 t Ht).
  rewrite E. reflexivity.
Qed.

(** ** The envelope: framing and random bytes *)

Lemma Ok_inj {A} (a b : A) : Ok a = Ok b -> a = b.
Proof. intros [= E]. exact E. Qed.

Lemma split_app sep a rest :
  ~ In sep a -> split sep (a ++ sep :: rest) = a :: split sep rest.
Proof.
  induction a as [|c a IH]; intros H; cbn [app split].
  - rewrite Z.eqb_refl. reflexivity.
  - destruct (Z.eqb_spec c sep) as [->|_]; [exfalso; apply H; left; reflexivity|].
    rewrite IH by (intros Hin; apply H; right; exact Hin). reflexivity.
Qed.

Lemma split_none sep a : ~ In sep a -> split sep a = [a].
Proof.
  intros H. apply split_no_sep. unfold includes.
  destruct (existsb (Z.eqb sep) a) eqn:E; [|reflexivity].
  apply existsb_exists in E. destruct E as (c & Hc & Heq).
  apply Z.eqb_eq in Heq. subst c. contradiction.
Qed.

Lemma bytes_app s t :
  forallb is_byte (s ++ t) = true
  <-> forallb is_byte s = true /\ forallb is_byte t = true.
Proof. rewrite forallb_app, andb_true_iff. reflexivity. Qed.

Lemma getBytesSync_bytes n g :
  forallb is_byte (fst (Forge.getBytesSync n g)) = true /\
  length (fst (Forge.getBytesSync n g)) = n.
Proof.
  unfold Forge.getBytesSync. cbn [fst]. split.
  - apply forallb_forall. intros c Hc. apply in_map_iff in Hc.
    destruct Hc as (i & <- & _). apply is_byte_range. euclid.
  - rewrite length_map, length_seq. reflexivity.
Qed.

Lemma encode_length s :
  forallb is_byte s = true ->
  length (Base64.encode s) = (4 * ((length s + 2) / 3))%nat.
Proof.
  induction s as [|a|a b|a b c l IH] using list_ind3; intros H.
  - reflexivity.
  - rewrite (encode_sextets _ H). reflexivity.
  - rewrite (encode_sextets _ H). reflexivity.
  - rewrite (encode_sextets _ H).
    pose proof H as H'.
    apply bytes_cons in H' as [_ H']. apply bytes_cons in H' as [_ H'].
    apply bytes_cons in H' as [_ H'].
    specialize (IH H'). rewrite (encode_sextets _ H') in IH.
    unfold Base64.padding in *. rewrite padding_step.
    cbn [Base64.sextets map length app]. rewrite length_app in *.
    cbn [length]. replace (S (S (S (length l))) + 2)%nat with (length l + 2 + 1 * 3)%nat by lia.
    rewrite Nat.div_add by lia. cbn [length] in IH. lia.
Qed.

(** ** Objects *)

Lemma str_eqb_eq s t : str_eqb s t = true <-> s = t.
Proof.
  revert t. induction s as [|c s IH]; intros [|d t]; cbn [str_eqb];
    try (split; [discriminate|congruence]); [tauto|].
  rewrite andb_true_iff, Z.eqb_eq, IH. split; [intros [-> ->]; reflexivity|].
  intros [= -> ->]. split; reflexivity.
Qed.

Lemma str_eqb_refl s : str_eqb s s = true.
Proof. apply str_eqb_eq. reflexivity. Qed.

Lemma str_eqb_neq s t : s <> t -> str_eqb s t = false.
Proof.
  intros H. destruct (str_eqb s t) eqn:E; [|reflexivity].
  apply str_eqb_eq in E. contradiction.
Qed.

Lemma obj_get_set_same o k v : obj_get (obj_set o k v) k = Some v.
Proof.
  induction o as [|[k' v'] o IH]; cbn [obj_set obj_get].
  - rewrite str_eqb_refl. reflexivity.
  - destruct (str_eqb k' k) eqn:E; cbn [obj_get]; rewrite E; [reflexivity|exact IH].
Qed.

Lemma obj_get_set_other o k v k' :
  k' <> k -> obj_get (obj_set o k v) k' = obj_get o k'.
Proof.
  intros Hne. induction o as [|[k0 v0] o IH]; cbn [obj_set obj_get].
  - rewrite str_eqb_neq by congruence. reflexivity.
  - destruct (str_eqb k0 k) eqn:E; cbn [obj_get].
    + apply str_eqb_eq in E. subst k0.
      rewrite !str_eqb_neq by congruence. reflexivity.
    + rewrite IH. reflexivity.
Qed.

Lemma obj_get_absent o k : ~ In k (map fst o) -> obj_get o k = None.
Proof.
  induction o as [|[k' v'] o IH]; cbn [map fst In obj_get]; intros H; [reflexivity|].
  rewrite str_eqb_neq by (intros ->; apply H; left; reflexivity).
  apply IH. intros Hin. apply H. right. exact Hin.
Qed.

(** A spread property wins over what was there. *)
Lemma obj_get_spread o p k :
  NoDup (map fst p) ->
  obj_get (obj_spread o p) k
  = match obj_get p k with
    | Some v => Some v
    | None => obj_get o k
    end.
Proof.
  unfold obj_spread. revert o.
  induction p as [|[k1 v1] p IH]; intros o Hnd; cbn [fold_left obj_get fst snd].
  - reflexivity.
  - cbn [map fst] in Hnd. inversion Hnd as [|? ? Hnotin Hnd']; subst.
    rewrite (IH _ Hnd').
    destruct (str_eqb k1 k) eqn:E.
    + apply str_eqb_eq in E. subst k1.
      rewrite (obj_get_absent p k Hnotin). apply obj_get_set_same.
    + destruct (obj_get p k); [reflexivity|].
      apply obj_get_set_other. intros ->. rewrite str_eqb_refl in E. discriminate.
Qed.

(** ** JSON: strings read back *)

Lemma hex_value_digit v : 0 <= v < 16 -> hex_value (hex_digit v) = Some v.
Proof.
  apply (small_cases (fun v => hex_value (hex_digit v) = Some v) 16).
  intros i Hi. do 16 (destruct i as [|i]; [reflexivity|]). lia.
Qed.

Lemma hex4_escape c :
  0 <= c < 65536 ->
  hex4 (hex_digit (c / 4096 mod 16)) (hex_digit (c / 256 mod 16))
       (hex_digit (c / 16 mod 16)) (hex_digit (c mod 16)) = Some c.
Proof.
  intros H. unfold hex4.
  rewrite !hex_value_digit by euclid. f_equal. euclid.
Qed.

Lemma parse_chars_raw c tail :
  c <> 34 -> c <> 92 -> ~ (0 <= c < 32) ->
  parse_chars (c :: tail) = parsed_cons c (parse_chars tail).
Proof.
  intros H34 H92 H32. cbn [parse_chars].
  rewrite (proj2 (Z.eqb_neq c 34) H34), (proj2 (Z.eqb_neq c 92) H92).
  destruct ((0 <=? c) && (c <? 32)) eqn:E; [|reflexivity].
  apply andb_true_iff in E. destruct E as [E1 E2].
  apply Z.leb_le in E1. apply Z.ltb_lt in E2. lia.
Qed.

Lemma parse_chars_unit c tail :
  0 <= c < 65536 ->
  parse_chars (quote_unit c ++ tail) = parsed_cons c (parse_chars tail).
Proof.
  intros Hc. unfold quote_unit.
  destruct (Z.eqb_spec c 8) as [->|N8]; [reflexivity|].
  destruct (Z.eqb_spec c 9) as [->|N9]; [reflexivity|].
  destruct (Z.eqb_spec c 10) as [->|N10]; [reflexivity|].
  destruct (Z.eqb_spec c 12) as [->|N12]; [reflexivity|].
  destruct (Z.eqb_spec c 13) as [->|N13]; [reflexivity|].
  destruct (Z.eqb_spec c 34) as [->|N34]; [reflexivity|].
  destruct (Z.eqb_spec c 92) as [->|N92]; [reflexivity|].
  destruct ((c <? 32) || is_high_surrogate c || is_low_surrogate c) eqn:E.
  - unfold unicode_escape. change (js "\u") with [92; 117]. cbn [app parse_chars].
    change (92 =? 34) with false. change (92 =? 92) with true.
    change (117 =? 117) with true. cbv iota.
    rewrite (hex4_escape c Hc). reflexivity.
  - apply orb_false_iff in E. destruct E as [E _].
    apply orb_false_iff in E. destruct E as [E _]. apply Z.ltb_ge in E.
    cbn [app]. apply parse_chars_raw; lia.
Qed.

Lemma surrogate_raw c :
  is_high_surrogate c = true \/ is_low_surrogate c = true ->
  c <> 34 /\ c <> 92 /\ ~ (0 <= c < 32).
Proof.
  unfold is_high_surrogate, is_low_surrogate.
  rewrite !andb_true_iff, !Z.leb_le. lia.
Qed.

Lemma parse_chars_quote_units s rest :
  Forall (fun c => 0 <= c < 65536) s ->
  parse_chars (quote_units s ++ 34 :: rest) = Some (s, rest).
Proof.
  remember (length s) as n eqn:Hn. revert s Hn.
  induction n as [n IH] using lt_wf_ind. intros s Hn Hs.
  destruct s as [|c s']; [reflexivity|].
  inversion Hs as [|? ? Hc Hs']; subst. cbn [quote_units].
  assert (Hone : parse_chars ((quote_unit c ++ quote_units s') ++ 34 :: rest)
                 = Some (c :: s', rest)).
  { rewrite <- app_assoc, (parse_chars_unit c _ Hc).
    rewrite (IH (length s')); [reflexivity | cbn [length]; lia | reflexivity | exact Hs']. }
  destruct (is_high_surrogate c) eqn:Hh; [|exact Hone].
  destruct s' as [|d s'']; [|].
  - rewrite (parse_chars_unit c _ Hc). reflexivity.
  - destruct (is_low_surrogate d) eqn:Hl; [|exact Hone].
    inversion Hs' as [|? ? Hd Hs'']; subst. cbn [app].
    destruct (surrogate_raw c (or_introl Hh)) as (C1 & C2 & C3).
    destruct (surrogate_raw d (or_intror Hl)) as (D1 & D2 & D3).
    rewrite (parse_chars_raw c _ C1 C2 C3), (parse_chars_raw d _ D1 D2 D3).
    rewrite (IH (length s'')); [reflexivity | cbn [length]; lia | reflexivity | exact Hs''].
Qed.

(** ** JSON: numbers read back *)

Lemma digits_value_app a b :
  digits_value (a ++ b) = fold_left (fun acc d => 10 * acc + d) b (digits_value a).
Proof. unfold digits_value. apply fold_left_app. Qed.

Lemma fold_digits_shift b x :
  fold_left (fun acc d => 10 * acc + d) b x
  = x * 10 ^ Z.of_nat (length b) + digits_value b.
Proof.
  unfold digits_value. revert x.
  induction b as [|d b IH]; intros x; cbn [fold_left length].
  - cbn. lia.
  - rewrite IH, (IH (10 * 0 + d)). rewrite Nat2Z.inj_succ, Z.pow_succ_r by lia. lia.
Qed.

Lemma digits_value_app_pow a b :
  digits_value (a ++ b) = digits_value a * 10 ^ Z.of_nat (length b) + digits_value b.
Proof. rewrite digits_value_app. apply fold_digits_shift. Qed.

Lemma digits_value_cons d b :
  digits_value (d :: b) = d * 10 ^ Z.of_nat (length b) + digits_value b.
Proof. apply (digits_value_app_pow [d] b). Qed.

Lemma digits_value_zeros j : digits_value (repeat 0 j) = 0.
Proof.
  induction j as [|j IH]; [reflexivity|].
  cbn [repeat]. rewrite digits_value_cons, IH. lia.
Qed.

Lemma digits_value_nonneg ds : Forall digit ds -> 0 <= digits_value ds.
Proof.
  induction 1 as [|d ds Hd _ IH]; [cbn; lia|].
  rewrite digits_value_cons. unfold digit in Hd.
  assert (0 <= 10 ^ Z.of_nat (length ds)) by (apply Z.pow_nonneg; lia). nia.
Qed.

(** [to_digits] with enough fuel. *)
Lemma to_digits_spec fuel n acc :
  0 <= n < 2 ^ Z.of_nat fuel ->
  exists ds,
    to_digits fuel n acc = ds ++ acc /\ Forall digit ds /\
    digits_value ds = n /\ (0 < n -> exists d ds', ds = d :: ds' /\ d <> 0).
Proof.
  revert n acc. induction fuel as [|fuel IH]; intros n acc Hn.
  - cbn in Hn. assert (n = 0) by lia. subst n.
    exists []. split; [reflexivity|]. split; [constructor|].
    split; [reflexivity|]. intros; lia.
  - cbn [to_digits]. destruct (Z.ltb_spec n 10) as [Hlt|Hge].
    + exists [n]. split; [reflexivity|]. split; [|split].
      * constructor; [unfold digit; lia|constructor].
      * unfold digits_value. cbn [fold_left]. cbv beta. lia.
      * intros Hpos. exists n, []. split; [reflexivity|lia].
    + rewrite Nat2Z.inj_succ, Z.pow_succ_r in Hn by lia.
      destruct (IH (n / 10) (n mod 10 :: acc)) as (ds & E & F & V & Hd).
      { split; [apply Z.div_pos; lia|]. apply Z.div_lt_upper_bound; lia. }
      exists (ds ++ [n mod 10]). split; [|split; [|split]].
      * rewrite E, <- app_assoc. reflexivity.
      * apply Forall_app. split; [exact F|].
        constructor; [unfold digit; euclid|constructor].
      * rewrite digits_value_app_pow, V. unfold digits_value.
        cbn [fold_left length]. cbv beta.
        change (10 ^ Z.of_nat 1) with 10. euclid.
      * intros _. destruct Hd as (d & ds' & -> & Hd0).
        { apply Z.div_str_pos. lia. }
        exists d, (ds' ++ [n mod 10]). split; [reflexivity|exact Hd0].
Qed.

Lemma digits_spec n :
  0 <= n ->
  Forall digit (digits n) /\ digits_value (digits n) = n /\
  (0 < n -> exists d ds', digits n = d :: ds' /\ d <> 0) /\ digits n <> [].
Proof.
  intros Hn. unfold digits.
  destruct (to_digits_spec (S (Z.to_nat (Z.log2 n))) n []) as (ds & E & F & V & Hd).
  { split; [exact Hn|]. rewrite Nat2Z.inj_succ, Z2Nat.id by apply Z.log2_nonneg.
    destruct (Z.eq_dec n 0) as [->|Hn0]; [cbn; lia|].
    apply Z.log2_spec. lia. }
  rewrite E, app_nil_r. split; [exact F|]. split; [exact V|]. split; [exact Hd|].
  destruct (Z.eq_dec n 0) as [->|Hn0].
  - intros ->. cbn in E. discriminate.
  - destruct Hd as (d & ds' & -> & _); [lia|]. discriminate.
Qed.

Lemma number_end_not_digit rest : number_end rest -> not_digit_head rest.
Proof. destruct rest; cbn; tauto. Qed.

Lemma is_digit_char d : digit d -> is_digit (digit_char d) = true.
Proof.
  unfold digit, is_digit, digit_char. intros H.
  apply andb_true_iff. rewrite !Z.leb_le. lia.
Qed.

Lemma take_digits_app ds rest :
  Forall digit ds -> not_digit_head rest ->
  take_digits (map digit_char ds ++ rest) = (ds, rest).
Proof.
  intros Hds Hrest. induction Hds as [|d ds Hd _ IH]; cbn [map app take_digits].
  - destruct rest as [|c rest]; [reflexivity|]. cbn in Hrest. cbn [take_digits].
    rewrite Hrest. reflexivity.
  - rewrite (is_digit_char d Hd), IH. unfold digit_char.
    replace (d + 48 - 48) with d by lia. reflexivity.
Qed.

Lemma starts_with_other c x rest : x <> c -> starts_with c (x :: rest) = None.
Proof. intros H. cbn. rewrite (proj2 (Z.eqb_neq x c) H). reflexivity. Qed.

Lemma starts_with_same c rest : starts_with c (c :: rest) = Some rest.
Proof. cbn. rewrite Z.eqb_refl. reflexivity. Qed.

Lemma parse_int_digits d ds rest :
  Forall digit (d :: ds) -> d <> 0 -> not_digit_head rest ->
  parse_int (map digit_char (d :: ds) ++ rest) = Some (d :: ds, rest).
Proof.
  intros Hds Hd Hrest. pose proof (take_digits_app _ _ Hds Hrest) as E.
  cbn [map app] in *. unfold parse_int.
  inversion Hds as [|? ? Hdd _]; subst.
  assert ((digit_char d =? 48) = false) as ->
      by (apply Z.eqb_neq; unfold digit_char; lia).
  rewrite (is_digit_char d Hdd), E. reflexivity.
Qed.

Lemma parse_int_zero rest : parse_int (48 :: rest) = Some ([0], rest).
Proof. reflexivity. Qed.

Lemma parse_frac_none rest : number_end rest -> parse_frac rest = Some ([], rest).
Proof.
  destruct rest as [|c rest]; [reflexivity|]. intros (_ & H & _).
  unfold parse_frac. rewrite starts_with_other by exact H. reflexivity.
Qed.

Lemma parse_frac_exp rest : parse_frac (101 :: rest) = Some ([], 101 :: rest).
Proof. reflexivity. Qed.

Lemma parse_frac_some d ds rest :
  Forall digit (d :: ds) -> not_digit_head rest ->
  parse_frac (46 :: map digit_char (d :: ds) ++ rest) = Some (d :: ds, rest).
Proof.
  intros Hds Hrest. unfold parse_frac. rewrite starts_with_same.
  rewrite (take_digits_app _ _ Hds Hrest). reflexivity.
Qed.

Lemma parse_exp_none rest : number_end rest -> parse_exp rest = Some (0, rest).
Proof.
  destruct rest as [|c rest]; [reflexivity|]. intros (_ & _ & H1 & H2).
  unfold parse_exp.
  rewrite (proj2 (Z.eqb_neq c 101) H1), (proj2 (Z.eqb_neq c 69) H2). reflexivity.
Qed.

Lemma parse_exp_some e rest :
  not_digit_head rest ->
  parse_exp (101 :: (if e <? 0 then js "-" else js "+")
                    ++ map digit_char (digits (Z.abs e)) ++ rest)
  = Some (e, rest).
Proof.
  intros Hrest.
  destruct (digits_spec (Z.abs e) ltac:(lia)) as (F & V & _ & Hne).
  unfold parse_exp.
  change ((101 =? 101) || (101 =? 69)) with true. cbv iota.
  destruct (digits (Z.abs e)) as [|d ds] eqn:E; [congruence|].
  destruct (Z.ltb_spec e 0) as [Hneg|Hpos].
  - change (js "-") with [45]. cbn [app]. rewrite starts_with_same.
    rewrite (take_digits_app (d :: ds) rest F Hrest). rewrite V. f_equal. f_equal. lia.
  - change (js "+") with [43]. cbn [app].
    rewrite starts_with_other by lia. rewrite starts_with_same.
    rewrite (take_digits_app (d :: ds) rest F Hrest). rewrite V. f_equal. f_equal. lia.
Qed.

(** ** Normal forms *)

Lemma norm_loop_pow j : forall fuel M e,
  M mod 10 <> 0 -> (j <= fuel)%nat ->
  norm_loop fuel (M * 10 ^ Z.of_nat j) e = Dec M (e + Z.of_nat j).
Proof.
  induction j as [|j IH]; intros fuel M e HM Hf.
  - change (10 ^ Z.of_nat 0) with 1. rewrite Z.mul_1_r, Z.add_0_r.
    destruct fuel as [|fuel]; [reflexivity|]. cbn [norm_loop].
    rewrite (proj2 (Z.eqb_neq _ _) HM). reflexivity.
  - destruct fuel as [|fuel]; [lia|]. cbn [norm_loop].
    rewrite Nat2Z.inj_succ, Z.pow_succ_r by lia.
    replace (M * (10 * 10 ^ Z.of_nat j)) with (M * 10 ^ Z.of_nat j * 10) by lia.
    rewrite Z.mod_mul by lia. change (0 =? 0) with true. cbv iota.
    rewrite Z.div_mul by lia. rewrite IH by (try assumption; lia).
    f_equal. lia.
Qed.

Lemma normalize_pow M j e :
  M mod 10 <> 0 -> normalize (M * 10 ^ Z.of_nat j) e = Dec M (e + Z.of_nat j).
Proof.
  intros HM. unfold normalize.
  assert (M <> 0) by (intros ->; apply HM; reflexivity).
  assert (0 < 10 ^ Z.of_nat j) by (apply Z.pow_pos_nonneg; lia).
  rewrite (proj2 (Z.eqb_neq _ 0)) by nia.
  apply norm_loop_pow; [exact HM|].
  assert (Z.of_nat j <= Z.log2 (Z.abs (M * 10 ^ Z.of_nat j))); [|lia].
  apply Z.log2_le_pow2; [nia|].
  apply Z.le_trans with (10 ^ Z.of_nat j).
  - apply Z.pow_le_mono_l. lia.
  - rewrite Z.abs_mul. nia.
Qed.

Lemma normalize_ok m e : dec_ok (normalize m e) = true.
Proof.
  unfold normalize. destruct (Z.eqb_spec m 0) as [->|Hm]; [reflexivity|].
  assert (H : forall fuel m e, m <> 0 -> Z.abs m < 2 ^ Z.of_nat fuel ->
                               dec_ok (norm_loop fuel m e) = true).
  { clear. induction fuel as [|fuel IH]; intros m e Hm Hlt.
    - cbn in Hlt. lia.
    - cbn [norm_loop]. destruct (Z.eqb_spec (m mod 10) 0) as [E|E].
      + apply IH; [euclid|]. rewrite Nat2Z.inj_succ, Z.pow_succ_r in Hlt by lia.
        euclid.
      + unfold dec_ok. cbn [mantissa exponent].
        rewrite (proj2 (Z.eqb_neq m 0) Hm), (proj2 (Z.eqb_neq _ 0) E). reflexivity. }
  apply H; [exact Hm|].
  rewrite Nat2Z.inj_succ, Z2Nat.id by apply Z.log2_nonneg.
  apply Z.log2_spec. lia.
Qed.

Lemma normalize_signed (neg : bool) M j e :
  M mod 10 <> 0 ->
  normalize (if neg then - (M * 10 ^ Z.of_nat j) else M * 10 ^ Z.of_nat j) e
  = Dec (if neg then - M else M) (e + Z.of_nat j).
Proof.
  intros HM. destruct neg; [|apply normalize_pow, HM].
  rewrite <- Z.mul_opp_l. apply normalize_pow. euclid.
Qed.

Lemma normalize_signed0 (neg : bool) M e :
  M mod 10 <> 0 ->
  normalize (if neg then - M else M) e = Dec (if neg then - M else M) e.
Proof.
  intros HM. pose proof (normalize_signed neg M 0 e HM) as H.
  change (10 ^ Z.of_nat 0) with 1 in H. rewrite Z.mul_1_r, Z.add_0_r in H. exact H.
Qed.

Lemma map_digit_zeros j : repeat 48 j = map digit_char (repeat 0 j).
Proof. induction j as [|j IH]; [reflexivity|]. cbn [repeat map]. rewrite <- IH. reflexivity. Qed.

Lemma Forall_digit_zeros j : Forall digit (repeat 0 j).
Proof. apply Forall_forall. intros x Hx. apply repeat_spec in Hx. subst. unfold digit. lia. Qed.

(** The text of a positive number in lowest terms reads back, under
    either sign. *)
Lemma parse_unsigned_toString M e (neg : bool) rest :
  0 < M -> M mod 10 <> 0 -> number_end rest ->
  let ds := map digit_char (digits M) in
  let k := length16 ds in
  let n := k + e in
  parse_unsigned neg
    ((if (k <=? n) && (n <=? 21) then ds ++ repeat 48 (Z.to_nat (n - k))
      else if (0 <? n) && (n <=? 21) then
        firstn (Z.to_nat n) ds ++ js "." ++ skipn (Z.to_nat n) ds
      else if (-6 <? n) && (n <=? 0) then
        js "0." ++ repeat 48 (Z.to_nat (- n)) ++ ds
      else
        let e' := n - 1 in
        let es := (if e' <? 0 then js "-" else js "+")
                  ++ map digit_char (digits (Z.abs e')) in
        match ds with
        | [] => []
        | [d1] => [d1] ++ js "e" ++ es
        | d1 :: rest => [d1] ++ js "." ++ rest ++ js "e" ++ es
        end) ++ rest)
  = Some (Dec (if neg then - M else M) e, rest).
Proof.
  intros HM Hnorm Hrest.
  destruct (digits_spec M ltac:(lia)) as (F & V & Hd & _).
  destruct (Hd HM) as (d1 & D & ED & Hd1). rewrite ED in *. clear Hd.
  pose proof (number_end_not_digit rest Hrest) as Hrest'.
  cbv zeta. unfold length16. rewrite length_map. cbn [length].
  set (k := Z.of_nat (S (length D))).
  assert (Hk : k = Z.of_nat (length D) + 1) by (unfold k; lia).
  destruct ((k <=? k + e) && (k + e <=? 21)) eqn:CA.
  { (* digits and zeros *)
    apply andb_true_iff in CA. destruct CA as [CA _]. apply Z.leb_le in CA.
    replace (k + e - k) with e by lia.
    rewrite map_digit_zeros, <- map_app. cbn [app].
    unfold parse_unsigned.
    rewrite parse_int_digits;
      [| constructor; [inversion F; assumption
                      | apply Forall_app; split;
                        [inversion F; assumption | apply Forall_digit_zeros]]
       | exact Hd1 | exact Hrest'].
    rewrite (parse_frac_none rest Hrest), (parse_exp_none rest Hrest).
    rewrite app_nil_r. change (length16 []) with 0.
    change (d1 :: D ++ repeat 0 (Z.to_nat e)) with ((d1 :: D) ++ repeat 0 (Z.to_nat e)).
    rewrite digits_value_app_pow, V, digits_value_zeros, repeat_length, Z.add_0_r.
    rewrite normalize_signed by exact Hnorm. do 3 f_equal. lia. }
  destruct ((0 <? k + e) && (k + e <=? 21)) eqn:CB.
  { (* a point inside the digits *)
    assert (He : e < 0) by lia. assert (Hn : 0 < k + e) by lia.
    rewrite firstn_map, skipn_map.
    remember (Z.to_nat (k + e) - 1)%nat as n' eqn:En'.
    replace (Z.to_nat (k + e)) with (S n') by lia.
    cbn [firstn skipn map].
    assert (Hlen : (n' < length D)%nat) by lia.
    assert (FD : Forall digit D) by (inversion F; assumption).
    rewrite <- (firstn_skipn n' D) in FD. apply Forall_app in FD.
    destruct FD as [F1 F2].
    destruct (skipn n' D) as [|d2 D2] eqn:E2.
    { apply (f_equal (@length Z)) in E2. rewrite length_skipn in E2.
      cbn [length] in E2. lia. }
    change (js ".") with [46]. rewrite <- !app_assoc. cbn [app].
    unfold parse_unsigned.
    change (digit_char d1 :: map digit_char (firstn n' D) ++ 46 :: ?x)
      with (map digit_char (d1 :: firstn n' D) ++ 46 :: x).
    rewrite parse_int_digits;
      [| constructor; [inversion F; assumption | exact F1] | exact Hd1 | reflexivity].
    rewrite (parse_frac_some d2 D2 rest F2 Hrest'), (parse_exp_none rest Hrest).
    rewrite <- E2. change ((d1 :: firstn n' D) ++ skipn n' D)
      with (d1 :: (firstn n' D ++ skipn n' D)).
    rewrite firstn_skipn, V. rewrite normalize_signed0 by exact Hnorm.
    do 3 f_equal. unfold length16. rewrite length_skipn. lia. }
  destruct ((-6 <? k + e) && (k + e <=? 0)) eqn:CC.
  { (* zeros after the point *)
    assert (Hn : k + e <= 0) by lia.
    change (js "0.") with [48; 46]. cbn [app].
    rewrite map_digit_zeros, <- map_app.
    unfold parse_unsigned. rewrite parse_int_zero.
    assert (Fz : Forall digit (repeat 0 (Z.to_nat (- (k + e))) ++ d1 :: D))
      by (apply Forall_app; split; [apply Forall_digit_zeros | exact F]).
    destruct (repeat 0 (Z.to_nat (- (k + e))) ++ d1 :: D) as [|z Z0] eqn:EZ.
    { apply (f_equal (@length Z)) in EZ. rewrite length_app in EZ.
      cbn [length] in EZ. lia. }
    rewrite (parse_frac_some z Z0 rest Fz Hrest'), (parse_exp_none rest Hrest).
    rewrite <- EZ. change ([0] ++ ?x) with (0 :: x).
    rewrite digits_value_cons, Z.mul_0_l, Z.add_0_l.
    rewrite digits_value_app_pow, digits_value_zeros, Z.mul_0_l, Z.add_0_l, V.
    rewrite normalize_signed0 by exact Hnorm.
    do 3 f_equal. unfold length16. rewrite length_app, repeat_length.
    cbn [length]. lia. }
  (* exponent notation *)
  set (e' := k + e - 1).
  pose proof (parse_exp_some e' rest Hrest') as Hexp.
  destruct D as [|d2 D2].
  - cbn [map]. rewrite <- !app_assoc.
    change (js "e" ++ ?x) with (101 :: x).
    change ([digit_char d1] ++ ?x) with (map digit_char [d1] ++ x).
    unfold parse_unsigned.
    rewrite parse_int_digits; [| exact F | exact Hd1 | reflexivity].
    rewrite parse_frac_exp, Hexp. rewrite app_nil_r, V.
    rewrite normalize_signed0 by exact Hnorm.
    do 3 f_equal. unfold e', k, length16. cbn [length]. lia.
  - cbn [map]. rewrite <- !app_assoc.
    change (js "e" ++ ?x) with (101 :: x). change (js "." ++ ?x) with (46 :: x).
    change ([digit_char d1] ++ ?x) with (map digit_char [d1] ++ x).
    unfold parse_unsigned.
    rewrite parse_int_digits;
      [| constructor; [inversion F; assumption | constructor] | exact Hd1 | reflexivity].
    change ((digit_char d2 :: map digit_char D2) ++ ?x)
      with (map digit_char (d2 :: D2) ++ x).
    rewrite parse_frac_some; [| inversion F; assumption | reflexivity].
    rewrite Hexp. change ([d1] ++ d2 :: D2) with (d1 :: d2 :: D2). rewrite V.
    rewrite normalize_signed0 by exact Hnorm.
    do 3 f_equal. unfold e', k, length16. cbn [length]. lia.
Qed.

Lemma dec_ok_cases d :
  dec_ok d = true ->
  d = Dec 0 0 \/ (mantissa d <> 0 /\ mantissa d mod 10 <> 0).
Proof.
  destruct d as [m e]. unfold dec_ok. cbn [mantissa exponent].
  destruct (Z.eqb_spec m 0) as [->|Hm].
  - intros H. apply Z.eqb_eq in H. subst e. left. reflexivity.
  - intros H. apply negb_true_iff, Z.eqb_neq in H. right. split; assumption.
Qed.

Lemma parse_number_toString d rest :
  dec_ok d = true -> number_end rest ->
  parse_number (Number_toString d ++ rest) = Some (d, rest).
Proof.
  intros Hok Hrest. destruct (dec_ok_cases d Hok) as [->|[Hm Hnorm]].
  - change (Number_toString (Dec 0 0)) with [48]. cbn [app].
    unfold parse_number. rewrite starts_with_other by lia.
    unfold parse_unsigned. rewrite parse_int_zero.
    rewrite (parse_frac_none rest Hrest), (parse_exp_none rest Hrest). reflexivity.
  - destruct d as [m e]. cbn [mantissa] in *. unfold Number_toString.
    cbv zeta. cbn [mantissa exponent]. rewrite (proj2 (Z.eqb_neq m 0) Hm).
    destruct (Z.ltb_spec m 0) as [Hneg|Hpos].
    + change (js "-") with [45]. rewrite <- app_assoc. cbn [app].
      unfold parse_number. rewrite starts_with_same.
      etransitivity;
        [apply (parse_unsigned_toString (Z.abs m) e true rest);
         [lia | euclid | exact Hrest]|].
      do 3 f_equal. lia.
    + cbn [app].
      unfold parse_number.
      match goal with
      | |- match starts_with 45 ?t with _ => _ end = _ =>
          assert (Hhead : starts_with 45 t = None)
      end.
      { destruct (digits_spec (Z.abs m) ltac:(lia)) as (F & _ & Hd & _).
        destruct Hd as (d1 & D & ED & Hd1); [lia|]. rewrite ED in F |- *.
        assert (Hdc : digit_char d1 <> 45) by (inversion F; unfold digit, digit_char in *; lia).
        cbn [map].
        match goal with
        | |- context [if ?b then _ else _] => destruct b
        end; [cbn [app]; apply starts_with_other, Hdc|].
        match goal with
        | |- context [if ?b then _ else _] => destruct b
        end.
        { destruct (Z.to_nat _) as [|n'].
          - cbn [firstn app]. change (js ".") with [46]. cbn [app].
            apply starts_with_other. lia.
          - cbn [firstn app]. apply starts_with_other, Hdc. }
        match goal with
        | |- context [if ?b then _ else _] => destruct b
        end.
        { change (js "0.") with [48; 46]. cbn [app]. apply starts_with_other. lia. }
        destruct (map digit_char D); cbn [app]; apply starts_with_other, Hdc. }
      rewrite Hhead.
      etransitivity;
        [apply (parse_unsigned_toString (Z.abs m) e false rest);
         [lia | euclid | exact Hrest]|].
      do 3 f_equal. lia.
Qed.

(** The first character of a number. *)
Lemma parse_number_head s r :
  parse_number s = Some r ->
  exists c t, s = c :: t /\ (c =? 45) || is_digit c = true.
Proof.
  destruct s as [|c t]; [discriminate|]. intros H. exists c, t. split; [reflexivity|].
  destruct (Z.eqb_spec c 45) as [E|E]; [reflexivity|]. cbn [orb].
  unfold parse_number in H. rewrite starts_with_other in H by exact E.
  unfold parse_unsigned, parse_int in H.
  destruct (Z.eqb_spec c 48) as [->|_]; [reflexivity|].
  destruct (is_digit c); [reflexivity|discriminate].
Qed.

Lemma Number_toString_head d :
  dec_ok d = true ->
  exists c t, Number_toString d = c :: t /\ (c =? 45) || is_digit c = true.
Proof.
  intros Hok. pose proof (parse_number_toString d [] Hok I) as H.
  rewrite app_nil_r in H. exact (parse_number_head _ _ H).
Qed.

(** ** JSON: values read back *)

Lemma value_ind' (P : value -> Prop) :
  P JNull ->
  (forall b, P (JBool b)) ->
  (forall d, P (JNum d)) ->
  (forall s, P (JStr s)) ->
  (forall l, Forall P l -> P (JArr l)) ->
  (forall o, Forall (fun kv => P (snd kv)) o -> P (JObj o)) ->
  forall v, P v.
Proof.
  intros Hnull Hbool Hnum Hstr Harr Hobj.
  refine (fix F (v : value) : P v :=
            match v with
            | JNull => Hnull
            | JBool b => Hbool b
            | JNum d => Hnum d
            | JStr s => Hstr s
            | JArr l =>
                Harr l ((fix G (l : list value) : Forall P l :=
                           match l with
                           | [] => Forall_nil _
                           | x :: l' => Forall_cons x (F x) (G l')
                           end) l)
            | JObj o =>
                Hobj o ((fix G (o : list (jsstring * value))
                         : Forall (fun kv => P (snd kv)) o :=
                           match o with
                           | [] => Forall_nil _
                           | kv :: o' => Forall_cons kv (F (snd kv)) (G o')
                           end) o)
            end).
Qed.

Lemma value_end_number rest : value_end rest -> number_end rest.
Proof.
  destruct rest as [|c rest]; [trivial|]. cbn.
  intros [-> |[-> | ->]]; repeat split; try reflexivity; lia.
Qed.

Lemma value_start_facts c :
  value_start c -> json_ws c = false /\ c <> 93 /\ c <> 125 /\ c <> 44.
Proof.
  unfold value_start, json_ws, is_digit. intros H.
  repeat split; lia.
Qed.

Lemma stringify_head v :
  well_formed v = true -> exists c t, JSON_stringify v = c :: t /\ value_start c.
Proof.
  unfold value_start.
  destruct v as [|[|]|d|s|l|o]; cbn [JSON_stringify well_formed value_ok]; intros H;
    try (eexists _, _; split; [reflexivity|]; tauto).
  destruct (Number_toString_head d H) as (c & t & -> & Hc).
  exists c, t. split; [reflexivity|].
  apply orb_true_iff in Hc. destruct Hc as [Hc|Hc]; [apply Z.eqb_eq in Hc|]; tauto.
Qed.

Lemma skip_ws_start c t : json_ws c = false -> skip_ws (c :: t) = c :: t.
Proof. intros H. cbn [skip_ws]. rewrite H. reflexivity. Qed.

Lemma join_cons sep x l :
  join sep (x :: l) = match l with [] => x | _ :: _ => x ++ sep ++ join sep l end.
Proof. destruct l; reflexivity. Qed.

Lemma units_range s : forallb is_unit s = true -> Forall (fun c => 0 <= c < 65536) s.
Proof.
  intros H. apply Forall_forall. intros c Hc.
  rewrite forallb_forall in H. specialize (H c Hc).
  unfold is_unit in H. lia.
Qed.

Lemma parse_elements_join l : forall v fuel rest,
  Forall reads_back (v :: l) ->
  forallb well_formed (v :: l) = true ->
  (list_sum (map (fun x => S (weight x)) (v :: l)) <= fuel)%nat ->
  parse_elements fuel (join (js ",") (map JSON_stringify (v :: l)) ++ 93 :: rest)
  = Parsed (v :: l) rest.
Proof.
  induction l as [|v' l IH]; intros v fuel rest Hrb Hwf Hfuel.
  - inversion Hrb as [|? ? Hv _]; subst.
    cbn [forallb] in Hwf. apply andb_true_iff in Hwf. destruct Hwf as [Hwv _].
    cbn [map list_sum fold_right] in Hfuel. destruct fuel as [|fuel]; [lia|].
    cbn [map join parse_elements].
    rewrite (Hv Hwv fuel (93 :: rest)); [| lia | cbn; tauto].
    reflexivity.
  - inversion Hrb as [|? ? Hv Hrb']; subst.
    cbn [forallb] in Hwf. apply andb_true_iff in Hwf. destruct Hwf as [Hwv Hwf'].
    cbn [map list_sum fold_right] in Hfuel. destruct fuel as [|fuel]; [lia|].
    cbn [map]. rewrite join_cons. change (js ",") with [44].
    rewrite <- !app_assoc. cbn [app parse_elements].
    rewrite (Hv Hwv fuel (44 :: _)); [| lia | cbn; tauto].
    cbn [skip_ws json_ws Z.eqb Pos.eqb orb starts_with].
    change (JSON_stringify v' :: map JSON_stringify l)
      with (map JSON_stringify (v' :: l)).
    change [44] with (js ",").
    rewrite (IH v' fuel rest Hrb' Hwf'); [reflexivity|].
    cbn [map list_sum fold_right]. lia.
Qed.

Lemma parse_members_join o : forall kv fuel rest,
  Forall (fun kv => reads_back (snd kv)) (kv :: o) ->
  forallb member_ok (kv :: o) = true ->
  (list_sum (map (fun kv => S (weight (snd kv))) (kv :: o)) <= fuel)%nat ->
  parse_members fuel (join (js ",") (map member_text (kv :: o)) ++ 125 :: rest)
  = Parsed (kv :: o) rest.
Proof.
  induction o as [|kv' o IH]; intros [k v] fuel rest Hrb Hwf Hfuel.
  - inversion Hrb as [|? ? Hv _]; subst. cbn [snd] in Hv.
    cbn [forallb] in Hwf. apply andb_true_iff in Hwf. destruct Hwf as [Hwv _].
    unfold member_ok in Hwv. cbn [fst snd] in Hwv.
    apply andb_true_iff in Hwv. destruct Hwv as [Hk Hwv].
    cbn [map list_sum fold_right snd] in Hfuel. destruct fuel as [|fuel]; [lia|].
    cbn [map join]. unfold member_text, QuoteJSONString. cbn [fst snd].
    change (js ":") with [58]. rewrite <- !app_assoc. cbn [app parse_members].
    cbn [skip_ws json_ws Z.eqb Pos.eqb orb starts_with].
    rewrite (parse_chars_quote_units k _ (units_range k Hk)).
    cbn [skip_ws json_ws Z.eqb Pos.eqb orb starts_with].
    rewrite (Hv Hwv fuel (125 :: rest)); [| lia | cbn; tauto].
    reflexivity.
  - inversion Hrb as [|? ? Hv Hrb']; subst. cbn [snd] in Hv.
    cbn [forallb] in Hwf. apply andb_true_iff in Hwf. destruct Hwf as [Hwv Hwf'].
    unfold member_ok in Hwv. cbn [fst snd] in Hwv.
    apply andb_true_iff in Hwv. destruct Hwv as [Hk Hwv].
    cbn [map list_sum fold_right snd] in Hfuel. destruct fuel as [|fuel]; [lia|].
    cbn [map]. rewrite join_cons. unfold member_text at 1, QuoteJSONString.
    cbn [fst snd]. change (js ",") with [44]. change (js ":") with [58].
    rewrite <- !app_assoc. cbn [app parse_members].
    cbn [skip_ws json_ws Z.eqb Pos.eqb orb starts_with].
    rewrite (parse_chars_quote_units k _ (units_range k Hk)).
    cbn [skip_ws json_ws Z.eqb Pos.eqb orb starts_with].
    rewrite (Hv Hwv fuel (44 :: _)); [| lia | cbn; tauto].
    cbn [skip_ws json_ws Z.eqb Pos.eqb orb starts_with].
    change (member_text kv' :: map member_text o) with (map member_text (kv' :: o)).
    change [44] with (js ",").
    rewrite (IH kv' fuel rest Hrb' Hwf'); [reflexivity|].
    cbn [map list_sum fold_right]. lia.
Qed.

Lemma obj_set_fresh acc k v :
  existsb (fun k' => str_eqb k' k) (map fst acc) = false ->
  obj_set acc k v = acc ++ [(k, v)].
Proof.
  induction acc as [|[k0 v0] acc IH]; cbn [map fst existsb obj_set app]; intros H.
  - reflexivity.
  - apply orb_false_iff in H. destruct H as [H0 H].
    rewrite H0, (IH H). reflexivity.
Qed.

Lemma str_eqb_sym s t : str_eqb s t = str_eqb t s.
Proof.
  destruct (str_eqb s t) eqn:E.
  - apply str_eqb_eq in E. subst. symmetry. apply str_eqb_refl.
  - destruct (str_eqb t s) eqn:E'; [|reflexivity].
    apply str_eqb_eq in E'. subst. rewrite str_eqb_refl in E. discriminate.
Qed.

Lemma obj_spread_distinct o : forall acc,
  distinct (map fst acc ++ map fst o) = true -> obj_spread acc o = acc ++ o.
Proof.
  unfold obj_spread.
  induction o as [|[k v] o IH]; intros acc H; cbn [fold_left fst snd map].
  - symmetry. apply app_nil_r.
  - assert (Hfresh : existsb (fun k' => str_eqb k' k) (map fst acc) = false).
    { clear IH. induction acc as [|[k0 v0] acc IHa]; [reflexivity|].
      cbn [map fst app distinct existsb] in *.
      apply andb_true_iff in H. destruct H as [H0 H].
      apply negb_true_iff in H0. rewrite existsb_app in H0.
      apply orb_false_iff in H0. destruct H0 as [_ H0].
      cbn [map fst existsb] in H0. apply orb_false_iff in H0. destruct H0 as [H0 _].
      rewrite H0, (IHa H). reflexivity. }
    rewrite (obj_set_fresh acc k v Hfresh).
    rewrite IH.
    + rewrite <- app_assoc. reflexivity.
    + rewrite map_app. cbn [map fst]. rewrite <- app_assoc. exact H.
Qed.

Lemma distinct_NoDup keys : distinct keys = true -> NoDup keys.
Proof.
  induction keys as [|k keys IH]; cbn [distinct]; intros H; constructor.
  - apply andb_true_iff in H. destruct H as [H _]. apply negb_true_iff in H.
    intros Hin. assert (existsb (str_eqb k) keys = true); [|congruence].
    apply existsb_exists. exists k. split; [exact Hin|apply str_eqb_refl].
  - apply IH. apply andb_true_iff in H. tauto.
Qed.

Lemma forallb_Forall {A} (f : A -> bool) l :
  forallb f l = true <-> Forall (fun x => f x = true) l.
Proof. rewrite forallb_forall, Forall_forall. reflexivity. Qed.

Lemma members_head kv o rest :
  exists t, join (js ",") (map member_text (kv :: o)) ++ rest = 34 :: t.
Proof.
  destruct kv as [k v]. destruct o as [|kv' o]; cbn [map join];
    unfold member_text, QuoteJSONString; cbn [fst snd];
    rewrite <- ?app_assoc; cbn [app]; eexists; reflexivity.
Qed.

Theorem parse_value_stringify v : reads_back v.
Proof.
  induction v as [|b|d|s|l IH|o IH] using value_ind'; intros Hwf fuel rest Hfuel Hrest;
    cbn [weight] in Hfuel; (destruct fuel as [|fuel]; [lia|]).
  - reflexivity.
  - destruct b; reflexivity.
  - cbn [well_formed value_ok] in Hwf.
    destruct (Number_toString_head d Hwf) as (c & t & E & Hc).
    cbn [JSON_stringify parse_value]. rewrite E. cbn [app].
    assert (Hs : value_start c).
    { unfold value_start. apply orb_true_iff in Hc.
      destruct Hc as [Hc|Hc]; [apply Z.eqb_eq in Hc|]; tauto. }
    rewrite skip_ws_start by (apply value_start_facts, Hs).
    assert (Hno : (c =? 110) = false /\ (c =? 116) = false /\ (c =? 102) = false
                  /\ (c =? 34) = false /\ (c =? 91) = false /\ (c =? 123) = false).
    { unfold is_digit in Hc. repeat split; apply Z.eqb_neq; lia. }
    destruct Hno as (-> & -> & -> & -> & -> & ->). rewrite Hc.
    change (c :: t ++ rest) with ((c :: t) ++ rest). rewrite <- E.
    rewrite (parse_number_toString d rest Hwf (value_end_number rest Hrest)).
    reflexivity.
  - cbn [well_formed value_ok] in Hwf.
    cbn [JSON_stringify parse_value]. unfold QuoteJSONString.
    rewrite <- !app_assoc. cbn [app skip_ws json_ws Z.eqb Pos.eqb orb].
    rewrite (parse_chars_quote_units s rest (units_range s Hwf)). reflexivity.
  - cbn [well_formed value_ok] in Hwf. fold well_formed in Hwf.
    cbn [JSON_stringify]. change (js "[") with [91]. change (js "]") with [93].
    rewrite <- !app_assoc. cbn [app parse_value skip_ws json_ws Z.eqb Pos.eqb orb].
    destruct l as [|v l]; [reflexivity|].
    assert (Hhead : exists c t, join (js ",") (map JSON_stringify (v :: l)) ++ 93 :: rest
                                = c :: t /\ value_start c).
    { cbn [forallb] in Hwf. apply andb_true_iff in Hwf. destruct Hwf as [Hwv _].
      destruct (stringify_head v Hwv) as (c & t & E & Hc).
      cbn [map]. rewrite join_cons, E. destruct (map JSON_stringify l);
        eexists c, _; (split; [reflexivity|exact Hc]). }
    destruct Hhead as (c & t & E & Hc).
    destruct (value_start_facts c Hc) as (Hws & H93 & _ & _).
    rewrite (parse_elements_join l v fuel rest IH Hwf) by lia.
    rewrite E, skip_ws_start by exact Hws.
    rewrite starts_with_other by exact H93. reflexivity.
  - cbn [well_formed value_ok] in Hwf. fold well_formed in Hwf.
    apply andb_true_iff in Hwf. destruct Hwf as [Hd Hwf].
    cbn [JSON_stringify]. change (js "{") with [123]. change (js "}") with [125].
    rewrite <- !app_assoc. cbn [app parse_value skip_ws json_ws Z.eqb Pos.eqb orb].
    destruct o as [|kv o]; [reflexivity|].
    change (fun kv0 : jsstring * value =>
              QuoteJSONString (fst kv0) ++ js ":" ++ JSON_stringify (snd kv0))
      with member_text.
    match goal with
    | |- context [parse_members fuel ?t] =>
        replace (parse_members fuel t) with (Parsed (kv :: o) rest)
          by (symmetry; apply (parse_members_join o kv fuel rest IH Hwf); lia)
    end.
    destruct (members_head kv o (125 :: rest)) as (t & E).
    match goal with
    | |- context [skip_ws ?x] => replace x with (34 :: t) by (symmetry; exact E)
    end.
    cbn [skip_ws json_ws Z.eqb Pos.eqb orb starts_with].
    rewrite (obj_spread_distinct (kv :: o) []) by exact Hd. reflexivity.
Qed.

(** The fuel [JSON_parse] sets is enough for any text that
    [JSON_stringify] writes. *)
Lemma join_length_bound {A} (f : A -> jsstring) (w : A -> nat) l :
  Forall (fun x => (w x <= length (f x))%nat) l ->
  (list_sum (map (fun x => S (w x)) l) <= S (length (join (js ",") (map f l))))%nat.
Proof.
  induction 1 as [|x l Hx _ IH]; [cbn; lia|].
  cbn [map list_sum fold_right]. rewrite join_cons.
  destruct (map f l) as [|y ys] eqn:E.
  - destruct l; [|discriminate]. cbn. lia.
  - rewrite !length_app. change (list_sum ?x) with (fold_right Nat.add 0%nat x) in IH.
    cbn [length js map String.list_ascii_of_string] in *. lia.
Qed.

Lemma weight_bound v :
  well_formed v = true -> (weight v <= length (JSON_stringify v))%nat.
Proof.
  induction v as [|b|d|s|l IH|o IH] using value_ind'; intros Hwf.
  - cbn. lia.
  - destruct b; cbn; lia.
  - cbn [well_formed value_ok] in Hwf.
    destruct (Number_toString_head d Hwf) as (c & t & E & _).
    cbn [weight JSON_stringify]. rewrite E. cbn [length]. lia.
  - cbn [weight JSON_stringify]. unfold QuoteJSONString.
    rewrite !length_app. cbn [length]. lia.
  - cbn [well_formed value_ok] in Hwf. fold well_formed in Hwf.
    cbn [weight JSON_stringify]. rewrite !length_app.
    assert (H : Forall (fun x => (weight x <= length (JSON_stringify x))%nat) l).
    { rewrite forallb_forall in Hwf. rewrite Forall_forall in *. auto. }
    pose proof (join_length_bound JSON_stringify weight l H).
    cbn [length js map String.list_ascii_of_string] in *. lia.
  - cbn [well_formed value_ok] in Hwf. fold well_formed in Hwf.
    apply andb_true_iff in Hwf. destruct Hwf as [_ Hwf].
    cbn [weight JSON_stringify]. rewrite !length_app.
    assert (H : Forall (fun kv => (weight (snd kv) <= length (member_text kv))%nat) o).
    { rewrite forallb_forall in Hwf. rewrite Forall_forall in *. intros kv Hkv.
      specialize (Hwf kv Hkv). apply andb_true_iff in Hwf. destruct Hwf as [_ Hwf].
      specialize (IH kv Hkv Hwf). unfold member_text. rewrite !length_app. lia. }
    pose proof (join_length_bound member_text (fun kv => weight (snd kv)) o H) as B.
    apply (Nat.le_trans _ (S (S (length (join (js ",") (map member_text o))))));
      [apply le_n_S; exact B|].
    apply Nat.eq_le_incl. change (length (js "{")) with 1%nat.
    change (length (js "}")) with 1%nat. rewrite Nat.add_1_r. reflexivity.
Qed.

(** [JSON.parse] inverts [JSON.stringify] on the values JSON can carry. *)
Theorem JSON_roundtrip v :
  well_formed v = true -> JSON_parse (JSON_stringify v) = Ok v.
Proof.
  intros Hwf. unfold JSON_parse.
  pose proof (parse_value_stringify v Hwf
                (2 * length (JSON_stringify v) + 1)%nat []) as H.
  rewrite app_nil_r in H. rewrite H; [reflexivity | | exact I].
  pose proof (weight_bound v Hwf). lia.
Qed.

(** ** UTF-8 *)

Lemma length_ind {A} (P : list A -> Prop) :
  (forall l, (forall l', (length l' < length l)%nat -> P l') -> P l) ->
  forall l, P l.
Proof.
  intros H l. remember (length l) as n eqn:E. revert l E.
  induction n as [n IH] using lt_wf_ind. intros l ->.
  apply H. intros l' Hlt. apply (IH (length l') Hlt l' eq_refl).
Qed.

Lemma utf8_roundtrip s :
  utf16_ok s = true ->
  exists b,
    Forge.encodeUtf8 s = Ok b /\ forallb is_byte b = true /\ Forge.decodeUtf8 b = Ok s.
Proof.
  induction s as [s IH] using length_ind. destruct s as [|c s']; intros Hok.
  - exists []. repeat split.
  - cbn [utf16_ok] in Hok. cbn [Forge.encodeUtf8].
    unfold is_high_surrogate, is_low_surrogate, is_unit in *.
    destruct ((55296 <=? c) && (c <=? 56319)) eqn:Hh.
    + destruct s' as [|d s'']; [discriminate|].
      destruct ((56320 <=? d) && (d <=? 57343)) eqn:Hl; [|discriminate].
      cbn [andb] in Hok.
      destruct (IH s'' ltac:(cbn [length]; lia) Hok) as (b & Eb & Bb & Db).
      rewrite Eb. cbn [bind]. eexists. split; [reflexivity|].
      set (cp := 65536 + (c - 55296) * 1024 + (d - 56320)).
      assert (Hcp : 65536 <= cp <= 1114111) by (unfold cp; lia).
      split.
      * cbn [forallb]. rewrite Bb. unfold is_byte.
        repeat (apply andb_true_iff; split); try reflexivity;
          first [apply Z.leb_le | apply Z.ltb_lt]; euclid.
      * cbn [Forge.decodeUtf8].
        assert (T1 : (0 <=? 240 + cp / 262144) && (240 + cp / 262144 <? 128) = false)
          by (apply andb_false_iff; right; apply Z.ltb_ge; euclid).
        assert (T2 : (192 <=? 240 + cp / 262144) && (240 + cp / 262144 <? 224) = false)
          by (apply andb_false_iff; right; apply Z.ltb_ge; euclid).
        assert (T3 : (224 <=? 240 + cp / 262144) && (240 + cp / 262144 <? 240) = false)
          by (apply andb_false_iff; right; apply Z.ltb_ge; euclid).
        assert (T4 : (240 <=? 240 + cp / 262144) && (240 + cp / 262144 <? 248) = true)
          by (apply andb_true_iff; split; [apply Z.leb_le | apply Z.ltb_lt]; euclid).
        rewrite T1, T2, T3, T4.
        assert (Ecp : 240 + cp / 262144 - 240 = cp / 262144) by lia.
        assert (E4 : (240 + cp / 262144 - 240) * 262144
                     + (128 + cp / 4096 mod 64 - 128) * 4096
                     + (128 + cp / 64 mod 64 - 128) * 64
                     + (128 + cp mod 64 - 128) = cp) by euclid.
        rewrite E4. unfold Forge.continuation.
        assert (C2 : (128 <=? 128 + cp / 4096 mod 64) && (128 + cp / 4096 mod 64 <? 192) = true)
          by (apply andb_true_iff; split; [apply Z.leb_le | apply Z.ltb_lt]; euclid).
        assert (C3 : (128 <=? 128 + cp / 64 mod 64) && (128 + cp / 64 mod 64 <? 192) = true)
          by (apply andb_true_iff; split; [apply Z.leb_le | apply Z.ltb_lt]; euclid).
        assert (C4 : (128 <=? 128 + cp mod 64) && (128 + cp mod 64 <? 192) = true)
          by (apply andb_true_iff; split; [apply Z.leb_le | apply Z.ltb_lt]; euclid).
        rewrite C2, C3, C4.
        assert (R : (65536 <=? cp) && (cp <=? 1114111) = true) by lia.
        cbn [andb]. destruct (65536 <=? cp); [|discriminate].
        destruct (cp <=? 1114111); [|discriminate]. cbn [andb].
        rewrite Db. cbn [bind]. do 2 f_equal; [|f_equal]; unfold cp; euclid.
    + apply andb_true_iff in Hok. destruct Hok as [Hok Hs'].
      apply andb_true_iff in Hok. destruct Hok as [Hlow Hunit].
      apply negb_true_iff in Hlow.
      destruct (IH s' ltac:(cbn [length]; lia) Hs') as (b & Eb & Bb & Db).
      rewrite Hlow, Eb. cbn [bind].
      destruct (Z.ltb_spec c 128) as [H1|H1]; [|destruct (Z.ltb_spec c 2048) as [H2|H2]].
      * eexists. split; [reflexivity|]. split.
        -- cbn [forallb]. rewrite Bb. unfold is_byte.
           apply andb_true_iff; split; [|reflexivity].
           apply andb_true_iff; split; [apply Z.leb_le | apply Z.ltb_lt]; lia.
        -- cbn [Forge.decodeUtf8].
           assert (T1 : (0 <=? c) && (c <? 128) = true) by lia.
           rewrite T1, Db. reflexivity.
      * eexists. split; [reflexivity|]. split.
        -- cbn [forallb]. rewrite Bb. unfold is_byte.
           repeat (apply andb_true_iff; split); try reflexivity;
             first [apply Z.leb_le | apply Z.ltb_lt]; euclid.
        -- cbn [Forge.decodeUtf8].
           assert (T1 : (0 <=? 192 + c / 64) && (192 + c / 64 <? 128) = false)
             by (apply andb_false_iff; right; apply Z.ltb_ge; euclid).
           assert (T2 : (192 <=? 192 + c / 64) && (192 + c / 64 <? 224) = true)
             by (apply andb_true_iff; split; [apply Z.leb_le | apply Z.ltb_lt]; euclid).
           rewrite T1, T2.
           assert (E2 : (192 + c / 64 - 192) * 64 + (128 + c mod 64 - 128) = c) by euclid.
           rewrite E2. unfold Forge.continuation.
           assert (C2 : (128 <=? 128 + c mod 64) && (128 + c mod 64 <? 192) = true)
             by (apply andb_true_iff; split; [apply Z.leb_le | apply Z.ltb_lt]; euclid).
           rewrite C2. assert (R : (128 <=? c) = true) by lia. rewrite R.
           cbn [andb]. rewrite Db. reflexivity.
      * assert (Hc : 2048 <= c < 65536) by lia.
        eexists. split; [reflexivity|]. split.
        -- cbn [forallb]. rewrite Bb. unfold is_byte.
           repeat (apply andb_true_iff; split); try reflexivity;
             first [apply Z.leb_le | apply Z.ltb_lt]; euclid.
        -- cbn [Forge.decodeUtf8].
           assert (T1 : (0 <=? 224 + c / 4096) && (224 + c / 4096 <? 128) = false)
             by (apply andb_false_iff; right; apply Z.ltb_ge; euclid).
           assert (T2 : (192 <=? 224 + c / 4096) && (224 + c / 4096 <? 224) = false)
             by (apply andb_false_iff; right; apply Z.ltb_ge; euclid).
           assert (T3 : (224 <=? 224 + c / 4096) && (224 + c / 4096 <? 240) = true)
             by (apply andb_true_iff; split; [apply Z.leb_le | apply Z.ltb_lt]; euclid).
           rewrite T1, T2, T3.
           assert (E3 : (224 + c / 4096 - 224) * 4096 + (128 + c / 64 mod 64 - 128) * 64
                        + (128 + c mod 64 - 128) = c) by euclid.
           rewrite E3. unfold Forge.continuation.
           assert (C2 : (128 <=? 128 + c / 64 mod 64) && (128 + c / 64 mod 64 <? 192) = true)
             by (apply andb_true_iff; split; [apply Z.leb_le | apply Z.ltb_lt]; euclid).
           assert (C3 : (128 <=? 128 + c mod 64) && (128 + c mod 64 <? 192) = true)
             by (apply andb_true_iff; split; [apply Z.leb_le | apply Z.ltb_lt]; euclid).
           rewrite C2, C3.
           assert (R : (2048 <=? c) && negb ((55296 <=? c) && (c <=? 57343)) = true) by lia.
           cbn [andb]. rewrite R, Db. reflexivity.
Qed.

(** ** The characters of a JSON text *)

Lemma forallb_firstn {A} (f : A -> bool) n l :
  forallb f l = true -> forallb f (firstn n l) = true.
Proof.
  revert l. induction n as [|n IH]; intros [|x l] H; try reflexivity.
  cbn [firstn forallb] in *. apply andb_true_iff in H. destruct H as [-> H].
  cbn [andb]. apply IH, H.
Qed.

Lemma forallb_skipn {A} (f : A -> bool) n l :
  forallb f l = true -> forallb f (skipn n l) = true.
Proof.
  revert l. induction n as [|n IH]; intros [|x l] H; try reflexivity; try exact H.
  cbn [skipn forallb] in *. apply andb_true_iff in H. apply IH, H.
Qed.

Lemma forallb_repeat {A} (f : A -> bool) x n :
  f x = true -> forallb f (repeat x n) = true.
Proof. intros H. induction n as [|n IH]; cbn [repeat forallb]; [|rewrite H, IH]; reflexivity. Qed.

Lemma digit_chars_ascii ds :
  Forall digit ds -> forallb is_ascii (map digit_char ds) = true.
Proof.
  induction 1 as [|d ds Hd _ IH]; [reflexivity|].
  cbn [map forallb]. rewrite IH. unfold is_ascii, digit_char, digit in *.
  apply andb_true_iff; split; [|reflexivity]. lia.
Qed.

Lemma digits_ascii n : forallb is_ascii (map digit_char (digits (Z.abs n))) = true.
Proof. apply digit_chars_ascii, digits_spec, Z.abs_nonneg. Qed.

Lemma Number_toString_ascii d : forallb is_ascii (Number_toString d) = true.
Proof.
  unfold Number_toString. cbv zeta.
  pose proof (digits_ascii (mantissa d)) as Hds.
  set (ds := map digit_char (digits (Z.abs (mantissa d)))) in *.
  destruct (mantissa d =? 0); [reflexivity|].
  rewrite forallb_app. apply andb_true_iff. split.
  { destruct (mantissa d <? 0); reflexivity. }
  destruct (_ && _).
  { rewrite forallb_app, Hds. apply forallb_repeat. reflexivity. }
  destruct (_ && _).
  { rewrite !forallb_app, forallb_firstn, forallb_skipn by exact Hds. reflexivity. }
  destruct (_ && _).
  { rewrite !forallb_app, Hds, forallb_repeat by reflexivity. reflexivity. }
  set (e := length16 ds + exponent d - 1).
  assert (Hes : forallb is_ascii
                  ((if e <? 0 then js "-" else js "+") ++ map digit_char (digits (Z.abs e)))
                = true).
  { rewrite forallb_app, digits_ascii. destruct (e <? 0); reflexivity. }
  set (es := (if e <? 0 then js "-" else js "+") ++ map digit_char (digits (Z.abs e)))
    in *.
  destruct ds as [|d1 [|d2 rest]]; [reflexivity| |].
  - rewrite !forallb_app, Hes, Hds. reflexivity.
  - cbn [forallb] in Hds. apply andb_true_iff in Hds. destruct Hds as [H1 H2].
    rewrite !forallb_app, Hes. cbn [forallb]. rewrite H1, H2. reflexivity.
Qed.

Lemma forallb_impl {A} (f g : A -> bool) l :
  (forall x, f x = true -> g x = true) -> forallb f l = true -> forallb g l = true.
Proof.
  intros Hfg. induction l as [|x l IH]; [reflexivity|].
  cbn [forallb]. intros H. apply andb_true_iff in H. destruct H as [Hx Hl].
  rewrite (Hfg x Hx), (IH Hl). reflexivity.
Qed.

Lemma ascii_byte c : is_ascii c = true -> is_byte c = true.
Proof. unfold is_ascii, is_byte. lia. Qed.

Lemma byte_unit c : is_byte c = true -> is_unit c = true.
Proof. unfold is_unit, is_byte. lia. Qed.

Lemma utf16_ok_app a : forall b,
  utf16_ok a = true -> utf16_ok b = true -> utf16_ok (a ++ b) = true.
Proof.
  induction a as [a IH] using length_ind. intros b Ha Hb.
  destruct a as [|c a']; [exact Hb|].
  cbn [utf16_ok app] in *. destruct (is_high_surrogate c).
  - destruct a' as [|d a'']; [discriminate|].
    cbn [app]. apply andb_true_iff in Ha. destruct Ha as [-> Ha]. cbn [andb].
    apply IH; [cbn [length]; lia|exact Ha|exact Hb].
  - apply andb_true_iff in Ha. destruct Ha as [-> Ha]. cbn [andb].
    apply IH; [cbn [length]; lia|exact Ha|exact Hb].
Qed.

Lemma ascii_utf16 s : forallb is_ascii s = true -> utf16_ok s = true.
Proof.
  induction s as [|c s IH]; [reflexivity|].
  cbn [forallb utf16_ok]. intros H. apply andb_true_iff in H. destruct H as [Hc Hs].
  rewrite (IH Hs). unfold is_ascii, is_high_surrogate, is_low_surrogate, is_unit in *.
  replace ((55296 <=? c) && (c <=? 56319)) with false by lia.
  replace ((56320 <=? c) && (c <=? 57343)) with false by lia.
  replace ((0 <=? c) && (c <? 65536)) with true by lia. reflexivity.
Qed.

Lemma hex_digit_ascii v : 0 <= v < 16 -> is_ascii (hex_digit v) = true.
Proof. unfold is_ascii, hex_digit. intros H. destruct (v <? 10) eqn:E; lia. Qed.

Lemma unicode_escape_ascii c : forallb is_ascii (unicode_escape c) = true.
Proof.
  unfold unicode_escape. rewrite forallb_app. cbn [forallb].
  rewrite !hex_digit_ascii by (apply Z.mod_pos_bound; lia). reflexivity.
Qed.

(** A character is written as ASCII, or as itself when it is no
    surrogate. *)
Lemma quote_unit_cases c :
  forallb is_ascii (quote_unit c) = true \/
  (quote_unit c = [c] /\ is_high_surrogate c = false /\ is_low_surrogate c = false).
Proof.
  unfold quote_unit.
  repeat match goal with
         | |- context [if ?c =? ?n then _ else _] => destruct (c =? n); [left; reflexivity|]
         end.
  destruct ((c <? 32) || is_high_surrogate c || is_low_surrogate c) eqn:E.
  - left. apply unicode_escape_ascii.
  - right. apply orb_false_iff in E. destruct E as [E ->].
    apply orb_false_iff in E. destruct E as [_ ->]. repeat split.
Qed.

Lemma quote_unit_utf16 c : is_unit c = true -> utf16_ok (quote_unit c) = true.
Proof.
  intros Hc. destruct (quote_unit_cases c) as [H|(-> & Hh & Hl)].
  - apply ascii_utf16, H.
  - cbn [utf16_ok]. rewrite Hh, Hl, Hc. reflexivity.
Qed.

Lemma quote_unit_bytes c : is_byte c = true -> forallb is_byte (quote_unit c) = true.
Proof.
  intros Hc. destruct (quote_unit_cases c) as [H|(-> & _)].
  - revert H. apply forallb_impl, ascii_byte.
  - cbn [forallb]. rewrite Hc. reflexivity.
Qed.

Lemma quote_units_utf16 s :
  forallb is_unit s = true -> utf16_ok (quote_units s) = true.
Proof.
  induction s as [s IH] using length_ind. intros Hs.
  destruct s as [|c s']; [reflexivity|].
  cbn [forallb] in Hs. apply andb_true_iff in Hs. destruct Hs as [Hc Hs'].
  assert (Hrest : utf16_ok (quote_unit c ++ quote_units s') = true).
  { apply utf16_ok_app; [apply quote_unit_utf16, Hc|].
    apply IH; [cbn [length]; lia|exact Hs']. }
  cbn [quote_units]. destruct (is_high_surrogate c) eqn:Hh; [|exact Hrest].
  destruct s' as [|d s'']; [apply quote_unit_utf16, Hc|].
  destruct (is_low_surrogate d) eqn:Hl; [|exact Hrest].
  cbn [utf16_ok]. rewrite Hh, Hl. cbn [andb].
  cbn [forallb] in Hs'. apply andb_true_iff in Hs'. destruct Hs' as [_ Hs''].
  apply IH; [cbn [length]; lia|exact Hs''].
Qed.

Lemma quote_units_bytes s :
  forallb is_byte s = true -> forallb is_byte (quote_units s) = true.
Proof.
  induction s as [|c s IH]; [reflexivity|].
  cbn [forallb]. intros H. apply andb_true_iff in H. destruct H as [Hc Hs].
  cbn [quote_units].
  replace (is_high_surrogate c) with false
    by (unfold is_high_surrogate, is_byte in *; lia).
  rewrite forallb_app, quote_unit_bytes, IH by assumption. reflexivity.
Qed.

(** A property of texts that concatenation keeps, that holds of ASCII text
    and of quoted strings of the characters [unit_ok] admits, holds of the
    JSON text of every value built from such strings. *)
Section Texts.

Variable unit_ok : Z -> bool.
Variable P : jsstring -> Prop.
Hypothesis P_app : forall a b, P a -> P b -> P (a ++ b).
Hypothesis P_ascii : forall s, forallb is_ascii s = true -> P s.
Hypothesis P_quote : forall s, forallb unit_ok s = true -> P (quote_units s).

Lemma join_closed sep l : P sep -> Forall P l -> P (join sep l).
Proof.
  intros Hsep H. induction H as [|x l Hx Hl IH]; [apply P_ascii; reflexivity|].
  destruct l as [|y l']; [exact Hx|].
  change (join sep (x :: y :: l')) with (x ++ sep ++ join sep (y :: l')).
  apply P_app; [exact Hx|]. apply P_app; [exact Hsep|exact IH].
Qed.

Lemma quoted_closed s : forallb unit_ok s = true -> P (QuoteJSONString s).
Proof.
  intros H. unfold QuoteJSONString.
  apply P_app; [apply P_ascii; reflexivity|].
  apply P_app; [apply P_quote, H|apply P_ascii; reflexivity].
Qed.

Lemma stringify_closed v : value_ok unit_ok v = true -> P (JSON_stringify v).
Proof.
  induction v as [|b|d|s|l IH|o IH] using value_ind'; intros Hv.
  - apply P_ascii. reflexivity.
  - apply P_ascii. destruct b; reflexivity.
  - apply P_ascii, Number_toString_ascii.
  - apply quoted_closed, Hv.
  - cbn [JSON_stringify].
    apply P_app; [apply P_ascii; reflexivity|].
    apply P_app; [|apply P_ascii; reflexivity].
    apply join_closed; [apply P_ascii; reflexivity|].
    cbn [value_ok] in Hv. induction IH as [|x l Hx _ IHl]; [constructor|].
    cbn [forallb] in Hv. apply andb_true_iff in Hv. destruct Hv as [Hvx Hvl].
    cbn [map]. constructor; [apply Hx, Hvx|apply IHl, Hvl].
  - cbn [JSON_stringify].
    apply P_app; [apply P_ascii; reflexivity|].
    apply P_app; [|apply P_ascii; reflexivity].
    apply join_closed; [apply P_ascii; reflexivity|].
    cbn [value_ok] in Hv. apply andb_true_iff in Hv. destruct Hv as [_ Hv].
    induction IH as [|kv o Hkv _ IHo]; [constructor|].
    cbn [forallb] in Hv. apply andb_true_iff in Hv. destruct Hv as [Hvx Hvo].
    apply andb_true_iff in Hvx. destruct Hvx as [Hk Hx].
    cbn [map]. constructor; [|apply IHo, Hvo].
    apply P_app; [apply quoted_closed, Hk|].
    apply P_app; [apply P_ascii; reflexivity|apply Hkv, Hx].
Qed.

End Texts.

Lemma stringify_utf16 v : well_formed v = true -> utf16_ok (JSON_stringify v) = true.
Proof.
  apply (stringify_closed is_unit (fun s => utf16_ok s = true)).
  - intros a b. apply utf16_ok_app.
  - apply ascii_utf16.
  - apply quote_units_utf16.
Qed.

Lemma stringify_bytes v :
  value_ok is_byte v = true -> forallb is_byte (JSON_stringify v) = true.
Proof.
  apply (stringify_closed is_byte (fun s => forallb is_byte s = true)).
  - intros a b Ha Hb. rewrite forallb_app, Ha, Hb. reflexivity.
  - intros s. apply forallb_impl, ascii_byte.
  - apply quote_units_bytes.
Qed.

Lemma value_ok_impl (f g : Z -> bool) v :
  (forall c, f c = true -> g c = true) -> value_ok f v = true -> value_ok g v = true.
Proof.
  intros Hfg. induction v as [|b|d|s|l IH|o IH] using value_ind'; intros Hv;
    try exact Hv.
  - revert Hv. apply forallb_impl, Hfg.
  - cbn [value_ok] in *. induction IH as [|x l Hx _ IHl]; [reflexivity|].
    cbn [forallb] in *. apply andb_true_iff in Hv. destruct Hv as [Hvx Hvl].
    apply andb_true_iff. split; [exact (Hx Hvx)|exact (IHl Hvl)].
  - cbn [value_ok] in *. apply andb_true_iff in Hv. destruct Hv as [-> Hv].
    cbn [andb]. induction IH as [|kv o Hkv _ IHo]; [reflexivity|].
    cbn [forallb] in *. apply andb_true_iff in Hv. destruct Hv as [Hvx Hvo].
    apply andb_true_iff in Hvx. destruct Hvx as [Hk Hx].
    apply andb_true_iff. split; [|exact (IHo Hvo)].
    apply andb_true_iff. split; [exact (forallb_impl f g _ Hfg Hk)|exact (Hkv Hx)].
Qed.

Lemma bytes_well_formed v : value_ok is_byte v = true -> well_formed v = true.
Proof. apply value_ok_impl, byte_unit. Qed.

(** ** The parser's fuel is enough *)

Lemma skip_ws_length s : (length (skip_ws s) <= length s)%nat.
Proof.
  induction s as [|c s IH]; [reflexivity|].
  cbn [skip_ws]. destruct (json_ws c); cbn [length]; lia.
Qed.

Lemma skip_ws_cons s c s' : skip_ws s = c :: s' -> (S (length s') <= length s)%nat.
Proof. intros E. pose proof (skip_ws_length s) as H. rewrite E in H. exact H. Qed.

Lemma starts_with_length c s r : starts_with c s = Some r -> length s = S (length r).
Proof.
  destruct s as [|x s]; [discriminate|]. cbn [starts_with].
  destruct (x =? c); [|discriminate]. intros E. injection E as <-. reflexivity.
Qed.

Lemma parsed_cons_inv u x k r :
  parsed_cons u x = Some (k, r) -> exists k', x = Some (k', r).
Proof.
  destruct x as [[k' r']|]; [|discriminate].
  cbn [parsed_cons]. intros E. injection E as _ <-. exists k'. reflexivity.
Qed.

Lemma parse_chars_length s : forall k r,
  parse_chars s = Some (k, r) -> (length r <= length s)%nat.
Proof.
  induction s as [s IH] using length_ind. intros k r.
  destruct s as [|c s']; [discriminate|]. cbn [parse_chars].
  destruct (c =? 34).
  { intros E. injection E as _ <-. cbn [length]. lia. }
  destruct (c =? 92).
  - destruct s' as [|e s'']; [discriminate|].
    destruct (e =? 117).
    + destruct s'' as [|h1 [|h2 [|h3 [|h4 s4]]]]; try discriminate.
      destruct (hex4 h1 h2 h3 h4); [|discriminate].
      intros E. apply parsed_cons_inv in E. destruct E as (k' & E).
      apply IH in E; cbn [length] in *; lia.
    + destruct (simple_escape e); [|discriminate].
      intros E. apply parsed_cons_inv in E. destruct E as (k' & E).
      apply IH in E; cbn [length] in *; lia.
  - destruct ((0 <=? c) && (c <? 32)); [discriminate|].
    intros E. apply parsed_cons_inv in E. destruct E as (k' & E).
    apply IH in E; cbn [length] in *; lia.
Qed.

Lemma take_digits_length s : (length (snd (take_digits s)) <= length s)%nat.
Proof.
  induction s as [|c s IH]; [reflexivity|].
  cbn [take_digits]. destruct (is_digit c); [|reflexivity].
  destruct (take_digits s) as [ds rest]. cbn [snd length] in *. lia.
Qed.

Lemma take_digits_rest s ds r : take_digits s = (ds, r) -> (length r <= length s)%nat.
Proof. intros E. pose proof (take_digits_length s) as H. rewrite E in H. exact H. Qed.

Lemma parse_int_length s ds r :
  parse_int s = Some (ds, r) -> (length r <= length s)%nat.
Proof.
  destruct s as [|c s']; [discriminate|]. cbn [parse_int].
  destruct (c =? 48).
  { intros E. injection E as _ <-. cbn [length]. lia. }
  destruct (is_digit c); [|discriminate].
  pose proof (take_digits_length (c :: s')) as H.
  destruct (take_digits (c :: s')) as [ds' r'].
  intros E. injection E as _ <-. exact H.
Qed.

Lemma parse_frac_length s ds r :
  parse_frac s = Some (ds, r) -> (length r <= length s)%nat.
Proof.
  unfold parse_frac. destruct (starts_with 46 s) as [s'|] eqn:E.
  - apply starts_with_length in E.
    destruct (take_digits s') as [[|d ds'] rest] eqn:T; [discriminate|].
    intros H. injection H as _ <-. apply take_digits_rest in T. lia.
  - intros H. injection H as _ <-. lia.
Qed.

Lemma parse_exp_length s e r :
  parse_exp s = Some (e, r) -> (length r <= length s)%nat.
Proof.
  destruct s as [|c s']; cbn [parse_exp].
  { intros H. injection H as _ <-. lia. }
  destruct ((c =? 101) || (c =? 69)).
  2:{ intros H. injection H as _ <-. lia. }
  assert (Hs1 : forall neg s1,
             (length s1 <= length s')%nat ->
             match take_digits s1 with
             | ([], _) => None
             | (ds, rest) =>
                 Some (if neg : bool then - digits_value ds else digits_value ds, rest)
             end = Some (e, r) -> (length r <= length (c :: s'))%nat).
  { intros neg s1 Hlen. destruct (take_digits s1) as [[|d ds] rest] eqn:T; [discriminate|].
    intros H. injection H as _ <-. apply take_digits_rest in T. cbn [length]. lia. }
  destruct (starts_with 45 s') as [s1|] eqn:E1.
  { apply starts_with_length in E1. apply (Hs1 true s1). lia. }
  destruct (starts_with 43 s') as [s1|] eqn:E2.
  { apply starts_with_length in E2. apply (Hs1 false s1). lia. }
  apply (Hs1 false s'). lia.
Qed.

Lemma parse_unsigned_length neg s d r :
  parse_unsigned neg s = Some (d, r) -> (length r <= length s)%nat.
Proof.
  unfold parse_unsigned.
  destruct (parse_int s) as [[ints s1]|] eqn:E1; [|discriminate].
  destruct (parse_frac s1) as [[fracs s2]|] eqn:E2; [|discriminate].
  destruct (parse_exp s2) as [[e s3]|] eqn:E3; [|discriminate].
  intros H. injection H as _ <-.
  apply parse_int_length in E1. apply parse_frac_length in E2.
  apply parse_exp_length in E3. lia.
Qed.

Lemma parse_number_length s d r :
  parse_number s = Some (d, r) -> (length r <= length s)%nat.
Proof.
  unfold parse_number. destruct (starts_with 45 s) as [s0|] eqn:E.
  - apply starts_with_length in E. intros H. apply parse_unsigned_length in H. lia.
  - apply parse_unsigned_length.
Qed.

Lemma expect_length lit : forall s r,
  expect lit s = Some r -> (length r <= length s)%nat.
Proof.
  induction lit as [|l lit IH]; intros s r; cbn [expect].
  - intros H. injection H as <-. lia.
  - destruct s as [|c s']; [discriminate|].
    destruct (c =? l); [|discriminate]. intros H. apply IH in H. cbn [length]. lia.
Qed.

Lemma lift_literal_length (v : value) lit s v' r :
  lift (option_map (pair v) (expect lit s)) = Parsed v' r ->
  (length r <= length s)%nat.
Proof.
  destruct (expect lit s) as [r'|] eqn:E; [|discriminate].
  cbn [option_map lift]. intros H. injection H as _ <-.
  apply expect_length in E. exact E.
Qed.

(** What a parser leaves is no longer than what it was given. *)
Lemma parse_length fuel : forall s,
  (forall v r, parse_value fuel s = Parsed v r -> (length r <= length s)%nat) /\
  (forall l r, parse_elements fuel s = Parsed l r -> (length r <= length s)%nat) /\
  (forall l r, parse_members fuel s = Parsed l r -> (length r <= length s)%nat).
Proof.
  induction fuel as [|fuel IH]; intros s.
  { repeat split; discriminate. }
  assert (IHv : forall s v r, parse_value fuel s = Parsed v r -> (length r <= length s)%nat)
    by (intros s0; apply (IH s0)).
  assert (IHe : forall s l r,
             parse_elements fuel s = Parsed l r -> (length r <= length s)%nat)
    by (intros s0; apply (IH s0)).
  assert (IHm : forall s l r,
             parse_members fuel s = Parsed l r -> (length r <= length s)%nat)
    by (intros s0; apply (IH s0)).
  clear IH. split; [|split].
  - intros v r. cbn [parse_value].
    destruct (skip_ws s) as [|c s'] eqn:Es; [discriminate|].
    apply skip_ws_cons in Es.
    destruct (c =? 110).
    { intros H. apply lift_literal_length in H. lia. }
    destruct (c =? 116).
    { intros H. apply lift_literal_length in H. lia. }
    destruct (c =? 102).
    { intros H. apply lift_literal_length in H. lia. }
    destruct (c =? 34).
    { destruct (parse_chars s') as [[str rest]|] eqn:E; [|discriminate].
      intros H. injection H as _ <-. apply parse_chars_length in E. lia. }
    destruct (c =? 91).
    { destruct (starts_with 93 (skip_ws s')) as [rest|] eqn:E.
      - intros H. injection H as _ <-. apply starts_with_length in E.
        pose proof (skip_ws_length s'). lia.
      - destruct (parse_elements fuel s') as [l rest| |] eqn:E'; try discriminate.
        intros H. injection H as _ <-. apply IHe in E'. lia. }
    destruct (c =? 123).
    { destruct (starts_with 125 (skip_ws s')) as [rest|] eqn:E.
      - intros H. injection H as _ <-. apply starts_with_length in E.
        pose proof (skip_ws_length s'). lia.
      - destruct (parse_members fuel s') as [l rest| |] eqn:E'; try discriminate.
        intros H. injection H as _ <-. apply IHm in E'. lia. }
    destruct ((c =? 45) || is_digit c); [|discriminate].
    destruct (parse_number (c :: s')) as [[d rest]|] eqn:E; [|discriminate].
    intros H. injection H as _ <-. apply parse_number_length in E.
    cbn [length] in E. lia.
  - intros l r. cbn [parse_elements].
    destruct (parse_value fuel s) as [v s1| |] eqn:E1; try discriminate.
    apply IHv in E1. pose proof (skip_ws_length s1) as Hw.
    destruct (starts_with 44 (skip_ws s1)) as [s2|] eqn:E2.
    + apply starts_with_length in E2.
      destruct (parse_elements fuel s2) as [l' rest| |] eqn:E3; try discriminate.
      intros H. injection H as _ <-. apply IHe in E3. lia.
    + destruct (starts_with 93 (skip_ws s1)) as [rest|] eqn:E3; [|discriminate].
      apply starts_with_length in E3. intros H. injection H as _ <-. lia.
  - intros l r. cbn [parse_members].
    pose proof (skip_ws_length s) as Hw0.
    destruct (starts_with 34 (skip_ws s)) as [s0|] eqn:E0; [|discriminate].
    apply starts_with_length in E0.
    destruct (parse_chars s0) as [[k s1]|] eqn:Ek; [|discriminate].
    apply parse_chars_length in Ek. pose proof (skip_ws_length s1) as Hw1.
    destruct (starts_with 58 (skip_ws s1)) as [s2|] eqn:Ec; [|discriminate].
    apply starts_with_length in Ec.
    destruct (parse_value fuel s2) as [v s3| |] eqn:E1; try discriminate.
    apply IHv in E1. pose proof (skip_ws_length s3) as Hw.
    destruct (starts_with 44 (skip_ws s3)) as [s4|] eqn:E2.
    + apply starts_with_length in E2.
      destruct (parse_members fuel s4) as [l' rest| |] eqn:E3; try discriminate.
      intros H. injection H as _ <-. apply IHm in E3. lia.
    + destruct (starts_with 125 (skip_ws s3)) as [rest|] eqn:E3; [|discriminate].
      apply starts_with_length in E3. intros H. injection H as _ <-. lia.
Qed.

Lemma lift_fuel {A} (r : option (A * jsstring)) : lift r <> OutOfFuel.
Proof. destruct r as [[a rest]|]; discriminate. Qed.

(** Twice the length of the text, and one more, is fuel enough. *)
Lemma parse_fuel fuel : forall s,
  ((2 * length s + 1 <= fuel)%nat -> parse_value fuel s <> OutOfFuel) /\
  ((2 * length s + 2 <= fuel)%nat -> parse_elements fuel s <> OutOfFuel) /\
  ((2 * length s + 2 <= fuel)%nat -> parse_members fuel s <> OutOfFuel).
Proof.
  induction fuel as [|fuel IH]; intros s.
  { repeat split; intros H; exfalso; lia. }
  assert (IHv : forall s, (2 * length s + 1 <= fuel)%nat -> parse_value fuel s <> OutOfFuel)
    by (intros s0; apply (IH s0)).
  assert (IHe : forall s,
             (2 * length s + 2 <= fuel)%nat -> parse_elements fuel s <> OutOfFuel)
    by (intros s0; apply (IH s0)).
  assert (IHm : forall s,
             (2 * length s + 2 <= fuel)%nat -> parse_members fuel s <> OutOfFuel)
    by (intros s0; apply (IH s0)).
  clear IH. split; [|split]; intros Hf.
  - cbn [parse_value].
    destruct (skip_ws s) as [|c s'] eqn:Es; [discriminate|].
    apply skip_ws_cons in Es.
    destruct (c =? 110); [apply lift_fuel|].
    destruct (c =? 116); [apply lift_fuel|].
    destruct (c =? 102); [apply lift_fuel|].
    destruct (c =? 34).
    { destruct (parse_chars s') as [[str rest]|]; discriminate. }
    destruct (c =? 91).
    { destruct (starts_with 93 (skip_ws s')); [discriminate|].
      assert (N : parse_elements fuel s' <> OutOfFuel) by (apply IHe; lia).
      destruct (parse_elements fuel s'); [discriminate|discriminate|contradiction]. }
    destruct (c =? 123).
    { destruct (starts_with 125 (skip_ws s')); [discriminate|].
      assert (N : parse_members fuel s' <> OutOfFuel) by (apply IHm; lia).
      destruct (parse_members fuel s'); [discriminate|discriminate|contradiction]. }
    destruct ((c =? 45) || is_digit c); [|discriminate].
    destruct (parse_number (c :: s')) as [[d rest]|]; discriminate.
  - cbn [parse_elements].
    assert (N : parse_value fuel s <> OutOfFuel) by (apply IHv; lia).
    destruct (parse_value fuel s) as [v s1| |] eqn:E1;
      [|discriminate|contradiction].
    apply (proj1 (parse_length fuel s)) in E1. pose proof (skip_ws_length s1) as Hw.
    destruct (starts_with 44 (skip_ws s1)) as [s2|] eqn:E2.
    + apply starts_with_length in E2.
      assert (N2 : parse_elements fuel s2 <> OutOfFuel) by (apply IHe; lia).
      destruct (parse_elements fuel s2); [discriminate|discriminate|contradiction].
    + destruct (starts_with 93 (skip_ws s1)); discriminate.
  - cbn [parse_members].
    pose proof (skip_ws_length s) as Hw0.
    destruct (starts_with 34 (skip_ws s)) as [s0|] eqn:E0; [|discriminate].
    apply starts_with_length in E0.
    destruct (parse_chars s0) as [[k s1]|] eqn:Ek; [|discriminate].
    apply parse_chars_length in Ek. pose proof (skip_ws_length s1) as Hw1.
    destruct (starts_with 58 (skip_ws s1)) as [s2|] eqn:Ec; [|discriminate].
    apply starts_with_length in Ec.
    assert (N : parse_value fuel s2 <> OutOfFuel) by (apply IHv; lia).
    destruct (parse_value fuel s2) as [v s3| |] eqn:E1;
      [|discriminate|contradiction].
    apply (proj1 (parse_length fuel s2)) in E1. pose proof (skip_ws_length s3) as Hw.
    destruct (starts_with 44 (skip_ws s3)) as [s4|] eqn:E2.
    + apply starts_with_length in E2.
      assert (N2 : parse_members fuel s4 <> OutOfFuel) by (apply IHm; lia).
      destruct (parse_members fuel s4); [discriminate|discriminate|contradiction].
    + destruct (starts_with 125 (skip_ws s3)); discriminate.
Qed.

(** [JSON_parse] never runs out of fuel: a SyntaxError is a malformed
    text. *)
Theorem JSON_parse_fuel text :
  parse_value (2 * length text + 1) text <> OutOfFuel.
Proof. apply (proj1 (parse_fuel (2 * length text + 1) text)). lia. Qed.

(** ** Well-formed payloads are serializable *)

Lemma well_formed_serializable v : well_formed v = true -> serializable v.
Proof.
  intros Hv.
  destruct (utf8_roundtrip (JSON_stringify v) (stringify_utf16 v Hv)) as (b & E & B & D).
  exists b. repeat split; try assumption. apply JSON_roundtrip, Hv.
Qed.

(** ** The envelope: format, round trip and errors *)

Section EnvelopeFacts.
Context {crypto : Forge.Crypto}.

(** The key pair matches: what [pk] wraps, [sk] unwraps, for messages as
    long as the ones the envelope wraps (the 44 characters of a base64
    text of 32 bytes), with a ciphertext that is a non-empty binary string. *)
Definition matching (pk : Forge.publicKey) (sk : Forge.privateKey) : Prop :=
  forall message seed,
    forallb is_byte message = true -> (length message <= 44)%nat ->
    forallb is_byte seed = true -> length seed = Forge.oaep_seed_length ->
    exists wrapped,
      Forge.rsa_encrypt pk message seed = Ok wrapped /\
      wrapped <> [] /\ forallb is_byte wrapped = true /\
      Forge.rsa_decrypt sk wrapped = Ok message.

(** The symmetric cipher decrypts what it encrypts, and its output is a
    non-empty binary string. *)
Definition aes_correct : Prop :=
  forall key iv data,
    forallb is_byte key = true -> length key = 32%nat ->
    forallb is_byte iv = true -> length iv = 16%nat ->
    forallb is_byte data = true ->
    Forge.aes_cbc_encrypt key iv data <> [] /\
    forallb is_byte (Forge.aes_cbc_encrypt key iv data) = true /\
    Forge.aes_cbc_decrypt key iv (Forge.aes_cbc_encrypt key iv data) = Ok (Some data).

Lemma encrypt_ok payload pem g pk data wrappedKey wrappedIv :
  pem <> [] ->
  Forge.publicKeyFromPem (trim pem) = Ok pk ->
  Forge.encodeUtf8 (JSON_stringify payload) = Ok data ->
  Forge.rsa_encrypt pk (Base64.encode (Envelope.key_of g)) (Envelope.seed1_of g)
  = Ok wrappedKey ->
  Forge.rsa_encrypt pk (Base64.encode (Envelope.iv_of g)) (Envelope.seed2_of g)
  = Ok wrappedIv ->
  fst (Envelope.encryptDataWithRSA_AES payload pem g)
  = Ok (Envelope.transport_format wrappedKey wrappedIv
          (Forge.aes_cbc_encrypt (Envelope.key_of g) (Envelope.iv_of g) data)).
Proof.
  intros Hpem Hpk Hdata Hk Hi.
  unfold Envelope.encryptDataWithRSA_AES, bind_rand, draw, lift_result, ret, throw.
  unfold Envelope.key_of, Envelope.iv_of, Envelope.seed1_of, Envelope.seed2_of,
    Forge.encode64 in *.
  cbn [Forge.getBytesSync fst snd] in *. rewrite Hdata.
  destruct pem as [|c pem]; [congruence|].
  rewrite Hpk, Hk, Hi. reflexivity.
Qed.

Lemma encrypt_inv payload pem g t :
  fst (Envelope.encryptDataWithRSA_AES payload pem g) = Ok t ->
  exists pk data wrappedKey wrappedIv,
    pem <> [] /\
    Forge.publicKeyFromPem (trim pem) = Ok pk /\
    Forge.encodeUtf8 (JSON_stringify payload) = Ok data /\
    Forge.rsa_encrypt pk (Base64.encode (Envelope.key_of g)) (Envelope.seed1_of g)
    = Ok wrappedKey /\
    Forge.rsa_encrypt pk (Base64.encode (Envelope.iv_of g)) (Envelope.seed2_of g)
    = Ok wrappedIv /\
    t = Envelope.transport_format wrappedKey wrappedIv
          (Forge.aes_cbc_encrypt (Envelope.key_of g) (Envelope.iv_of g) data).
Proof.
  unfold Envelope.encryptDataWithRSA_AES, bind_rand, draw, lift_result, ret, throw.
  unfold Envelope.key_of, Envelope.iv_of, Envelope.seed1_of, Envelope.seed2_of,
    Forge.encode64.
  cbn [Forge.getBytesSync fst snd].
  destruct (Forge.encodeUtf8 (JSON_stringify payload)) as [data|e] eqn:Hdata;
    [|discriminate].
  destruct pem as [|c pem]; [discriminate|].
  destruct (Forge.publicKeyFromPem (trim (c :: pem))) as [pk|e] eqn:Hpk;
    [|discriminate].
  match goal with
  | |- context [Forge.rsa_encrypt pk ?m ?sd] =>
      destruct (Forge.rsa_encrypt pk m sd) as [wk|e] eqn:Hk; [|discriminate]
  end.
  match goal with
  | |- context [match Forge.rsa_encrypt pk ?m ?sd with _ => _ end] =>
      destruct (Forge.rsa_encrypt pk m sd) as [wi|e] eqn:Hi; [|discriminate]
  end.
  cbn [fst]. intros [= <-].
  exists pk, data, wk, wi. repeat split; try assumption. discriminate.
Qed.

(** C7. [encryptDataWithRSA_AES] returns a transport string exactly when
    the key is given and parses, the JSON text has a UTF-8 encoding and the
    two OAEP wraps succeed, and the string is then
    base64( base64(wrap(base64(key))) : base64(wrap(base64(iv))) :
    base64(cbc(utf8(JSON(payload)))) ): the key and the IV go through
    base64 before the OAEP wrap, which sees their text and not their bytes. *)
Theorem transport_string_format (payload : value) (pem : jsstring)
        (g : Forge.prng) (t : jsstring) :
  fst (Envelope.encryptDataWithRSA_AES payload pem g) = Ok t <->
  pem <> [] /\
  exists pk data wrappedKey wrappedIv,
    Forge.publicKeyFromPem (trim pem) = Ok pk /\
    Forge.encodeUtf8 (JSON_stringify payload) = Ok data /\
    Forge.rsa_encrypt pk (Base64.encode (Envelope.key_of g)) (Envelope.seed1_of g)
    = Ok wrappedKey /\
    Forge.rsa_encrypt pk (Base64.encode (Envelope.iv_of g)) (Envelope.seed2_of g)
    = Ok wrappedIv /\
    t = Base64.encode
          (Base64.encode wrappedKey ++ js ":" ++ Base64.encode wrappedIv ++ js ":"
           ++ Base64.encode
                (Forge.aes_cbc_encrypt (Envelope.key_of g) (Envelope.iv_of g) data)).
Proof.
  split.
  - intros H. apply encrypt_inv in H.
    destruct H as (pk & data & wk & wi & Hpem & Hpk & Hdata & Hk & Hi & ->).
    split; [exact Hpem|]. exists pk, data, wk, wi. repeat split; assumption.
  - intros (Hpem & pk & data & wk & wi & Hpk & Hdata & Hk & Hi & ->).
    apply (encrypt_ok payload pem g pk data wk wi); assumption.
Qed.

(** What the opening routine finds in a well-formed transport string. *)
Lemma decrypt_transport wk wi ct pem sk :
  pem <> [] ->
  Forge.privateKeyFromPem (trim pem) = Ok sk ->
  forallb is_byte wk = true -> wk <> [] ->
  forallb is_byte wi = true -> wi <> [] ->
  forallb is_byte ct = true -> ct <> [] ->
  Envelope.decryptDataWithRSA_AES (Envelope.transport_format wk wi ct) pem
  = (do keyText <- Forge.rsa_decrypt sk wk;
     do ivText <- Forge.rsa_decrypt sk wi;
     do finished <- Forge.aes_cbc_decrypt (Forge.decode64 keyText)
                                          (Forge.decode64 ivText) ct;
     match finished with
     | None => Throw (Error "AES decryption failed")
     | Some output => do text <- Forge.decodeUtf8 output; JSON_parse text
     end).
Proof.
  intros Hpem Hsk Bk Nk Bi Ni Bc Nc.
  unfold Envelope.decryptDataWithRSA_AES, Envelope.transport_format.
  destruct pem as [|c pem]; [congruence|]. rewrite Hsk. cbn [bind].
  change (Forge.decode64 (Base64.encode ?x)) with (Forge.decode64 (Forge.encode64 x)).
  rewrite decode64_encode64.
  2:{ change (js ":") with [58].
      repeat (apply bytes_app; split); try apply encode_is_bytes; reflexivity. }
  change (code ":"%char) with 58. change (js ":") with [58]. cbn [app].
  rewrite split_app by apply encode_no_colon.
  rewrite split_app by apply encode_no_colon.
  rewrite split_none by apply encode_no_colon.
  cbn [nth_error].
  pose proof (encode_nonempty wk Bk Nk) as Ek.
  pose proof (encode_nonempty wi Bi Ni) as Ei.
  pose proof (encode_nonempty ct Bc Nc) as Ec.
  destruct (Base64.encode wk) as [|k1 kr] eqn:Hek; [congruence|].
  destruct (Base64.encode wi) as [|i1 ir] eqn:Hei; [congruence|].
  destruct (Base64.encode ct) as [|c1 cr] eqn:Hec; [congruence|].
  cbn [Envelope.falsy_part orb Envelope.part].
  rewrite <- Hek, <- Hei, <- Hec.
  change (Forge.decode64 (Base64.encode ?x)) with (Forge.decode64 (Forge.encode64 x)).
  rewrite !decode64_encode64 by assumption.
  reflexivity.
Qed.

(** C1. For every well-formed JSON payload (normalized numbers, strings
    of UTF-16 code units, no key twice in an object) and a matching key
    pair, with a symmetric cipher that decrypts what it encrypts,
    [encryptDataWithRSA_AES] returns a transport string and
    [decryptDataWithRSA_AES] opens it to the payload. *)
Theorem envelope_roundtrip (payload : value) (publicKeyPem privateKeyPem : jsstring)
        (pk : Forge.publicKey) (sk : Forge.privateKey) (g : Forge.prng) :
  aes_correct ->
  publicKeyPem <> [] -> Forge.publicKeyFromPem (trim publicKeyPem) = Ok pk ->
  privateKeyPem <> [] -> Forge.privateKeyFromPem (trim privateKeyPem) = Ok sk ->
  matching pk sk ->
  well_formed payload = true ->
  exists t,
    fst (Envelope.encryptDataWithRSA_AES payload publicKeyPem g) = Ok t /\
    Envelope.decryptDataWithRSA_AES t privateKeyPem = Ok payload.
Proof.
  intros Haes Hpub Hpk Hpriv Hsk Hmatch Hwf.
  destruct (well_formed_serializable payload Hwf) as (data & Henc & Bdata & Hdec & Hparse).
  destruct (getBytesSync_bytes 32 g) as [Bkey Lkey]. fold (Envelope.key_of g) in *.
  destruct (getBytesSync_bytes 16 (snd (Forge.getBytesSync 32 g))) as [Biv Liv].
  fold (Envelope.iv_of g) in *.
  destruct (getBytesSync_bytes Forge.oaep_seed_length
              (snd (Forge.getBytesSync 16 (snd (Forge.getBytesSync 32 g)))))
    as [Bs1 Ls1]. fold (Envelope.seed1_of g) in *.
  destruct (getBytesSync_bytes Forge.oaep_seed_length
              (snd (Forge.getBytesSync Forge.oaep_seed_length
                      (snd (Forge.getBytesSync 16 (snd (Forge.getBytesSync 32 g)))))))
    as [Bs2 Ls2]. fold (Envelope.seed2_of g) in *.
  destruct (Hmatch (Base64.encode (Envelope.key_of g)) (Envelope.seed1_of g))
    as (wk & Hwk & Nwk & Bwk & Dwk);
    [apply encode_is_bytes | rewrite encode_length, Lkey by assumption; cbn; lia
     | assumption | assumption |].
  destruct (Hmatch (Base64.encode (Envelope.iv_of g)) (Envelope.seed2_of g))
    as (wi & Hwi & Nwi & Bwi & Dwi);
    [apply encode_is_bytes | rewrite encode_length, Liv by assumption; cbn; lia
     | assumption | assumption |].
  destruct (Haes (Envelope.key_of g) (Envelope.iv_of g) data Bkey Lkey Biv Liv Bdata)
    as (Nct & Bct & Dct).
  eexists. split.
  - apply (encrypt_ok payload publicKeyPem g pk data wk wi); assumption.
  - rewrite (decrypt_transport wk wi _ privateKeyPem sk) by assumption.
    rewrite Dwk, Dwi. cbn [bind].
    change (Forge.decode64 (Base64.encode ?x)) with (Forge.decode64 (Forge.encode64 x)).
    rewrite !decode64_encode64 by assumption.
    rewrite Dct. cbn [bind]. rewrite Hdec. cbn [bind]. exact Hparse.
Qed.

(** C3, as the code has it.  With a private key that parses, the
    routine throws the format error whenever the decoded transport string
    splits on [:] into fewer than three parts, or one of its first three
    parts is empty. *)
Theorem decrypt_format_error (encrypted privateKeyPem : jsstring)
        (sk : Forge.privateKey) :
  privateKeyPem <> [] -> Forge.privateKeyFromPem (trim privateKeyPem) = Ok sk ->
  let parts := split (code ":"%char) (Forge.decode64 encrypted) in
  (length parts < 3)%nat \/ In [] (firstn 3 parts) ->
  Envelope.decryptDataWithRSA_AES encrypted privateKeyPem
  = Throw (Error "Encrypted data format is invalid").
Proof.
  intros Hpem Hsk parts Hparts. unfold Envelope.decryptDataWithRSA_AES.
  destruct privateKeyPem as [|c pem]; [congruence|]. rewrite Hsk. cbn [bind].
  fold parts.
  replace (Envelope.falsy_part (nth_error parts 0)
           || Envelope.falsy_part (nth_error parts 1)
           || Envelope.falsy_part (nth_error parts 2)) with true; [reflexivity|].
  symmetry.
  destruct parts as [|p0 [|p1 [|p2 rest]]]; cbn [nth_error Envelope.falsy_part orb];
    rewrite ?orb_true_r; try reflexivity.
  destruct Hparts as [Hlen|Hin]; [cbn [length] in Hlen; lia|].
  cbn [firstn] in Hin.
  destruct Hin as [->|[->|[->|[]]]]; cbn [Envelope.falsy_part orb];
    rewrite ?orb_true_r; reflexivity.
Qed.

(** With a key that has a matching private key, every call on a
    well-formed payload returns a transport string. *)
Lemma encrypt_returns (payload : value) (publicKeyPem : jsstring)
      (pk : Forge.publicKey) (sk : Forge.privateKey) (g : Forge.prng) :
  publicKeyPem <> [] -> Forge.publicKeyFromPem (trim publicKeyPem) = Ok pk ->
  matching pk sk -> well_formed payload = true ->
  exists t, fst (Envelope.encryptDataWithRSA_AES payload publicKeyPem g) = Ok t.
Proof.
  intros Hpub Hpk Hmatch Hwf.
  destruct (well_formed_serializable payload Hwf) as (data & Henc & _).
  destruct (getBytesSync_bytes 32 g) as [Bkey Lkey]. fold (Envelope.key_of g) in *.
  destruct (getBytesSync_bytes 16 (snd (Forge.getBytesSync 32 g))) as [Biv Liv].
  fold (Envelope.iv_of g) in *.
  destruct (Hmatch (Base64.encode (Envelope.key_of g)) (Envelope.seed1_of g))
    as (wk & Hwk & _);
    [apply encode_is_bytes | rewrite encode_length, Lkey by assumption; cbn; lia
     | apply getBytesSync_bytes | apply getBytesSync_bytes |].
  destruct (Hmatch (Base64.encode (Envelope.iv_of g)) (Envelope.seed2_of g))
    as (wi & Hwi & _);
    [apply encode_is_bytes | rewrite encode_length, Liv by assumption; cbn; lia
     | apply getBytesSync_bytes | apply getBytesSync_bytes |].
  eexists. apply (encrypt_ok payload publicKeyPem g pk data wk wi); assumption.
Qed.

(** Calls that return, on draws of key and IV that differ, return
    different strings; and a call leaves the cursor beyond its key and
    IV. *)
Lemma transports_differ (payload : value) (publicKeyPem : jsstring)
      (pk : Forge.publicKey) (sk : Forge.privateKey) (g1 g2 : Forge.prng)
      (t1 t2 : jsstring) :
  Forge.publicKeyFromPem (trim publicKeyPem) = Ok pk ->
  matching pk sk ->
  fst (Envelope.encryptDataWithRSA_AES payload publicKeyPem g1) = Ok t1 ->
  fst (Envelope.encryptDataWithRSA_AES payload publicKeyPem g2) = Ok t2 ->
  (Envelope.key_of g1, Envelope.iv_of g1) <> (Envelope.key_of g2, Envelope.iv_of g2) ->
  t1 <> t2 /\
  (Forge.cursor g1 + 48
   <= Forge.cursor (snd (Envelope.encryptDataWithRSA_AES payload publicKeyPem g1)))%nat /\
  Forge.bytes_tape (snd (Envelope.encryptDataWithRSA_AES payload publicKeyPem g1))
  = Forge.bytes_tape g1.
Proof.
  intros Hpk Hmatch H1 H2 Hne. split.
  - intros Heq. apply Hne. clear Hne.
    apply encrypt_inv in H1. apply encrypt_inv in H2.
    destruct H1 as (pk1 & d1 & wk1 & wi1 & _ & Hpk1 & _ & Hk1 & Hi1 & ->).
    destruct H2 as (pk2 & d2 & wk2 & wi2 & _ & Hpk2 & _ & Hk2 & Hi2 & E2).
    rewrite Hpk in Hpk1, Hpk2. apply Ok_inj in Hpk1. apply Ok_inj in Hpk2.
    subst pk1 pk2.
    subst t2. unfold Envelope.transport_format in Heq.
    apply encode64_injective in Heq.
    2,3: change (js ":") with [58];
      repeat (apply bytes_app; split); try apply encode_is_bytes; reflexivity.
    apply (f_equal (split 58)) in Heq. change (js ":") with [58] in Heq.
    cbn [app] in Heq.
    rewrite !split_app in Heq by apply encode_no_colon.
    injection Heq as Ek Ei _.
    assert (Hunwrap : forall g wk,
               Forge.rsa_encrypt pk (Base64.encode (fst (Forge.getBytesSync 32 g)))
                                 (Envelope.seed1_of g) = Ok wk ->
               forallb is_byte wk = true /\
               Forge.rsa_decrypt sk wk = Ok (Base64.encode (fst (Forge.getBytesSync 32 g)))).
    { intros g wk Hw.
      destruct (getBytesSync_bytes 32 g) as [B L].
      destruct (Hmatch (Base64.encode (fst (Forge.getBytesSync 32 g))) (Envelope.seed1_of g))
        as (w & Hw' & _ & Bw & Dw);
        [apply encode_is_bytes | rewrite encode_length, L by assumption; cbn; lia
         | apply getBytesSync_bytes | apply getBytesSync_bytes |].
      rewrite Hw in Hw'. apply Ok_inj in Hw'. subst w. split; assumption. }
    assert (Hunwrap' : forall g wi,
               Forge.rsa_encrypt pk (Base64.encode (Envelope.iv_of g))
                                 (Envelope.seed2_of g) = Ok wi ->
               forallb is_byte wi = true /\
               Forge.rsa_decrypt sk wi = Ok (Base64.encode (Envelope.iv_of g))).
    { intros g wi Hw.
      destruct (getBytesSync_bytes 16 (snd (Forge.getBytesSync 32 g))) as [B L].
      fold (Envelope.iv_of g) in B, L.
      destruct (Hmatch (Base64.encode (Envelope.iv_of g)) (Envelope.seed2_of g))
        as (w & Hw' & _ & Bw & Dw);
        [apply encode_is_bytes | rewrite encode_length, L by assumption; cbn; lia
         | apply getBytesSync_bytes | apply getBytesSync_bytes |].
      rewrite Hw in Hw'. apply Ok_inj in Hw'. subst w. split; assumption. }
    destruct (Hunwrap g1 wk1 Hk1) as [B1 D1]. destruct (Hunwrap g2 wk2 Hk2) as [B2 D2].
    destruct (Hunwrap' g1 wi1 Hi1) as [B1' D1']. destruct (Hunwrap' g2 wi2 Hi2) as [B2' D2'].
    apply encode64_injective in Ek; [|assumption|assumption].
    apply encode64_injective in Ei; [|assumption|assumption].
    subst wk2 wi2. rewrite D1 in D2. rewrite D1' in D2'.
    apply Ok_inj in D2. apply Ok_inj in D2'.
    apply encode64_injective in D2; [| apply getBytesSync_bytes | apply getBytesSync_bytes].
    apply encode64_injective in D2'; [| apply getBytesSync_bytes | apply getBytesSync_bytes].
    unfold Envelope.key_of. rewrite D2.
    fold (Envelope.iv_of g1) in D2'. fold (Envelope.iv_of g2) in D2'. rewrite D2'.
    reflexivity.
  - clear. unfold Envelope.encryptDataWithRSA_AES, bind_rand, draw, lift_result, ret, throw.
    cbn [Forge.getBytesSync fst snd].
    destruct (Forge.encodeUtf8 (JSON_stringify payload)); [|cbn; split; [lia|reflexivity]].
    destruct publicKeyPem as [|c pem]; [cbn; split; [lia|reflexivity]|].
    destruct (Forge.publicKeyFromPem (trim (c :: pem))) as [pk|];
      [|cbn; split; [lia|reflexivity]].
    match goal with
    | |- context [Forge.rsa_encrypt pk ?m ?sd] =>
        destruct (Forge.rsa_encrypt pk m sd); [|cbn; split; [lia|reflexivity]]
    end.
    match goal with
    | |- context [match Forge.rsa_encrypt pk ?m ?sd with _ => _ end] =>
        destruct (Forge.rsa_encrypt pk m sd); cbn; split; first [lia|reflexivity]
    end.
Qed.

(** C8. Two calls on the same payload and key whose draws of key and IV
    differ both return, and return different transport strings.  Each
    call takes its key and IV from the generator at its cursor and leaves
    the cursor beyond them, so a later call draws other positions of the
    tape. *)
Theorem fresh_keys_distinct_transports (payload : value) (publicKeyPem : jsstring)
        (pk : Forge.publicKey) (sk : Forge.privateKey) (g1 g2 : Forge.prng) :
  publicKeyPem <> [] -> Forge.publicKeyFromPem (trim publicKeyPem) = Ok pk ->
  matching pk sk -> well_formed payload = true ->
  (Envelope.key_of g1, Envelope.iv_of g1) <> (Envelope.key_of g2, Envelope.iv_of g2) ->
  exists t1 t2,
    fst (Envelope.encryptDataWithRSA_AES payload publicKeyPem g1) = Ok t1 /\
    fst (Envelope.encryptDataWithRSA_AES payload publicKeyPem g2) = Ok t2 /\
    t1 <> t2 /\
    (Forge.cursor g1 + 48
     <= Forge.cursor (snd (Envelope.encryptDataWithRSA_AES payload publicKeyPem g1)))%nat /\
    Forge.bytes_tape (snd (Envelope.encryptDataWithRSA_AES payload publicKeyPem g1))
    = Forge.bytes_tape g1.
Proof.
  intros Hpub Hpk Hmatch Hwf Hne.
  destruct (encrypt_returns payload publicKeyPem pk sk g1 Hpub Hpk Hmatch Hwf) as [t1 H1].
  destruct (encrypt_returns payload publicKeyPem pk sk g2 Hpub Hpk Hmatch Hwf) as [t2 H2].
  exists t1, t2. split; [exact H1|]. split; [exact H2|].
  exact (transports_differ payload publicKeyPem pk sk g1 g2 t1 t2 Hpk Hmatch H1 H2 Hne).
Qed.

End EnvelopeFacts.

(** ** The example primitives satisfy what the theorems assume *)

Lemma example_matching k : @matching example_crypto k k.
Proof.
  intros message seed Bm Lm Bs Ls. cbn in Ls.
  exists (seed ++ map (fun b => (b + k) mod 256) message).
  assert ((length message <=? 214)%nat = true) as E by (apply Nat.leb_le; lia).
  repeat split.
  - cbn. rewrite E. reflexivity.
  - intros H. apply (f_equal (@length Z)) in H. rewrite length_app in H.
    cbn [length] in H. lia.
  - apply bytes_app. split; [exact Bs|].
    apply forallb_forall. intros c Hc. apply in_map_iff in Hc.
    destruct Hc as (b & <- & _). apply is_byte_range. euclid.
  - cbn [Forge.rsa_decrypt example_crypto].
    assert ((20 <=? length (seed ++ map (fun b => ((b + k) mod 256)%Z) message))%nat
            = true) as E'
        by (apply Nat.leb_le; rewrite length_app; lia).
    rewrite E'. f_equal.
    rewrite skipn_app, <- Ls, skipn_all, Nat.sub_diag. cbn [skipn app].
    rewrite map_map. rewrite <- (map_id message) at 2.
    apply map_ext_in. intros b Hb.
    rewrite forallb_forall in Bm. apply Bm, is_byte_range in Hb. euclid.
Qed.

Lemma example_aes : @aes_correct example_crypto.
Proof.
  intros key iv data Bk Lk Bi Li Bd. cbn. repeat split.
  - discriminate.
  - apply andb_true_iff. split.
    + apply is_byte_range. unfold checksum. euclid.
    + apply bytes_app. split; [exact Bd|reflexivity].
  - rewrite Z.eqb_refl, rev_app_distr. cbn [rev app].
    rewrite rev_involutive. reflexivity.
Qed.

Lemma envelope_roundtrip_witness :
  exists t,
    fst (@Envelope.encryptDataWithRSA_AES example_crypto example_payload
           (js " PUBLIC 7 ") example_prng) = Ok t /\
    @Envelope.decryptDataWithRSA_AES example_crypto t (js "PRIVATE 7")
    = Ok example_payload.
Proof.
  apply (@envelope_roundtrip example_crypto example_payload (js " PUBLIC 7 ")
           (js "PRIVATE 7") 55 55 example_prng).
  - exact example_aes.
  - discriminate.
  - reflexivity.
  - discriminate.
  - reflexivity.
  - exact (example_matching 55).
  - reflexivity.
Defined.

Lemma transport_string_format_witness :
  js " PUBLIC 7 " <> [] /\
  exists pk data wrappedKey wrappedIv,
    @Forge.publicKeyFromPem example_crypto (trim (js " PUBLIC 7 ")) = Ok pk /\
    Forge.encodeUtf8 (JSON_stringify example_payload) = Ok data /\
    @Forge.rsa_encrypt example_crypto pk
      (Base64.encode (Envelope.key_of example_prng))
      (@Envelope.seed1_of example_crypto example_prng) = Ok wrappedKey /\
    @Forge.rsa_encrypt example_crypto pk
      (Base64.encode (Envelope.iv_of example_prng))
      (@Envelope.seed2_of example_crypto example_prng) = Ok wrappedIv /\
    example_transport
    = Base64.encode
        (Base64.encode wrappedKey ++ js ":" ++ Base64.encode wrappedIv ++ js ":"
         ++ Base64.encode
              (@Forge.aes_cbc_encrypt example_crypto (Envelope.key_of example_prng)
                 (Envelope.iv_of example_prng) data)).
Proof.
  apply (proj1 (@transport_string_format example_crypto example_payload
                  (js " PUBLIC 7 ") example_prng example_transport)).
  vm_compute. reflexivity.
Defined.

Lemma decrypt_format_error_witness :
  @Envelope.decryptDataWithRSA_AES example_crypto (js "QUJD") (js "PRIVATE 7")
  = Throw (Error "Encrypted data format is invalid").
Proof.
  apply (@decrypt_format_error example_crypto (js "QUJD") (js "PRIVATE 7") 55).
  - discriminate.
  - reflexivity.
  - left. cbn. lia.
Defined.

(** C3, as stated, fails: the transport string below decodes to a string
    of four parts, and the routine opens it without any format error. *)
Lemma decrypt_four_parts :
  length (split (code ":"%char) (Forge.decode64 example_four_parts)) = 4%nat /\
  @Envelope.decryptDataWithRSA_AES example_crypto example_four_parts (js "PRIVATE 7")
  = Ok example_payload /\
  @Envelope.decryptDataWithRSA_AES example_crypto example_four_parts (js "PRIVATE 7")
  <> Throw (Error "Encrypted data format is invalid").
Proof. vm_compute. repeat split. discriminate. Qed.

Lemma fresh_keys_distinct_transports_witness :
  exists t1 t2,
  fst (@Envelope.encryptDataWithRSA_AES example_crypto example_payload
         (js " PUBLIC 7 ") example_prng) = Ok t1 /\
  fst (@Envelope.encryptDataWithRSA_AES example_crypto example_payload
         (js " PUBLIC 7 ") example_prng2) = Ok t2 /\
  t1 <> t2 /\
  (Forge.cursor example_prng + 48
   <= Forge.cursor (snd (@Envelope.encryptDataWithRSA_AES example_crypto example_payload
                           (js " PUBLIC 7 ") example_prng)))%nat /\
  Forge.bytes_tape (snd (@Envelope.encryptDataWithRSA_AES example_crypto example_payload
                           (js " PUBLIC 7 ") example_prng))
  = Forge.bytes_tape example_prng.
Proof.
  apply (@fresh_keys_distinct_transports example_crypto example_payload
           (js " PUBLIC 7 ") 55 55 example_prng example_prng2).
  - discriminate.
  - reflexivity.
  - exact (example_matching 55).
  - reflexivity.
  - vm_compute. discriminate.
Defined.

(** ** Mock tokens *)

Lemma createJWTHeader_value :
  Encrypt.createJWTHeader = Ok (js "eyJhbGciOiJIUzI1NiIsInR5cCI6IkpXVCJ9").
Proof. reflexivity. Qed.

(** A mock token whose claims text is Latin-1 decodes to what
    [JSON.parse] makes of that text. *)
Lemma decode_mock_token text :
  forallb is_byte text = true ->
  exists token,
    (do header <- Encrypt.createJWTHeader;
     do encodedPayload <- Encrypt.base64UrlEncode text;
     Ok (header ++ js "." ++ encodedPayload ++ js ".UNSIGNED_TOKEN_FOR_TESTING_ONLY"))
    = Ok token /\
    Encrypt.decodeTokenPayload token = Encrypt.catch_null (JSON_parse text).
Proof.
  intros H. rewrite createJWTHeader_value, (base64UrlEncode_bytes text H). cbn [bind].
  eexists. split; [reflexivity|].
  set (enc := map url_char (map Base64.symbol (Base64.sextets text))).
  assert (Henc : ~ In 46 enc).
  { intros Hin. apply (url_encoded_chars text 46 H) in Hin. tauto. }
  unfold Encrypt.decodeTokenPayload. change (code "."%char) with 46.
  change (js ".") with [46].
  change (js ".UNSIGNED_TOKEN_FOR_TESTING_ONLY")
    with (46 :: js "UNSIGNED_TOKEN_FOR_TESTING_ONLY").
  replace (includes 46 _) with true.
  2:{ symmetry. unfold includes. apply existsb_exists. exists 46. split; [|reflexivity].
      apply in_or_app. right. left. reflexivity. }
  cbn [negb]. change ([46] ++ ?x) with (46 :: x).
  rewrite split_app by (cbn; intuition discriminate).
  rewrite split_app by exact Henc.
  rewrite split_none by (cbn; intuition discriminate).
  cbn [length Nat.eqb negb nth].
  unfold enc. rewrite (base64UrlDecode_encoded text H). reflexivity.
Qed.

(** ** Objects of well-formed members *)

Lemma keys_obj_set o k v x :
  existsb (str_eqb x) (map fst (obj_set o k v))
  = existsb (str_eqb x) (map fst o) || str_eqb x k.
Proof.
  induction o as [|[k' v'] o IH]; cbn [obj_set map fst existsb].
  - apply orb_comm.
  - destruct (str_eqb k' k) eqn:E; cbn [map fst existsb].
    + apply str_eqb_eq in E. subst k'.
      destruct (str_eqb x k), (existsb (str_eqb x) (map fst o)); reflexivity.
    + rewrite IH. apply orb_assoc.
Qed.

Lemma obj_set_ok u o k v :
  value_ok u (JObj o) = true -> forallb u k = true -> value_ok u v = true ->
  value_ok u (JObj (obj_set o k v)) = true.
Proof.
  intros Ho Hk Hv. induction o as [|[k' v'] o IH].
  - cbn [obj_set value_ok map fst distinct existsb forallb snd negb andb].
    rewrite Hk, Hv. reflexivity.
  - cbn [value_ok map fst distinct forallb snd] in Ho.
    apply andb_true_iff in Ho. destruct Ho as [Hd Hm].
    apply andb_true_iff in Hd. destruct Hd as [Hfresh Hd].
    apply andb_true_iff in Hm. destruct Hm as [Hkv Hm].
    apply andb_true_iff in Hkv. destruct Hkv as [Hk' Hv'].
    assert (Ho : value_ok u (JObj o) = true).
    { cbn [value_ok]. rewrite Hd, Hm. reflexivity. }
    specialize (IH Ho). cbn [value_ok] in IH.
    apply andb_true_iff in IH. destruct IH as [IHd IHm].
    cbn [obj_set]. destruct (str_eqb k' k) eqn:E.
    + cbn [value_ok map fst distinct forallb snd].
      rewrite Hfresh, Hd, Hk', Hv, Hm. reflexivity.
    + cbn [value_ok map fst distinct forallb snd].
      rewrite keys_obj_set, E, orb_false_r, Hfresh, IHd, Hk', Hv', IHm. reflexivity.
Qed.

Lemma obj_spread_ok u p : forall o,
  value_ok u (JObj o) = true ->
  forallb (fun kv => forallb u (fst kv) && value_ok u (snd kv)) p = true ->
  value_ok u (JObj (obj_spread o p)) = true.
Proof.
  induction p as [|[k v] p IH]; intros o Ho Hp; [exact Ho|].
  cbn [forallb fst snd] in Hp. apply andb_true_iff in Hp. destruct Hp as [Hkv Hp].
  apply andb_true_iff in Hkv. destruct Hkv as [Hk Hv].
  unfold obj_spread. cbn [fold_left fst snd].
  apply (IH (obj_set o k v)); [apply obj_set_ok; assumption|exact Hp].
Qed.

Lemma obj_get_ok u o k v :
  value_ok u (JObj o) = true -> obj_get o k = Some v -> value_ok u v = true.
Proof.
  cbn [value_ok]. intros Ho. apply andb_true_iff in Ho. destruct Ho as [_ Hm].
  induction o as [|[k' v'] o IH]; [discriminate|].
  cbn [forallb fst snd] in Hm. apply andb_true_iff in Hm. destruct Hm as [Hkv Hm].
  apply andb_true_iff in Hkv. destruct Hkv as [_ Hv'].
  cbn [obj_get]. destruct (str_eqb k' k).
  - intros E. injection E as <-. exact Hv'.
  - apply IH, Hm.
Qed.

Lemma or_else_ok u o k d :
  value_ok u (JObj o) = true -> value_ok u d = true ->
  value_ok u (or_else (obj_get o k) d) = true.
Proof.
  intros Ho Hd. unfold or_else. destruct (obj_get o k) as [v|] eqn:E; [|exact Hd].
  destruct (truthy v); [|exact Hd]. apply (obj_get_ok u o k v Ho E).
Qed.

(** ** The mock token's payload *)

Lemma digit36_ascii d : is_ascii (digit36 d) = true.
Proof.
  unfold digit36, is_ascii. cbv zeta.
  pose proof (Z.mod_pos_bound d 36 ltac:(lia)). destruct (d mod 36 <? 10); lia.
Qed.

Lemma random_text_bytes g : forallb is_byte (fst (Math_random_toString36 g)) = true.
Proof.
  unfold Math_random_toString36. cbn [fst]. destruct (tape g (position g)) as [|d ds].
  - reflexivity.
  - rewrite forallb_app. apply andb_true_iff. split; [reflexivity|].
    apply (forallb_impl is_ascii is_byte _ ascii_byte).
    generalize (d :: ds). intros l. induction l as [|x l IH]; [reflexivity|].
    cbn [map forallb]. rewrite digit36_ascii, IH. reflexivity.
Qed.

Lemma generateRandomId_bytes g :
  forallb is_byte (fst (Encrypt.generateRandomId g)) = true.
Proof.
  unfold Encrypt.generateRandomId.
  pose proof (random_text_bytes g) as H1.
  destruct (Math_random_toString36 g) as [s1 g1]. cbn [fst] in H1.
  pose proof (random_text_bytes g1) as H2.
  destruct (Math_random_toString36 g1) as [s2 g2]. cbn [fst] in *.
  unfold substring. rewrite forallb_app.
  rewrite !forallb_firstn by (apply forallb_skipn; assumption). reflexivity.
Qed.

Lemma dec_of_Z_ok n : dec_ok (dec_of_Z n) = true.
Proof. apply normalize_ok. Qed.

(** The full payload of a claims object of Latin-1 strings is one too. *)
Lemma fullPayload_ok Date_now C g :
  value_ok is_byte (JObj C) = true ->
  value_ok is_byte (JObj (fst (Encrypt.fullPayload Date_now C g))) = true.
Proof.
  intros HC. unfold Encrypt.fullPayload. cbv zeta.
  pose proof (generateRandomId_bytes g) as Hjti.
  destruct (Encrypt.generateRandomId g) as [jti g1]. cbn [fst] in Hjti.
  assert (Hsid : value_ok is_byte
                   (fst (if truthy_opt (obj_get C (js "session_id"))
                         then (or_else (obj_get C (js "session_id")) JNull, g1)
                         else let (id, g2) := Encrypt.generateRandomId g1 in (JStr id, g2)))
                 = true).
  { destruct (truthy_opt (obj_get C (js "session_id"))).
    - cbn [fst]. apply or_else_ok; [exact HC|reflexivity].
    - pose proof (generateRandomId_bytes g1) as Hid.
      destruct (Encrypt.generateRandomId g1) as [id g2]. exact Hid. }
  destruct (if truthy_opt (obj_get C (js "session_id"))
            then (or_else (obj_get C (js "session_id")) JNull, g1)
            else let (id, g2) := Encrypt.generateRandomId g1 in (JStr id, g2))
    as [session_id g2]. cbn [fst] in *.
  apply obj_spread_ok.
  - cbn [value_ok]. apply andb_true_iff. split; [reflexivity|].
    cbn [forallb fst snd value_ok].
    rewrite !dec_of_Z_ok, Hjti, Hsid.
    rewrite !or_else_ok by (try exact HC; reflexivity). reflexivity.
  - cbn [value_ok] in HC. apply andb_true_iff in HC. apply HC.
Qed.

(** C5, as the code has it.  For a claims object [C] that JSON can carry
    and whose strings and keys are Latin-1, [createMockToken] returns a
    token and [decodeTokenPayload] reads from it every field of [C] with
    the value [C] gives it, and for every recognized field that [C]
    leaves out the default of the source:
    [sub] is [C.user_id] when that is truthy and the placeholder otherwise,
    [iat] is the clock in seconds, [exp] is that plus 30 minutes, or plus
    24 hours when [C.token_type] is ["refresh"], [jti] and [session_id] are
    identifiers drawn from the random source one after the other. *)
Theorem mock_token_roundtrip (Date_now : Z) (C : list (jsstring * value))
        (g : random_source) :
  value_ok is_byte (JObj C) = true ->
  exists token,
    fst (Encrypt.createMockToken Date_now C g) = Ok token /\
    let claims := Encrypt.decodeTokenPayload token in
    let now := Date_now / 1000 in
    let absent k := obj_get C (js k) = None in
    let default k v := absent k -> get_prop claims (js k) = Some v in
    (forall k v, obj_get C k = Some v -> get_prop claims k = Some v) /\
    default "iss" (JStr (js "HealthPro ERP Backend")) /\
    default "sub" (or_else (obj_get C (js "user_id")) (JStr (js "test-user"))) /\
    default "iat" (JNum (dec_of_Z now)) /\
    default "exp"
      (JNum (dec_of_Z (now + if Encrypt.strict_eq_string (obj_get C (js "token_type"))
                                   (js "refresh")
                             then 24 * 60 * 60 else 30 * 60))) /\
    default "jti" (JStr (fst (Encrypt.generateRandomId g))) /\
    default "session_id"
      (JStr (fst (Encrypt.generateRandomId (snd (Encrypt.generateRandomId g))))) /\
    default "user_id" (JStr (js "test-user@example.com")) /\
    default "role_profile" (JStr (js "Healthcare Provider")) /\
    default "access_scope" Encrypt.default_access_scope /\
    default "token_type" (JStr (js "access")).
Proof.
  intros HC.
  pose proof (fullPayload_ok Date_now C g HC) as Hfull.
  pose proof (stringify_bytes _ Hfull) as Hbytes.
  pose proof (JSON_roundtrip _ (bytes_well_formed _ Hfull)) as Hparse.
  assert (Hnd : NoDup (map fst C)).
  { apply distinct_NoDup. cbn [value_ok] in HC. apply andb_true_iff in HC. apply HC. }
  destruct (decode_mock_token _ Hbytes) as (token & Htok & Hdec).
  exists token. split.
  - unfold Encrypt.createMockToken.
    destruct (Encrypt.fullPayload Date_now C g) as [full g'] eqn:F. exact Htok.
  - rewrite Hparse in Hdec. cbn [Encrypt.catch_null] in Hdec.
    cbv zeta. rewrite Hdec. cbn [get_prop].
    unfold Encrypt.fullPayload.
    destruct (Encrypt.generateRandomId g) as [jti g1] eqn:G1.
    cbn [fst snd].
    destruct (truthy_opt (obj_get C (js "session_id"))) eqn:T.
    + cbn [fst]. split.
      { intros k v Hk. rewrite obj_get_spread, Hk by exact Hnd. reflexivity. }
      repeat split; intros Habs; rewrite obj_get_spread, Habs by exact Hnd;
        try reflexivity.
      rewrite Habs in T. discriminate.
    + destruct (Encrypt.generateRandomId g1) as [sid g2] eqn:G2. cbn [fst]. split.
      { intros k v Hk. rewrite obj_get_spread, Hk by exact Hnd. reflexivity. }
      repeat split; intros Habs; rewrite obj_get_spread, Habs by exact Hnd;
        reflexivity.
Qed.

Lemma mock_token_roundtrip_witness :
  exists token,
    fst (Encrypt.createMockToken 1700000000123 [(js "user_id", JStr (js "u1"))]
           example_random) = Ok token /\
    get_prop (Encrypt.decodeTokenPayload token) (js "user_id") = Some (JStr (js "u1")) /\
    get_prop (Encrypt.decodeTokenPayload token) (js "role_profile")
    = Some (JStr (js "Healthcare Provider")) /\
    get_prop (Encrypt.decodeTokenPayload token) (js "exp")
    = Some (JNum (dec_of_Z (1700000000 + 30 * 60))).
Proof.
  destruct (mock_token_roundtrip 1700000000123 [(js "user_id", JStr (js "u1"))]
              example_random)
    as (token & Htoken & Hset & _ & _ & _ & Hexp & _ & _ & _ & Hrole & _).
  - reflexivity.
  - exists token. split; [exact Htoken|]. split; [|split].
    + apply Hset. reflexivity.
    + apply Hrole. reflexivity.
    + apply Hexp. reflexivity.
Defined.

(** C5, as stated, fails: with [user_id] set and [sub] left out, the
    decoded [sub] is the user id, not the placeholder. *)
Lemma mock_token_sub_not_placeholder :
  let C := [(js "user_id", JStr (js "u1"))] in
  obj_get C (js "sub") = None /\
  match fst (Encrypt.createMockToken 1700000000123 C example_random) with
  | Ok token =>
      get_prop (Encrypt.decodeTokenPayload token) (js "sub") = Some (JStr (js "u1")) /\
      get_prop (Encrypt.decodeTokenPayload token) (js "sub")
      <> Some (JStr (js "test-user"))
  | Throw _ => False
  end.
Proof. vm_compute. repeat split. discriminate. Qed.

(** A claims object with a character outside Latin-1 gets no token at
    all: [btoa] throws. *)
Example mock_token_not_latin1 :
  fst (Encrypt.createMockToken 1700000000123 [(js "user_id", JStr [937])] example_random)
  = Throw InvalidCharacterError.
Proof. reflexivity. Qed.

(* ------------------------------------------------------------------ *)
(** * The rest of the code: further properties *)
(* ------------------------------------------------------------------ *)

(** ** Tokens of three segments *)

Lemma split_three h p s :
  ~ In 46 h -> ~ In 46 p -> ~ In 46 s ->
  split 46 (h ++ 46 :: p ++ 46 :: s) = [h; p; s].
Proof.
  intros Hh Hp Hs.
  rewrite (split_app 46 h _ Hh), (split_app 46 p _ Hp), (split_none 46 s Hs).
  reflexivity.
Qed.

Lemma includes_middle c a b : includes c (a ++ c :: b) = true.
Proof.
  unfold includes. apply existsb_exists. exists c. split; [|apply Z.eqb_refl].
  apply in_or_app. right. left. reflexivity.
Qed.

Lemma decodeTokenPayload_segments h p s :
  ~ In 46 h -> ~ In 46 p -> ~ In 46 s ->
  Encrypt.decodeTokenPayload (h ++ 46 :: p ++ 46 :: s)
  = Encrypt.catch_null (do text <- Encrypt.base64UrlDecode p; JSON_parse text).
Proof.
  intros Hh Hp Hs. unfold Encrypt.decodeTokenPayload.
  change (code "."%char) with 46.
  rewrite includes_middle, (split_three h p s Hh Hp Hs). reflexivity.
Qed.

Lemma decodeTokenHeader_segments h p s :
  ~ In 46 h -> ~ In 46 p -> ~ In 46 s ->
  Encrypt.decodeTokenHeader (h ++ 46 :: p ++ 46 :: s)
  = Encrypt.catch_null (do text <- Encrypt.base64UrlDecode h; JSON_parse text).
Proof.
  intros Hh Hp Hs. unfold Encrypt.decodeTokenHeader.
  change (code "."%char) with 46.
  rewrite includes_middle, (split_three h p s Hh Hp Hs). reflexivity.
Qed.

Lemma decodeJWT_segments h p s :
  ~ In 46 h -> ~ In 46 p -> ~ In 46 s ->
  Jwt.decodeJWT (h ++ 46 :: p ++ 46 :: s)
  = Jwt.catch_null (do text <- atob p; JSON_parse text).
Proof.
  intros Hh Hp Hs. unfold Jwt.decodeJWT.
  change (code "."%char) with 46.
  rewrite (split_three h p s Hh Hp Hs). reflexivity.
Qed.

(** X1. [decodeTokenPayload] reads the claims segment and nothing else:
    two tokens of three segments with the same claims segment decode to
    the same value, whatever their headers and signatures are.  No
    signature is checked. *)
Theorem payload_ignores_header_and_signature (h h' p s s' : jsstring) :
  ~ In (code "."%char) h -> ~ In (code "."%char) h' -> ~ In (code "."%char) p ->
  ~ In (code "."%char) s -> ~ In (code "."%char) s' ->
  Encrypt.decodeTokenPayload (h ++ js "." ++ p ++ js "." ++ s)
  = Encrypt.decodeTokenPayload (h' ++ js "." ++ p ++ js "." ++ s').
Proof.
  change (code "."%char) with 46. change (js ".") with [46].
  intros Hh Hh' Hp Hs Hs'. cbn [app].
  rewrite (decodeTokenPayload_segments h p s), (decodeTokenPayload_segments h' p s');
    auto.
Qed.

Lemma payload_ignores_header_and_signature_witness :
  Encrypt.decodeTokenPayload (js "e30" ++ js "." ++ js "eyJhIjoxfQ" ++ js "." ++ js "sig")
  = Encrypt.decodeTokenPayload (js "xx" ++ js "." ++ js "eyJhIjoxfQ" ++ js "." ++ []).
Proof.
  apply (payload_ignores_header_and_signature (js "e30") (js "xx") (js "eyJhIjoxfQ")
           (js "sig") []);
    vm_compute; intuition discriminate.
Defined.

Lemma no_dot_literal s : forallb (fun c => negb (c =? 46)) s = true -> ~ In 46 s.
Proof.
  intros H Hin. rewrite forallb_forall in H. specialize (H 46 Hin). discriminate.
Qed.

Lemma url_encoded_no_dot text :
  forallb is_byte text = true ->
  ~ In 46 (map url_char (map Base64.symbol (Base64.sextets text))).
Proof. intros H Hin. apply (url_encoded_chars text 46 H) in Hin. tauto. Qed.

(** The token [createMockToken] builds around a JSON text, and what the
    two decoders read from it. *)
Lemma mock_token_text text :
  forallb is_byte text = true ->
  exists token,
    (do header <- Encrypt.createJWTHeader;
     do encodedPayload <- Encrypt.base64UrlEncode text;
     Ok (header ++ js "." ++ encodedPayload ++ js ".UNSIGNED_TOKEN_FOR_TESTING_ONLY"))
    = Ok token /\
    Encrypt.decodeTokenPayload token = Encrypt.catch_null (JSON_parse text) /\
    Encrypt.decodeTokenHeader token
    = JObj [(js "alg", JStr (js "HS256")); (js "typ", JStr (js "JWT"))] /\
    split 46 token
    = [js "eyJhbGciOiJIUzI1NiIsInR5cCI6IkpXVCJ9";
       map url_char (map Base64.symbol (Base64.sextets text));
       js "UNSIGNED_TOKEN_FOR_TESTING_ONLY"].
Proof.
  intros H. rewrite createJWTHeader_value, (base64UrlEncode_bytes text H). cbn [bind].
  eexists. split; [reflexivity|].
  set (enc := map url_char (map Base64.symbol (Base64.sextets text))).
  pose proof (url_encoded_no_dot text H) as Henc. fold enc in Henc.
  assert (Hh : ~ In 46 (js "eyJhbGciOiJIUzI1NiIsInR5cCI6IkpXVCJ9"))
    by (apply no_dot_literal; reflexivity).
  assert (Hs : ~ In 46 (js "UNSIGNED_TOKEN_FOR_TESTING_ONLY"))
    by (apply no_dot_literal; reflexivity).
  change (js ".UNSIGNED_TOKEN_FOR_TESTING_ONLY")
    with (46 :: js "UNSIGNED_TOKEN_FOR_TESTING_ONLY").
  change (js "." ++ enc ++ 46 :: js "UNSIGNED_TOKEN_FOR_TESTING_ONLY")
    with (46 :: enc ++ 46 :: js "UNSIGNED_TOKEN_FOR_TESTING_ONLY").
  split; [|split].
  - rewrite (decodeTokenPayload_segments _ enc _ Hh Henc Hs).
    unfold enc. rewrite (base64UrlDecode_encoded text H). reflexivity.
  - rewrite (decodeTokenHeader_segments _ enc _ Hh Henc Hs). reflexivity.
  - apply split_three; assumption.
Qed.

(** What [createMockToken] returns and what the decoders read from it. *)
Lemma mock_token_decodes Date_now C g :
  value_ok is_byte (JObj C) = true ->
  exists token,
    fst (Encrypt.createMockToken Date_now C g) = Ok token /\
    Encrypt.decodeTokenPayload token = JObj (fst (Encrypt.fullPayload Date_now C g)) /\
    Encrypt.decodeTokenHeader token
    = JObj [(js "alg", JStr (js "HS256")); (js "typ", JStr (js "JWT"))] /\
    length (split 46 token) = 3%nat /\
    nth 2 (split 46 token) [] = js "UNSIGNED_TOKEN_FOR_TESTING_ONLY".
Proof.
  intros HC.
  pose proof (fullPayload_ok Date_now C g HC) as Hfull.
  pose proof (stringify_bytes _ Hfull) as Hbytes.
  pose proof (JSON_roundtrip _ (bytes_well_formed _ Hfull)) as Hparse.
  destruct (mock_token_text _ Hbytes) as (token & Htok & Hdec & Hhead & Hsplit).
  exists token. split.
  - unfold Encrypt.createMockToken.
    destruct (Encrypt.fullPayload Date_now C g) as [full g']. exact Htok.
  - rewrite Hparse in Hdec. rewrite Hsplit. repeat split; assumption.
Qed.

(** ** [jwt.ts]: encoding, decoding and the seconds left *)

Lemma encode_no_dot s : ~ In 46 (Base64.encode s).
Proof.
  intros Hin. apply encode_chars in Hin. destruct Hin as [[v Hv]|E]; [|discriminate].
  apply index_not_dot in Hv. contradiction.
Qed.

(** The token of [encodeJWT] around a Latin-1 JSON text. *)
Lemma jwt_token_text v :
  forallb is_byte (JSON_stringify v) = true ->
  Jwt.encodeJWT v
  = Ok (Base64.encode
          (JSON_stringify (JObj [(js "alg", JStr (js "HS256")); (js "typ", JStr (js "JWT"))]))
        ++ 46 :: Base64.encode (JSON_stringify v) ++ 46 :: js "mock-signature").
Proof.
  intros H. unfold Jwt.encodeJWT, btoa. rewrite H.
  replace (forallb is_byte (JSON_stringify (JObj [(js "alg", JStr (js "HS256"));
                                                  (js "typ", JStr (js "JWT"))])))
    with true by reflexivity.
  reflexivity.
Qed.

Lemma jwt_token_payload v :
  forallb is_byte (JSON_stringify v) = true ->
  exists token,
    Jwt.encodeJWT v = Ok token /\
    split 46 token
    = [Base64.encode
         (JSON_stringify (JObj [(js "alg", JStr (js "HS256")); (js "typ", JStr (js "JWT"))]));
       Base64.encode (JSON_stringify v); js "mock-signature"] /\
    atob (nth 1 (split 46 token) []) = Ok (JSON_stringify v).
Proof.
  intros H. eexists. split; [apply jwt_token_text, H|].
  assert (Hsplit : forall h p,
             split 46 (Base64.encode h ++ 46 :: Base64.encode p ++ 46 :: js "mock-signature")
             = [Base64.encode h; Base64.encode p; js "mock-signature"]).
  { intros h p. apply split_three; try apply encode_no_dot.
    apply no_dot_literal. reflexivity. }
  rewrite Hsplit. split; [reflexivity|]. cbn [nth]. apply atob_encode, H.
Qed.

(** X2. [decodeJWT] of [jwt.ts] undoes [encodeJWT]: for every value that
    JSON can carry and whose strings and keys are Latin-1, [encodeJWT]
    returns a token and [decodeJWT] reads the value back from it. *)
Theorem jwt_roundtrip (payload : value) :
  value_ok is_byte payload = true ->
  exists token, Jwt.encodeJWT payload = Ok token /\ Jwt.decodeJWT token = payload.
Proof.
  intros Hv.
  destruct (jwt_token_payload payload (stringify_bytes payload Hv))
    as (token & Htok & Hsplit & Hatob).
  exists token. split; [exact Htok|].
  unfold Jwt.decodeJWT. change (code "."%char) with 46.
  rewrite Hatob. rewrite Hsplit. cbn [length Nat.eqb negb bind].
  rewrite (JSON_roundtrip payload (bytes_well_formed payload Hv)). reflexivity.
Qed.

Lemma jwt_roundtrip_witness :
  exists token,
    Jwt.encodeJWT (JObj [(js "exp", JNum (Dec 17 8)); (js "name", JStr [233])]) = Ok token /\
    Jwt.decodeJWT token = JObj [(js "exp", JNum (Dec 17 8)); (js "name", JStr [233])].
Proof.
  apply (jwt_roundtrip (JObj [(js "exp", JNum (Dec 17 8)); (js "name", JStr [233])])).
  reflexivity.
Defined.

(** What [getTokenExpiration] of [jwt.ts] can return. *)
Lemma jwt_expiration_cases Date_now token :
  Jwt.getTokenExpiration Date_now token = None \/
  exists d,
    Jwt.getTokenExpiration Date_now token
    = Some (Fin (dec_Q d - inject_Z (Date_now / 1000))) /\
    Qle_bool (dec_Q d - inject_Z (Date_now / 1000)) 0 = false.
Proof.
  unfold Jwt.getTokenExpiration.
  destruct (negb (length (split (code "."%char) token) =? 3)%nat); [left; reflexivity|].
  destruct (atob (nth 1 (split (code "."%char) token) [])) as [text|e];
    [|left; reflexivity].
  cbn [bind]. destruct (JSON_parse text) as [payload|e]; [|left; reflexivity].
  cbn [bind]. destruct (get_prop payload (js "exp")) as [[|b|d|s|l|o]|];
    try (left; reflexivity).
  cbn [num_sub of_int num_gt].
  destruct (Qle_bool (dec_Q d - inject_Z (Date_now / 1000)) (inject_Z 0)) eqn:E.
  - left. reflexivity.
  - right. exists d. split; [reflexivity|exact E].
Qed.

(** X3. [getTokenExpiration] of [jwt.ts] returns [null] or a positive
    number: never zero, never a negative number, never NaN. *)
Theorem jwt_expiration_positive (Date_now : Z) (token : jsstring) :
  match Jwt.getTokenExpiration Date_now token with
  | None => True
  | Some (Fin q) => (0 < q)%Q
  | Some NaN => False
  end.
Proof.
  destruct (jwt_expiration_cases Date_now token) as [->|(d & -> & E)]; [exact I|].
  apply Qnot_le_lt. intros H. apply Qle_bool_iff in H. rewrite H in E. discriminate.
Qed.

Lemma dec_Q_norm_loop fuel : forall m e,
  (dec_Q (norm_loop fuel m e) == inject_Z m * Qpower (inject_Z 10) e)%Q.
Proof.
  induction fuel as [|fuel IH]; intros m e; cbn [norm_loop]; [reflexivity|].
  destruct (Z.eqb_spec (m mod 10) 0) as [Hm|Hm]; [|reflexivity].
  rewrite IH.
  assert (E : m = 10 * (m / 10)) by (apply Z.div_exact in Hm; lia).
  rewrite E at 2. rewrite inject_Z_mult.
  rewrite Qpower_plus by discriminate.
  change (Qpower (inject_Z 10) 1) with (inject_Z 10). ring.
Qed.

Lemma dec_Q_of_Z n : (dec_Q (dec_of_Z n) == inject_Z n)%Q.
Proof.
  unfold dec_of_Z, normalize. destruct (Z.eqb_spec n 0) as [->|Hn]; [reflexivity|].
  rewrite dec_Q_norm_loop. change (Qpower (inject_Z 10) 0) with 1%Q. ring.
Qed.

(** X4. The seconds left of a token made by [encodeJWT]: for a payload
    object whose [exp] is a whole number of seconds (a safe integer), and
    a clock that a Date can hold at or after the epoch,
    [getTokenExpiration] returns [exp] minus the clock in whole seconds
    when that is positive, and [null] otherwise. *)
Theorem jwt_expiration_of_encoded (Date_now e : Z) (o : list (jsstring * value)) :
  value_ok is_byte (JObj o) = true ->
  obj_get o (js "exp") = Some (JNum (dec_of_Z e)) ->
  0 <= Date_now <= 8640000000000000 ->
  -9007199254740991 <= e <= 9007199254740991 ->
  exists token,
    Jwt.encodeJWT (JObj o) = Ok token /\
    (e <= Date_now / 1000 -> Jwt.getTokenExpiration Date_now token = None) /\
    (Date_now / 1000 < e ->
     exists q,
       Jwt.getTokenExpiration Date_now token = Some (Fin q) /\
       (q == inject_Z (e - Date_now / 1000))%Q).
Proof.
  intros Hv Hexp Hnow He.
  destruct (jwt_token_payload (JObj o) (stringify_bytes _ Hv))
    as (token & Htok & Hsplit & Hatob).
  exists token. split; [exact Htok|].
  set (left := (dec_Q (dec_of_Z e) - inject_Z (Date_now / 1000))%Q).
  assert (Hleft : (left == inject_Z (e - Date_now / 1000))%Q).
  { unfold left. rewrite dec_Q_of_Z. unfold Qminus.
    rewrite <- inject_Z_opp, <- inject_Z_plus. reflexivity. }
  assert (E : Jwt.getTokenExpiration Date_now token
              = if Qle_bool left 0 then None else Some (Fin left)).
  { unfold Jwt.getTokenExpiration. change (code "."%char) with 46.
    rewrite Hatob. rewrite Hsplit. cbn [length Nat.eqb negb bind].
    rewrite (JSON_roundtrip _ (bytes_well_formed _ Hv)). cbn [bind get_prop].
    rewrite Hexp. cbn [num_sub of_int num_gt]. change (inject_Z 0) with 0%Q.
    fold left. destruct (Qle_bool left 0); reflexivity. }
  rewrite E. split; intros H.
  - replace (Qle_bool left 0) with true; [reflexivity|].
    symmetry. apply Qle_bool_iff. rewrite Hleft. change 0%Q with (inject_Z 0).
    rewrite <- Zle_Qle. lia.
  - replace (Qle_bool left 0) with false.
    + exists left. split; [reflexivity|exact Hleft].
    + symmetry. apply Qle_bool_false. rewrite Hleft. change 0%Q with (inject_Z 0).
      rewrite <- Zlt_Qlt. lia.
Qed.

Lemma jwt_expiration_of_encoded_witness :
  exists token q,
    Jwt.encodeJWT (JObj [(js "exp", JNum (Dec 17 8))]) = Ok token /\
    Jwt.getTokenExpiration 1699999000999 token = Some (Fin q) /\
    (q == inject_Z 1000)%Q.
Proof.
  destruct (jwt_expiration_of_encoded 1699999000999 1700000000
              [(js "exp", JNum (Dec 17 8))])
    as (token & Htok & _ & Hpos).
  - reflexivity.
  - reflexivity.
  - lia.
  - lia.
  - destruct Hpos as (q & Hq & E); [reflexivity|].
    exists token, q. split; [exact Htok|]. split; [exact Hq|exact E].
Defined.

(** X5. The decoder page never shows [Token has expired]: for the age
    that [getTokenExpiration] returns, the message is empty or starts with
    [Token expires in], whatever the token and the clock. *)
Theorem page_never_says_expired (Number_text : number -> jsstring)
        (Date_now : Z) (token : jsstring) :
  JWTDecoder.expirationInfo Number_text (Jwt.getTokenExpiration Date_now token)
  <> js "Token has expired" /\
  (JWTDecoder.expirationInfo Number_text (Jwt.getTokenExpiration Date_now token) = [] \/
   firstn 17 (JWTDecoder.expirationInfo Number_text
                (Jwt.getTokenExpiration Date_now token))
   = js "Token expires in ").
Proof.
  destruct (jwt_expiration_cases Date_now token) as [->|(d & -> & E)].
  - split; [discriminate|left; reflexivity].
  - unfold JWTDecoder.expirationInfo. cbn [num_gt of_int].
    change (inject_Z 0) with 0%Q. rewrite E. cbn [negb].
    split; [discriminate|right; reflexivity].
Qed.

(** ** [encrypt.ts]: the time a token has left *)

Lemma Qsub_nonneg x y : (0 <= x - y)%Q <-> (y <= x)%Q.
Proof. symmetry. apply Qle_minus_iff. Qed.

Lemma Qsub_pos x y : (0 < x - y)%Q <-> (y < x)%Q.
Proof. symmetry. apply Qlt_minus_iff. Qed.

Lemma Qsub_nonpos x y : (x - y <= 0)%Q <-> (x <= y)%Q.
Proof.
  split; intros H.
  - apply Qnot_lt_le. intros Hlt. apply (proj2 (Qsub_pos x y)) in Hlt.
    exact (Qlt_not_le _ _ Hlt H).
  - apply Qnot_lt_le. intros Hlt. apply (proj1 (Qsub_pos x y)) in Hlt.
    exact (Qlt_not_le _ _ Hlt H).
Qed.

Lemma Qfloor_thousandth a :
  Qfloor (inject_Z a / inject_Z 1000) = a / 1000.
Proof.
  rewrite <- (Qmake_Qdiv a 1000). reflexivity.
Qed.

Section TimeLeft.
Context {host : Host}.

(** The result for a numeric [exp] that is not zero. *)
Lemma time_remaining_numeric Date_now token d :
  get_prop (Encrypt.decodeTokenPayload token) (js "exp") = Some (JNum d) ->
  mantissa d <> 0 ->
  Encrypt.getTokenTimeRemaining Date_now token
  = if Qle_bool 0 (dec_Q d * inject_Z 1000 - inject_Z Date_now)
    then Fin (dec_Q d * inject_Z 1000 - inject_Z Date_now)
    else Fin 0.
Proof.
  intros Hexp Hm. unfold Encrypt.getTokenTimeRemaining.
  rewrite Hexp, (get_prop_truthy _ _ _ Hexp).
  cbn [negb orb truthy_opt truthy ToNumber].
  apply Z.eqb_neq in Hm. rewrite Hm. cbn [negb].
  reflexivity.
Qed.

Lemma time_remaining_zero_exp Date_now token d :
  get_prop (Encrypt.decodeTokenPayload token) (js "exp") = Some (JNum d) ->
  mantissa d = 0 ->
  Encrypt.getTokenTimeRemaining Date_now token = Fin 0.
Proof.
  intros Hexp Hm. unfold Encrypt.getTokenTimeRemaining.
  rewrite Hexp, (get_prop_truthy _ _ _ Hexp).
  cbn [negb orb truthy_opt truthy]. rewrite Hm. reflexivity.
Qed.

(** X6. [getTokenTimeRemaining] never returns a negative number, and
    without [exp] it returns 0.  For an [exp] that is a whole number of
    seconds and an instant a Date can hold, and a clock that a Date can
    hold at or after the epoch, it returns the milliseconds from the
    clock to [exp * 1000], and 0 once the clock has reached it. *)
Theorem time_remaining_spec (Date_now : Z) (token : jsstring) :
  let claims := Encrypt.decodeTokenPayload token in
  (forall q, Encrypt.getTokenTimeRemaining Date_now token = Fin q -> (0 <= q)%Q) /\
  (get_prop claims (js "exp") = None ->
   Encrypt.getTokenTimeRemaining Date_now token = Fin 0) /\
  (forall d e,
     get_prop claims (js "exp") = Some (JNum d) ->
     (dec_Q d == inject_Z e)%Q ->
     0 <= Date_now <= 8640000000000000 ->
     -8640000000000 <= e <= 8640000000000 ->
     exists q,
       Encrypt.getTokenTimeRemaining Date_now token = Fin q /\
       (q == inject_Z (Z.max 0 (e * 1000 - Date_now)))%Q).
Proof.
  intros claims. split; [|split].
  - intros q. unfold Encrypt.getTokenTimeRemaining. fold claims.
    destruct (negb (truthy claims) || negb (truthy_opt (get_prop claims (js "exp")))).
    + intros E. injection E as <-. apply Qle_refl.
    + destruct (ToNumber (get_prop claims (js "exp"))) as [|x]; [discriminate|].
      cbn [num_mul of_int num_sub Math_max].
      destruct (Qle_bool (inject_Z 0) (x * inject_Z 1000 - inject_Z Date_now)) eqn:B;
        intros E; injection E as <-; [apply Qle_bool_iff, B|apply Qle_refl].
  - intros Hexp. unfold Encrypt.getTokenTimeRemaining. fold claims.
    rewrite Hexp. cbn [truthy_opt negb]. rewrite orb_true_r. reflexivity.
  - intros d e Hexp He Hnow Hrange.
    assert (E1 : (dec_Q d * inject_Z 1000 - inject_Z Date_now
                  == inject_Z (e * 1000 - Date_now))%Q).
    { rewrite He. unfold Qminus, Z.sub.
      rewrite inject_Z_plus, inject_Z_mult, inject_Z_opp. reflexivity. }
    destruct (Z.eq_dec (mantissa d) 0) as [Hm|Hm].
    + exists 0%Q. split; [apply (time_remaining_zero_exp _ _ d Hexp Hm)|].
      assert (e = 0).
      { apply inject_Z_injective. rewrite <- He, (dec_Q_zero d Hm). reflexivity. }
      subst e. replace (Z.max 0 (0 * 1000 - Date_now)) with 0 by lia. reflexivity.
    + rewrite (time_remaining_numeric _ _ d Hexp Hm).
      destruct (Qle_bool 0 (dec_Q d * inject_Z 1000 - inject_Z Date_now)) eqn:B.
      * eexists. split; [reflexivity|]. rewrite E1.
        apply Qle_bool_iff in B. rewrite E1 in B. change 0%Q with (inject_Z 0) in B.
        rewrite <- Zle_Qle in B. rewrite Z.max_r by exact B. reflexivity.
      * eexists. split; [reflexivity|].
        apply Qle_bool_false in B. rewrite E1 in B. change 0%Q with (inject_Z 0) in B.
        rewrite <- Zlt_Qlt in B. rewrite Z.max_l by lia. reflexivity.
Qed.

End TimeLeft.

Lemma time_remaining_spec_witness :
  exists q,
    @Encrypt.getTokenTimeRemaining example_host 1700000000999
      (js "e30.eyJleHAiOjE3MDAwMDAyOTl9.x") = Fin q /\
    (q == inject_Z 298001)%Q.
Proof.
  destruct (proj2 (proj2 (@time_remaining_spec example_host 1700000000999
                            (js "e30.eyJleHAiOjE3MDAwMDAyOTl9.x")))
              (Dec 1700000299 0) 1700000299) as (q & Hq & E).
  - reflexivity.
  - reflexivity.
  - lia.
  - lia.
  - exists q. split; [exact Hq|exact E].
Defined.

Section SecondsLeft.
Context {host : Host}.

Lemma Qfloor_small x : (0 <= x)%Q -> (x < 1)%Q -> Qfloor x = 0.
Proof.
  intros H0 H1.
  assert (L : 0 <= Qfloor x).
  { change 0 with (Qfloor (inject_Z 0)). apply Qfloor_resp_le, H0. }
  assert (U : Qfloor x < 1).
  { rewrite Zlt_Qlt. apply (Qle_lt_trans _ x); [apply Qfloor_le|exact H1]. }
  lia.
Qed.

Lemma Qdiv_1000_pos y : (0 < y)%Q -> (0 < y / inject_Z 1000)%Q.
Proof.
  intros H. apply Qlt_shift_div_l; [reflexivity|]. rewrite Qmult_0_l. exact H.
Qed.

(** The seconds left for a numeric [exp] that the clock has not reached. *)
Lemma expiration_numeric Date_now token d :
  get_prop (Encrypt.decodeTokenPayload token) (js "exp") = Some (JNum d) ->
  (inject_Z Date_now < dec_Q d * inject_Z 1000)%Q ->
  mantissa d <> 0 ->
  Encrypt.getTokenExpiration Date_now token
  = Some (of_int (Qfloor ((dec_Q d * inject_Z 1000 - inject_Z Date_now) / inject_Z 1000))).
Proof.
  intros Hexp Hlt Hm. unfold Encrypt.getTokenExpiration.
  rewrite (time_remaining_numeric Date_now token d Hexp Hm).
  apply (proj2 (Qsub_pos _ _)) in Hlt.
  replace (Qle_bool 0 (dec_Q d * inject_Z 1000 - inject_Z Date_now)) with true
    by (symmetry; apply Qle_bool_iff, Qlt_le_weak, Hlt).
  cbn [num_eq of_int].
  replace (Qeq_bool (dec_Q d * inject_Z 1000 - inject_Z Date_now) (inject_Z 0)) with false.
  - reflexivity.
  - symmetry.
    destruct (Qeq_bool (dec_Q d * inject_Z 1000 - inject_Z Date_now) (inject_Z 0)) eqn:E;
      [|reflexivity].
    apply Qeq_bool_iff in E. rewrite E in Hlt. exfalso. exact (Qlt_irrefl _ Hlt).
Qed.

(** X7. The deprecated [getTokenExpiration] of [encrypt.ts], for a token
    whose [exp] is a whole number of seconds and an instant a Date can
    hold, and a clock that a Date can hold at or after the epoch: [null]
    once the clock has reached [exp * 1000]; before that the whole
    seconds left, never negative, and 0 (not [null]) during the last
    second. *)
Theorem expiration_spec (Date_now e : Z) (token : jsstring) (d : decimal) :
  get_prop (Encrypt.decodeTokenPayload token) (js "exp") = Some (JNum d) ->
  (dec_Q d == inject_Z e)%Q ->
  0 <= Date_now <= 8640000000000000 ->
  -8640000000000 <= e <= 8640000000000 ->
  let left := e * 1000 - Date_now in
  (left <= 0 -> Encrypt.getTokenExpiration Date_now token = None) /\
  (0 < left ->
   Encrypt.getTokenExpiration Date_now token = Some (of_int (left / 1000)) /\
   0 <= left / 1000) /\
  (0 < left < 1000 ->
   Encrypt.getTokenExpiration Date_now token = Some (of_int 0)).
Proof.
  intros Hexp He Hnow Hrange left.
  assert (E1 : (dec_Q d * inject_Z 1000 - inject_Z Date_now == inject_Z left)%Q).
  { rewrite He. unfold left, Qminus, Z.sub.
    rewrite inject_Z_plus, inject_Z_mult, inject_Z_opp. reflexivity. }
  assert (Hpos : 0 < left ->
                 Encrypt.getTokenExpiration Date_now token = Some (of_int (left / 1000))).
  { intros Hlt. rewrite (expiration_numeric Date_now token d Hexp).
    - do 2 f_equal. rewrite E1. apply Qfloor_thousandth.
    - apply Qsub_pos. rewrite E1. change 0%Q with (inject_Z 0).
      rewrite <- Zlt_Qlt. exact Hlt.
    - intros Hm.
      assert (e = 0).
      { apply inject_Z_injective. rewrite <- He, (dec_Q_zero d Hm). reflexivity. }
      unfold left in Hlt. lia. }
  split; [|split].
  - intros Hle. unfold Encrypt.getTokenExpiration.
    destruct (Z.eq_dec (mantissa d) 0) as [Hm|Hm].
    + rewrite (time_remaining_zero_exp Date_now token d Hexp Hm). reflexivity.
    + rewrite (time_remaining_numeric Date_now token d Hexp Hm).
      destruct (Qle_bool 0 (dec_Q d * inject_Z 1000 - inject_Z Date_now)) eqn:B;
        [|reflexivity].
      apply Qle_bool_iff in B. cbn [num_eq of_int].
      replace (Qeq_bool (dec_Q d * inject_Z 1000 - inject_Z Date_now) (inject_Z 0))
        with true; [reflexivity|].
      symmetry. apply Qeq_bool_iff. apply Qle_antisym; [|exact B].
      rewrite E1, <- Zle_Qle. exact Hle.
  - intros Hlt. split; [apply Hpos, Hlt|]. apply Z.div_pos; lia.
  - intros [Hlt Hsmall]. rewrite (Hpos Hlt). rewrite Z.div_small by lia. reflexivity.
Qed.

(** X8. Expiry is monotone in the clock: a token that [isTokenExpired]
    reports expired stays expired at every later reading of the clock,
    whatever the buffer. *)
Theorem isTokenExpired_monotone (Date_now Date_now' : Z) (token : jsstring)
        (bufferMinutes : option number) :
  Date_now <= Date_now' ->
  Encrypt.isTokenExpired Date_now token bufferMinutes = true ->
  Encrypt.isTokenExpired Date_now' token bufferMinutes = true.
Proof.
  intros Hle. unfold Encrypt.isTokenExpired.
  destruct (negb (truthy (Encrypt.decodeTokenPayload token))
            || negb (truthy_opt (get_prop (Encrypt.decodeTokenPayload token) (js "exp"))));
    [reflexivity|].
  destruct (ToNumber (get_prop (Encrypt.decodeTokenPayload token) (js "exp")))
    as [|x]; [discriminate|].
  destruct (num_mul (match bufferMinutes with Some b => b | None => of_int 5 end)
                    (of_int 60)) as [|y]; [discriminate|].
  cbn [num_add of_int num_le]. rewrite !Qle_bool_iff. intros H.
  apply (Qle_trans _ _ _ H). apply Qplus_le_l. rewrite <- Zle_Qle.
  apply Z.div_le_mono; lia.
Qed.

(** X9. A decodable token without an [exp] claim: [isTokenExpired] says
    expired, [getTokenTimeRemaining] says 0, [getTokenExpiryDate] and
    [getTokenExpiration] say [null], [getUserFromToken] gives an invalid
    expiry date, and [getTokenSummary] throws a RangeError. *)
Theorem missing_exp (Date_now1 Date_now2 : Z) (token : jsstring)
        (bufferMinutes : option number) :
  let claims := Encrypt.decodeTokenPayload token in
  truthy claims = true ->
  get_prop claims (js "exp") = None ->
  Encrypt.isTokenExpired Date_now1 token bufferMinutes = true /\
  Encrypt.getTokenTimeRemaining Date_now1 token = of_int 0 /\
  Encrypt.getTokenExpiryDate token = None /\
  Encrypt.getTokenExpiration Date_now1 token = None /\
  (exists user,
      Encrypt.getUserFromToken token = Some user /\
      Encrypt.UserFromToken.expiresAt user = None) /\
  Encrypt.getTokenSummary Date_now1 Date_now2 token = Throw RangeError.
Proof.
  intros claims Ht Hexp.
  assert (Hrem : Encrypt.getTokenTimeRemaining Date_now1 token = of_int 0).
  { unfold Encrypt.getTokenTimeRemaining. fold claims. rewrite Hexp, Ht. reflexivity. }
  split; [|split; [|split; [|split; [|split]]]].
  - unfold Encrypt.isTokenExpired. fold claims. rewrite Hexp, Ht. reflexivity.
  - exact Hrem.
  - unfold Encrypt.getTokenExpiryDate. fold claims. rewrite Hexp, Ht. reflexivity.
  - unfold Encrypt.getTokenExpiration. rewrite Hrem. reflexivity.
  - unfold Encrypt.getUserFromToken. fold claims. rewrite Hexp, Ht. cbn [negb].
    eexists. split; reflexivity.
  - unfold Encrypt.getTokenSummary. fold claims. rewrite Hexp, Ht. reflexivity.
Qed.

End SecondsLeft.

Lemma expiration_spec_witness :
  @Encrypt.getTokenExpiration example_host 1700000298001
    (js "e30.eyJleHAiOjE3MDAwMDAyOTl9.x") = Some (of_int 0).
Proof.
  apply (@expiration_spec example_host 1700000298001 1700000299
           (js "e30.eyJleHAiOjE3MDAwMDAyOTl9.x") (Dec 1700000299 0)).
  - reflexivity.
  - reflexivity.
  - lia.
  - lia.
  - lia.
Defined.

Lemma isTokenExpired_monotone_witness :
  @Encrypt.isTokenExpired example_host 1700000000999
    (js "e30.eyJleHAiOjE3MDAwMDAyOTl9.x") None = true.
Proof.
  apply (@isTokenExpired_monotone example_host 1700000000000 1700000000999
           (js "e30.eyJleHAiOjE3MDAwMDAyOTl9.x") None).
  - lia.
  - reflexivity.
Defined.

Lemma missing_exp_witness :
  @Encrypt.isTokenExpired example_host 1700000000999 (js "e30.e30.x") None = true /\
  @Encrypt.getTokenTimeRemaining example_host 1700000000999 (js "e30.e30.x") = of_int 0 /\
  @Encrypt.getTokenExpiryDate example_host (js "e30.e30.x") = None /\
  @Encrypt.getTokenExpiration example_host 1700000000999 (js "e30.e30.x") = None /\
  (exists user,
      @Encrypt.getUserFromToken example_host (js "e30.e30.x") = Some user /\
      Encrypt.UserFromToken.expiresAt user = None) /\
  @Encrypt.getTokenSummary example_host 1700000000999 1700000001000 (js "e30.e30.x")
  = Throw RangeError.
Proof.
  apply (@missing_exp example_host 1700000000999 1700000001000 (js "e30.e30.x") None).
  - reflexivity.
  - reflexivity.
Defined.

(** ** Mock tokens: structure, lifetime and the two wrappers *)

Lemma value_ok_NoDup u o : value_ok u (JObj o) = true -> NoDup (map fst o).
Proof.
  cbn [value_ok]. intros H. apply andb_true_iff in H. apply distinct_NoDup, H.
Qed.

Ltac full_field Hnd :=
  unfold Encrypt.fullPayload;
  destruct (Encrypt.generateRandomId _) as [? ?];
  match goal with
  | |- context [truthy_opt ?o] =>
      destruct (truthy_opt o); cbn [fst];
      [|destruct (Encrypt.generateRandomId _) as [? ?]; cbn [fst]]
  end;
  rewrite obj_get_spread by exact Hnd.

(** A field that the claims set keeps its value in the full payload. *)
Lemma fullPayload_set Date_now C g k v :
  NoDup (map fst C) -> obj_get C k = Some v ->
  obj_get (fst (Encrypt.fullPayload Date_now C g)) k = Some v.
Proof. intros Hnd Hk. full_field Hnd; rewrite Hk; reflexivity. Qed.

Lemma fullPayload_exp Date_now C g :
  NoDup (map fst C) -> obj_get C (js "exp") = None ->
  obj_get (fst (Encrypt.fullPayload Date_now C g)) (js "exp")
  = Some (JNum (dec_of_Z (Date_now / 1000 + lifetime C))).
Proof. intros Hnd Hk. full_field Hnd; rewrite Hk; reflexivity. Qed.

Lemma fullPayload_iat Date_now C g :
  NoDup (map fst C) -> obj_get C (js "iat") = None ->
  obj_get (fst (Encrypt.fullPayload Date_now C g)) (js "iat")
  = Some (JNum (dec_of_Z (Date_now / 1000))).
Proof. intros Hnd Hk. full_field Hnd; rewrite Hk; reflexivity. Qed.

Lemma fullPayload_sub Date_now C g :
  NoDup (map fst C) -> obj_get C (js "sub") = None ->
  obj_get (fst (Encrypt.fullPayload Date_now C g)) (js "sub")
  = Some (or_else (obj_get C (js "user_id")) (JStr (js "test-user"))).
Proof. intros Hnd Hk. full_field Hnd; rewrite Hk; reflexivity. Qed.

Lemma fullPayload_access_scope Date_now C g :
  NoDup (map fst C) -> obj_get C (js "access_scope") = None ->
  obj_get (fst (Encrypt.fullPayload Date_now C g)) (js "access_scope")
  = Some Encrypt.default_access_scope.
Proof. intros Hnd Hk. full_field Hnd; rewrite Hk; reflexivity. Qed.

Lemma fullPayload_jti Date_now C g :
  NoDup (map fst C) -> obj_get C (js "jti") = None ->
  obj_get (fst (Encrypt.fullPayload Date_now C g)) (js "jti")
  = Some (JStr (fst (Encrypt.generateRandomId g))).
Proof.
  intros Hnd Hk. unfold Encrypt.fullPayload.
  destruct (Encrypt.generateRandomId g) as [jti g1]. cbn [fst].
  destruct (truthy_opt (obj_get C (js "session_id"))); cbn [fst];
    [|destruct (Encrypt.generateRandomId g1) as [? ?]; cbn [fst]];
    rewrite obj_get_spread by exact Hnd; rewrite Hk; reflexivity.
Qed.

(** X10. Every token that [createMockToken] makes has three segments:
    the header [decodeTokenHeader] reads back as HS256/JWT, the claims,
    and the fixed text that stands for the signature. *)
Theorem mock_token_structure (Date_now : Z) (C : list (jsstring * value))
        (g : random_source) :
  value_ok is_byte (JObj C) = true ->
  exists token,
    fst (Encrypt.createMockToken Date_now C g) = Ok token /\
    Encrypt.decodeTokenHeader token
    = JObj [(js "alg", JStr (js "HS256")); (js "typ", JStr (js "JWT"))] /\
    length (split (code "."%char) token) = 3%nat /\
    nth 2 (split (code "."%char) token) [] = js "UNSIGNED_TOKEN_FOR_TESTING_ONLY".
Proof.
  intros HC. destruct (mock_token_decodes Date_now C g HC) as (token & H1 & _ & H2 & H3 & H4).
  exists token. repeat split; assumption.
Qed.

Lemma mock_token_structure_witness :
  exists token,
    fst (Encrypt.createMockToken 1700000000123 [(js "user_id", JStr (js "u1"))]
           example_random) = Ok token /\
    Encrypt.decodeTokenHeader token
    = JObj [(js "alg", JStr (js "HS256")); (js "typ", JStr (js "JWT"))] /\
    length (split (code "."%char) token) = 3%nat /\
    nth 2 (split (code "."%char) token) [] = js "UNSIGNED_TOKEN_FOR_TESTING_ONLY".
Proof.
  apply (mock_token_structure 1700000000123 [(js "user_id", JStr (js "u1"))] example_random).
  reflexivity.
Defined.

Section MockExpiry.
Context {host : Host}.

(** X11. A mock token whose claims leave [exp] out, made at the clock
    [made], is reported expired by [isTokenExpired] with its default
    buffer exactly from 5 minutes before the end of its lifetime: at a
    clock [now] with [made/1000 + lifetime <= now/1000 + 300].  In
    particular it is not expired when it is made. *)
Theorem mock_token_expiry (made now : Z) (C : list (jsstring * value))
        (g : random_source) :
  0 <= made -> 0 <= now ->
  value_ok is_byte (JObj C) = true ->
  obj_get C (js "exp") = None ->
  exists token,
    fst (Encrypt.createMockToken made C g) = Ok token /\
    (Encrypt.isTokenExpired now token None = true
     <-> made / 1000 + lifetime C <= now / 1000 + 300) /\
    Encrypt.isTokenExpired made token None = false.
Proof.
  intros Hmade Hnow HC Hexp.
  destruct (mock_token_decodes made C g HC) as (token & Htok & Hdec & _).
  exists token. split; [exact Htok|].
  assert (Hget : get_prop (Encrypt.decodeTokenPayload token) (js "exp")
                 = Some (JNum (dec_of_Z (made / 1000 + lifetime C)))).
  { rewrite Hdec. cbn [get_prop].
    apply fullPayload_exp; [apply (value_ok_NoDup is_byte), HC|exact Hexp]. }
  assert (Hiff : forall t, 0 <= t ->
             Encrypt.isTokenExpired t token None = true
             <-> made / 1000 + lifetime C <= t / 1000 + 300).
  { intros t Ht. rewrite (isTokenExpired_numeric t token _ Ht Hget).
    rewrite dec_Q_of_Z, <- Zle_Qle. reflexivity. }
  split; [apply Hiff, Hnow|].
  destruct (Encrypt.isTokenExpired made token None) eqn:B; [|reflexivity].
  exfalso. apply (Hiff made Hmade) in B. unfold lifetime in B.
  destruct (Encrypt.strict_eq_string _ _); lia.
Qed.

End MockExpiry.

Lemma mock_token_expiry_witness :
  exists token,
    fst (Encrypt.createMockToken 1700000000123 [(js "user_id", JStr (js "u1"))]
           example_random) = Ok token /\
    (@Encrypt.isTokenExpired example_host 1700001500000 token None = true
     <-> 1700000000123 / 1000 + lifetime [(js "user_id", JStr (js "u1"))]
         <= 1700001500000 / 1000 + 300) /\
    @Encrypt.isTokenExpired example_host 1700000000123 token None = false.
Proof.
  apply (@mock_token_expiry example_host 1700000000123 1700001500000
           [(js "user_id", JStr (js "u1"))] example_random).
  - lia.
  - lia.
  - reflexivity.
  - reflexivity.
Defined.

Lemma string_or_bytes s d :
  match s with Some r => forallb is_byte r | None => true end = true ->
  forallb is_byte d = true ->
  forallb is_byte (Encrypt.string_or s d) = true.
Proof. destruct s as [[|c r]|]; intros Hs Hd; assumption. Qed.

Lemma user_ok_parts u :
  user_ok u = true ->
  forallb is_byte (Encrypt.UserInfo.userId u) = true /\
  forallb is_byte (Encrypt.string_or (Encrypt.UserInfo.roleProfile u)
                     (js "Healthcare Provider")) = true /\
  value_ok is_byte
    (JObj (obj_spread Encrypt.access_scope_literal
             (match Encrypt.UserInfo.accessScope u with Some o => o | None => [] end)))
  = true /\
  match Encrypt.UserInfo.sessionId u with
  | Some s => forallb is_byte s
  | None => true
  end = true.
Proof.
  unfold user_ok. intros H.
  apply andb_true_iff in H. destruct H as [H Hs].
  apply andb_true_iff in H. destruct H as [H Ha].
  apply andb_true_iff in H. destruct H as [Hu Hr].
  split; [exact Hu|]. split; [apply string_or_bytes; [exact Hr|reflexivity]|].
  split; [|exact Hs].
  apply obj_spread_ok; [reflexivity|].
  destruct (Encrypt.UserInfo.accessScope u) as [o|]; [|reflexivity].
  cbn [value_ok] in Ha. apply andb_true_iff in Ha. apply Ha.
Qed.

(** X12. [createMockAccessToken] makes a token that decodes to the user's
    id, role and scope, with [token_type] ["access"] and an expiry 30
    minutes after [iat]; [sub] is the user's id, or the placeholder when
    the id is empty. *)
Theorem mock_access_token (Date_now : Z) (userInfo : Encrypt.UserInfo.t)
        (g : random_source) :
  user_ok userInfo = true ->
  exists token,
    fst (Encrypt.createMockAccessToken Date_now userInfo g) = Ok token /\
    let claims := Encrypt.decodeTokenPayload token in
    get_prop claims (js "user_id") = Some (JStr (Encrypt.UserInfo.userId userInfo)) /\
    get_prop claims (js "sub")
    = Some (JStr (Encrypt.string_or (Some (Encrypt.UserInfo.userId userInfo))
                    (js "test-user"))) /\
    get_prop claims (js "role_profile")
    = Some (JStr (Encrypt.string_or (Encrypt.UserInfo.roleProfile userInfo)
                    (js "Healthcare Provider"))) /\
    get_prop claims (js "access_scope")
    = Some (JObj (obj_spread Encrypt.access_scope_literal
                    (match Encrypt.UserInfo.accessScope userInfo with
                     | Some o => o
                     | None => []
                     end))) /\
    get_prop claims (js "token_type") = Some (JStr (js "access")) /\
    get_prop claims (js "iat") = Some (JNum (dec_of_Z (Date_now / 1000))) /\
    get_prop claims (js "exp") = Some (JNum (dec_of_Z (Date_now / 1000 + 30 * 60))).
Proof.
  intros Hu. destruct (user_ok_parts userInfo Hu) as (Hid & Hrole & Hscope & _).
  unfold Encrypt.createMockAccessToken.
  set (C := [(js "user_id", JStr (Encrypt.UserInfo.userId userInfo));
             (js "role_profile", _); (js "access_scope", _); (js "token_type", _)]).
  assert (HC : value_ok is_byte (JObj C) = true).
  { unfold C. cbn [value_ok map fst snd forallb] in *.
    rewrite Hid, Hrole, Hscope. reflexivity. }
  destruct (mock_token_decodes Date_now C g HC) as (token & Htok & Hdec & _).
  exists token. split; [exact Htok|]. cbv zeta. rewrite Hdec. cbn [get_prop].
  pose proof (value_ok_NoDup is_byte C HC) as Hnd.
  split; [apply fullPayload_set; [exact Hnd|reflexivity]|].
  split.
  { rewrite fullPayload_sub by (try exact Hnd; reflexivity).
    destruct (Encrypt.UserInfo.userId userInfo) as [|c s]; reflexivity. }
  split; [apply fullPayload_set; [exact Hnd|reflexivity]|].
  split; [apply fullPayload_set; [exact Hnd|reflexivity]|].
  split; [apply fullPayload_set; [exact Hnd|reflexivity]|].
  split; [apply fullPayload_iat; [exact Hnd|reflexivity]|].
  rewrite fullPayload_exp by (try exact Hnd; reflexivity). reflexivity.
Qed.

Lemma mock_access_token_witness :
  let u := {| Encrypt.UserInfo.userId := js "u1";
              Encrypt.UserInfo.roleProfile := None;
              Encrypt.UserInfo.accessScope := Some [(js "region", JStr (js "EA"))];
              Encrypt.UserInfo.sessionId := None |} in
  exists token,
    fst (Encrypt.createMockAccessToken 1700000000123 u example_random) = Ok token /\
    get_prop (Encrypt.decodeTokenPayload token) (js "user_id") = Some (JStr (js "u1")) /\
    get_prop (Encrypt.decodeTokenPayload token) (js "exp")
    = Some (JNum (dec_of_Z (1700000000123 / 1000 + 30 * 60))).
Proof.
  intros u.
  destruct (mock_access_token 1700000000123 u example_random)
    as (token & Htok & Hid & _ & _ & _ & _ & _ & Hexp).
  - reflexivity.
  - exists token. split; [exact Htok|]. split; [exact Hid|exact Hexp].
Defined.

(** X13. [createMockRefreshToken] makes a token with [token_type]
    ["refresh"] and an expiry 24 hours after [iat].  Its [session_id] is
    the one given, or else an identifier drawn before [jti] is: the
    source is read for [session_id] first and for [jti] after it. *)
Theorem mock_refresh_token (Date_now : Z) (userInfo : Encrypt.UserInfo.t)
        (g : random_source) :
  user_ok userInfo = true ->
  exists token,
    fst (Encrypt.createMockRefreshToken Date_now userInfo g) = Ok token /\
    let claims := Encrypt.decodeTokenPayload token in
    let drawn := match Encrypt.UserInfo.sessionId userInfo with
                 | Some (_ :: _) => false
                 | _ => true
                 end in
    get_prop claims (js "user_id") = Some (JStr (Encrypt.UserInfo.userId userInfo)) /\
    get_prop claims (js "token_type") = Some (JStr (js "refresh")) /\
    get_prop claims (js "iat") = Some (JNum (dec_of_Z (Date_now / 1000))) /\
    get_prop claims (js "exp")
    = Some (JNum (dec_of_Z (Date_now / 1000 + 24 * 60 * 60))) /\
    get_prop claims (js "session_id")
    = Some (JStr (Encrypt.string_or (Encrypt.UserInfo.sessionId userInfo)
                    (fst (Encrypt.generateRandomId g)))) /\
    get_prop claims (js "jti")
    = Some (JStr (fst (Encrypt.generateRandomId
                         (if drawn then snd (Encrypt.generateRandomId g) else g)))) /\
    get_prop claims (js "access_scope") = Some Encrypt.default_access_scope.
Proof.
  intros Hu. destruct (user_ok_parts userInfo Hu) as (Hid & Hrole & _ & Hsid).
  unfold Encrypt.createMockRefreshToken.
  assert (Hdraw :
    match Encrypt.UserInfo.sessionId userInfo with
    | Some (c :: s) => (c :: s, g)
    | _ => Encrypt.generateRandomId g
    end
    = (Encrypt.string_or (Encrypt.UserInfo.sessionId userInfo)
         (fst (Encrypt.generateRandomId g)),
       if match Encrypt.UserInfo.sessionId userInfo with
          | Some (_ :: _) => false
          | _ => true
          end
       then snd (Encrypt.generateRandomId g) else g)).
  { destruct (Encrypt.UserInfo.sessionId userInfo) as [[|c s]|]; cbn [Encrypt.string_or];
      try reflexivity; destruct (Encrypt.generateRandomId g); reflexivity. }
  rewrite Hdraw. clear Hdraw.
  set (sid := Encrypt.string_or (Encrypt.UserInfo.sessionId userInfo)
                (fst (Encrypt.generateRandomId g))).
  set (g1 := if match Encrypt.UserInfo.sessionId userInfo with
                | Some (_ :: _) => false
                | _ => true
                end
             then snd (Encrypt.generateRandomId g) else g).
  assert (Hsidb : forallb is_byte sid = true).
  { apply string_or_bytes; [exact Hsid|apply generateRandomId_bytes]. }
  set (C := [(js "user_id", JStr (Encrypt.UserInfo.userId userInfo));
             (js "role_profile", _); (js "session_id", JStr sid); (js "token_type", _)]).
  assert (HC : value_ok is_byte (JObj C) = true).
  { unfold C. cbn [value_ok map fst snd forallb] in *.
    rewrite Hid, Hrole, Hsidb. reflexivity. }
  destruct (mock_token_decodes Date_now C g1 HC) as (token & Htok & Hdec & _).
  exists token. split; [exact Htok|]. cbv zeta. rewrite Hdec. cbn [get_prop].
  pose proof (value_ok_NoDup is_byte C HC) as Hnd.
  split; [apply fullPayload_set; [exact Hnd|reflexivity]|].
  split; [apply fullPayload_set; [exact Hnd|reflexivity]|].
  split; [apply fullPayload_iat; [exact Hnd|reflexivity]|].
  split; [rewrite fullPayload_exp by (try exact Hnd; reflexivity); reflexivity|].
  split; [apply fullPayload_set; [exact Hnd|reflexivity]|].
  split; [apply fullPayload_jti; [exact Hnd|reflexivity]|].
  apply fullPayload_access_scope; [exact Hnd|reflexivity].
Qed.

Lemma mock_refresh_token_witness :
  let u := {| Encrypt.UserInfo.userId := js "u1";
              Encrypt.UserInfo.roleProfile := Some (js "Nurse");
              Encrypt.UserInfo.accessScope := None;
              Encrypt.UserInfo.sessionId := None |} in
  exists token,
    fst (Encrypt.createMockRefreshToken 1700000000123 u example_random) = Ok token /\
    get_prop (Encrypt.decodeTokenPayload token) (js "token_type")
    = Some (JStr (js "refresh")) /\
    get_prop (Encrypt.decodeTokenPayload token) (js "exp")
    = Some (JNum (dec_of_Z (1700000000123 / 1000 + 24 * 60 * 60))).
Proof.
  intros u.
  destruct (mock_refresh_token 1700000000123 u example_random)
    as (token & Htok & _ & Htype & _ & Hexp & _).
  - reflexivity.
  - exists token. split; [exact Htok|]. split; [exact Htype|exact Hexp].
Defined.

Section MockUser.
Context {host : Host}.

(** The date of a whole number of seconds. *)
Lemma TimeClip_seconds n :
  - 8640000000000000 <= n * 1000 <= 8640000000000000 ->
  TimeClip (num_mul (Fin (dec_Q (dec_of_Z n))) (of_int 1000)) = Some (n * 1000).
Proof.
  intros Hn. cbn [num_mul of_int TimeClip].
  assert (E : (dec_Q (dec_of_Z n) * inject_Z 1000 == inject_Z (n * 1000))%Q).
  { rewrite dec_Q_of_Z, inject_Z_mult. reflexivity. }
  assert (R : Qle_bool (Qabs (dec_Q (dec_of_Z n) * inject_Z 1000))
                       (inject_Z 8640000000000000) = true).
  { apply Qle_bool_iff. rewrite E. rewrite Qabs_Qle_condition.
    change (- inject_Z 8640000000000000)%Q with (inject_Z (- 8640000000000000)).
    rewrite <- !Zle_Qle. lia. }
  rewrite R. f_equal.
  destruct (Qle_bool 0 (dec_Q (dec_of_Z n) * inject_Z 1000)).
  - rewrite E. apply Qfloor_Z.
  - rewrite E. apply Qceiling_Z.
Qed.

(** X14. [getUserFromToken] on a mock token whose claims leave [iat] and
    [exp] out: the user has the token's [user_id], the type ["access"]
    unless the claims give one, a date of issue at the whole second of
    the clock and a date of expiry one lifetime later. *)
Theorem user_of_mock_token (Date_now : Z) (C : list (jsstring * value))
        (g : random_source) :
  0 <= Date_now <= 8640000000000000 - 86400000 ->
  value_ok is_byte (JObj C) = true ->
  obj_get C (js "iat") = None -> obj_get C (js "exp") = None ->
  exists token user,
    fst (Encrypt.createMockToken Date_now C g) = Ok token /\
    Encrypt.getUserFromToken token = Some user /\
    Encrypt.UserFromToken.userId user
    = Some (match obj_get C (js "user_id") with
            | Some v => v
            | None => JStr (js "test-user@example.com")
            end) /\
    Encrypt.UserFromToken.tokenType user
    = or_else (obj_get C (js "token_type")) (JStr (js "access")) /\
    Encrypt.UserFromToken.issuedAt user = Some (Date_now / 1000 * 1000) /\
    Encrypt.UserFromToken.expiresAt user
    = Some ((Date_now / 1000 + lifetime C) * 1000).
Proof.
  intros Hnow HC Hiat Hexp.
  destruct (mock_token_decodes Date_now C g HC) as (token & Htok & Hdec & _).
  pose proof (value_ok_NoDup is_byte C HC) as Hnd.
  exists token. unfold Encrypt.getUserFromToken. rewrite Hdec.
  cbn [truthy negb get_prop]. eexists. split; [exact Htok|]. split; [reflexivity|].
  cbn [Encrypt.UserFromToken.userId Encrypt.UserFromToken.tokenType
       Encrypt.UserFromToken.issuedAt Encrypt.UserFromToken.expiresAt].
  rewrite (fullPayload_iat Date_now C g Hnd Hiat), (fullPayload_exp Date_now C g Hnd Hexp).
  cbn [ToNumber].
  assert (Hs : 0 <= Date_now / 1000 /\ Date_now / 1000 * 1000 <= Date_now).
  { split; [apply Z.div_pos; lia|]. pose proof (Z.mul_div_le Date_now 1000). lia. }
  assert (Hl : 0 <= lifetime C <= 86400).
  { unfold lifetime. destruct (Encrypt.strict_eq_string _ _); lia. }
  rewrite !TimeClip_seconds by lia.
  split; [|split; [|split; reflexivity]].
  - destruct (obj_get C (js "user_id")) as [v|] eqn:E.
    + apply fullPayload_set; assumption.
    + full_field Hnd; rewrite E; reflexivity.
  - destruct (obj_get C (js "token_type")) as [v|] eqn:E.
    + rewrite (fullPayload_set Date_now C g _ v Hnd E). reflexivity.
    + replace (obj_get (fst (Encrypt.fullPayload Date_now C g)) (js "token_type"))
        with (Some (JStr (js "access"))); [reflexivity|].
      symmetry. full_field Hnd; rewrite E; reflexivity.
Qed.

End MockUser.

Lemma user_of_mock_token_witness :
  exists token user,
    fst (Encrypt.createMockToken 1700000000123 [(js "user_id", JStr (js "u1"))]
           example_random) = Ok token /\
    @Encrypt.getUserFromToken example_host token = Some user /\
    Encrypt.UserFromToken.userId user = Some (JStr (js "u1")) /\
    Encrypt.UserFromToken.issuedAt user = Some 1700000000000 /\
    Encrypt.UserFromToken.expiresAt user = Some 1700001800000.
Proof.
  destruct (@user_of_mock_token example_host 1700000000123
              [(js "user_id", JStr (js "u1"))] example_random)
    as (token & user & Htok & Huser & Hid & _ & Hiat & Hexp).
  - lia.
  - reflexivity.
  - reflexivity.
  - reflexivity.
  - exists token, user. repeat split; assumption.
Defined.

(** ** Random identifiers *)

Lemma digit36_base36 d : is_base36 (digit36 d) = true.
Proof.
  unfold digit36, is_base36. cbv zeta.
  pose proof (Z.mod_pos_bound d 36 ltac:(lia)). destruct (d mod 36 <? 10) eqn:E; lia.
Qed.

Lemma random_fraction g :
  forallb is_base36 (substring 2 15 (fst (Math_random_toString36 g))) = true /\
  (length (substring 2 15 (fst (Math_random_toString36 g))) <= 13)%nat.
Proof.
  unfold Math_random_toString36, substring. cbn [fst].
  split.
  - destruct (tape g (position g)) as [|d ds]; [reflexivity|].
    change (skipn 2 (js "0." ++ map digit36 (d :: ds))) with (map digit36 (d :: ds)).
    apply forallb_firstn. generalize (d :: ds). intros l.
    induction l as [|x l IH]; [reflexivity|].
    cbn [map forallb]. rewrite digit36_base36, IH. reflexivity.
  - apply firstn_le_length.
Qed.

(** X15. An identifier of [generateRandomId] has at most 26 characters,
    all of them digits or lower-case letters, and costs two readings of
    the random source. *)
Theorem generateRandomId_shape (g : random_source) :
  forallb is_base36 (fst (Encrypt.generateRandomId g)) = true /\
  (length (fst (Encrypt.generateRandomId g)) <= 26)%nat /\
  position (snd (Encrypt.generateRandomId g)) = (position g + 2)%nat /\
  tape (snd (Encrypt.generateRandomId g)) = tape g.
Proof.
  unfold Encrypt.generateRandomId.
  pose proof (random_fraction g) as [B1 L1].
  pose proof (random_fraction (snd (Math_random_toString36 g))) as [B2 L2].
  destruct (Math_random_toString36 g) as [s1 g1] eqn:E1.
  destruct (Math_random_toString36 g1) as [s2 g2] eqn:E2.
  cbn [fst snd] in *. rewrite E2 in B2, L2. cbn [fst] in B2, L2.
  split; [rewrite forallb_app, B1, B2; reflexivity|].
  split; [rewrite length_app; lia|].
  unfold Math_random_toString36 in E1, E2.
  injection E1 as _ <-. injection E2 as _ <-. cbn [position tape].
  split; [lia|reflexivity].
Qed.

(** ** The envelope: missing keys and the shape of a transport string *)

Section EnvelopeEdges.
Context {crypto : Forge.Crypto}.

(** X16. Without a public key [encryptDataWithRSA_AES] throws [Public key
    is not defined], but only after it has drawn the key and the IV: the
    generator is left 48 bytes further.  Without a private key
    [decryptDataWithRSA_AES] throws [Private key is not defined] before it
    looks at its input. *)
Theorem missing_keys (payload : value) (encrypted : jsstring) (g : Forge.prng) :
  well_formed payload = true ->
  fst (Envelope.encryptDataWithRSA_AES payload [] g)
  = Throw (Error "Public key is not defined") /\
  Forge.cursor (snd (Envelope.encryptDataWithRSA_AES payload [] g))
  = (Forge.cursor g + 48)%nat /\
  Forge.bytes_tape (snd (Envelope.encryptDataWithRSA_AES payload [] g))
  = Forge.bytes_tape g /\
  Envelope.decryptDataWithRSA_AES encrypted []
  = Throw (Error "Private key is not defined").
Proof.
  intros Hwf.
  destruct (well_formed_serializable payload Hwf) as (data & Henc & _).
  unfold Envelope.encryptDataWithRSA_AES, bind_rand, draw, lift_result, ret, throw.
  cbn [Forge.getBytesSync fst snd]. rewrite Henc. cbn [fst snd Forge.cursor Forge.bytes_tape].
  repeat split. lia.
Qed.

(** X17. A transport string is a base64 text: its length is a multiple of
    4, its characters are those of the base64 alphabet and the padding
    sign, and it decodes to a text made of exactly three parts separated
    by colons. *)
Theorem transport_shape (payload : value) (pem : jsstring) (g : Forge.prng)
        (t : jsstring) :
  fst (Envelope.encryptDataWithRSA_AES payload pem g) = Ok t ->
  (length t mod 4 = 0)%nat /\
  (forall c, In c t -> (exists v, Base64.index c = Some v) \/ c = code "="%char) /\
  length (split (code ":"%char) (Forge.decode64 t)) = 3%nat.
Proof.
  intros H. apply encrypt_inv in H.
  destruct H as (pk & data & wk & wi & _ & _ & _ & _ & _ & ->).
  unfold Envelope.transport_format.
  set (ct := Forge.aes_cbc_encrypt (Envelope.key_of g) (Envelope.iv_of g) data).
  assert (B : forallb is_byte
                (Base64.encode wk ++ js ":" ++ Base64.encode wi ++ js ":"
                 ++ Base64.encode ct) = true).
  { change (js ":") with [58].
    repeat (apply bytes_app; split); try apply encode_is_bytes; reflexivity. }
  split; [|split].
  - rewrite (encode_length _ B). rewrite Nat.mul_comm. apply Nat.Div0.mod_mul.
  - intros c Hc. apply encode_chars in Hc. exact Hc.
  - change (Forge.decode64 (Base64.encode ?x)) with (Forge.decode64 (Forge.encode64 x)).
    rewrite (decode64_encode64 _ B). change (code ":"%char) with 58.
    change (js ":") with [58]. cbn [app].
    rewrite !split_app by apply encode_no_colon.
    rewrite split_none by apply encode_no_colon. reflexivity.
Qed.

End EnvelopeEdges.

Lemma missing_keys_witness :
  fst (@Envelope.encryptDataWithRSA_AES example_crypto example_payload [] example_prng)
  = Throw (Error "Public key is not defined") /\
  Forge.cursor (snd (@Envelope.encryptDataWithRSA_AES example_crypto example_payload []
                       example_prng))
  = (Forge.cursor example_prng + 48)%nat.
Proof.
  destruct (@missing_keys example_crypto example_payload [] example_prng)
    as (H1 & H2 & _).
  - reflexivity.
  - split; assumption.
Defined.

Lemma transport_shape_witness :
  (length example_transport mod 4 = 0)%nat /\
  (forall c, In c example_transport ->
             (exists v, Base64.index c = Some v) \/ c = code "="%char) /\
  length (split (code ":"%char) (Forge.decode64 example_transport)) = 3%nat.
Proof.
  apply (@transport_shape example_crypto example_payload (js " PUBLIC 7 ")
           example_prng example_transport).
  vm_compute. reflexivity.
Defined.

(** ** The segment codec: padded input and the length of the output *)

Lemma encode_std_chars s : ~ In 45 (Base64.encode s) /\ ~ In 95 (Base64.encode s).
Proof.
  split; intros Hin; apply encode_chars in Hin;
    destruct Hin as [[v Hv]|E]; discriminate.
Qed.

Lemma base64UrlDecode_encode s :
  forallb is_byte s = true -> Encrypt.base64UrlDecode (Base64.encode s) = Ok s.
Proof.
  intros B. unfold Encrypt.base64UrlDecode.
  change (code "-"%char) with 45. change (code "_"%char) with 95.
  destruct (encode_std_chars s) as [H45 H95].
  rewrite (replace_all_absent 45 _ _ H45), (replace_all_absent 95 _ _ H95).
  rewrite (pad_loop_spec (Base64.encode s) 0).
  - cbn [repeat]. rewrite app_nil_r. apply atob_encode, B.
  - lia.
  - rewrite Nat.add_0_r, (encode_length s B), Nat.mul_comm. apply Nat.Div0.mod_mul.
Qed.

(** X18. [base64UrlDecode] also reads standard, padded base64: it takes
    what [btoa] returns for a string back to that string. *)
Theorem base64UrlDecode_standard (s e : jsstring) :
  btoa s = Ok e -> Encrypt.base64UrlDecode e = Ok s.
Proof.
  unfold btoa. destruct (forallb is_byte s) eqn:B; [|discriminate].
  intros H. injection H as <-. apply base64UrlDecode_encode, B.
Qed.

Lemma base64UrlDecode_standard_witness :
  Encrypt.base64UrlDecode (js "Pz4/Pg==") = Ok (js "?>?>").
Proof. apply (base64UrlDecode_standard (js "?>?>") (js "Pz4/Pg==")). reflexivity. Defined.

Lemma sextets_count s :
  length (Base64.sextets s) = ((4 * length s + 2) / 3)%nat.
Proof.
  induction s as [| a | a b | a b c l IH] using list_ind3; try reflexivity.
  cbn [Base64.sextets length]. rewrite IH.
  replace (4 * S (S (S (length l))) + 2)%nat with (4 * length l + 2 + 4 * 3)%nat by lia.
  rewrite Nat.div_add by lia. lia.
Qed.

(** X19. [base64UrlEncode] throws an InvalidCharacterError exactly when
    its argument has a character above 255; otherwise it returns a text
    of as many characters as 6-bit groups are needed for the bytes, with
    no padding: a third more, rounded up. *)
Theorem base64UrlEncode_length (s : jsstring) :
  (forallb is_byte s = false ->
   Encrypt.base64UrlEncode s = Throw InvalidCharacterError) /\
  (forallb is_byte s = true ->
   exists e,
     Encrypt.base64UrlEncode s = Ok e /\
     length e = ((4 * length s + 2) / 3)%nat).
Proof.
  split; intros H.
  - unfold Encrypt.base64UrlEncode, btoa. rewrite H. reflexivity.
  - eexists. split; [apply base64UrlEncode_bytes, H|].
    rewrite !length_map. apply sextets_count.
Qed.

(** ** The application context: the private key stays in memory *)

Lemma obj_rest_cons k kv o :
  AppContext.obj_rest k (kv :: o)
  = if str_eqb (fst kv) k then AppContext.obj_rest k o
    else kv :: AppContext.obj_rest k o.
Proof.
  unfold AppContext.obj_rest. cbn [filter]. destruct (str_eqb (fst kv) k); reflexivity.
Qed.

Lemma obj_rest_absent k o : obj_get (AppContext.obj_rest k o) k = None.
Proof.
  induction o as [|[k' v'] o IH]; [reflexivity|].
  rewrite obj_rest_cons. cbn [fst]. destruct (str_eqb k' k) eqn:E; [exact IH|].
  cbn [obj_get]. rewrite E. exact IH.
Qed.

Lemma obj_rest_other k o k' :
  k' <> k -> obj_get (AppContext.obj_rest k o) k' = obj_get o k'.
Proof.
  intros Hne. induction o as [|[k1 v1] o IH]; [reflexivity|].
  rewrite obj_rest_cons. cbn [fst obj_get].
  destruct (str_eqb k1 k) eqn:E.
  - apply str_eqb_eq in E. subst k1.
    rewrite (str_eqb_neq k k') by congruence. exact IH.
  - cbn [obj_get]. destruct (str_eqb k1 k'); [reflexivity|exact IH].
Qed.

Lemma obj_rest_keys x k o :
  existsb (str_eqb x) (map fst (AppContext.obj_rest k o)) = true ->
  existsb (str_eqb x) (map fst o) = true.
Proof.
  induction o as [|[k1 v1] o IH]; [discriminate|].
  rewrite obj_rest_cons. cbn [fst map existsb].
  destruct (str_eqb k1 k); cbn [map fst existsb]; intros H.
  - rewrite (IH H). apply orb_true_r.
  - apply orb_true_iff in H. destruct H as [->|H]; [reflexivity|].
    rewrite (IH H). apply orb_true_r.
Qed.

Lemma obj_rest_distinct k o :
  distinct (map fst o) = true -> distinct (map fst (AppContext.obj_rest k o)) = true.
Proof.
  induction o as [|[k1 v1] o IH]; [reflexivity|].
  cbn [map fst distinct]. intros H. apply andb_true_iff in H. destruct H as [Hf Hd].
  rewrite obj_rest_cons. cbn [fst]. destruct (str_eqb k1 k).
  - apply IH, Hd.
  - cbn [map fst distinct]. rewrite (IH Hd), andb_true_r.
    apply negb_true_iff in Hf. apply negb_true_iff.
    destruct (existsb (str_eqb k1) (map fst (AppContext.obj_rest k o))) eqn:E;
      [|reflexivity].
    apply obj_rest_keys in E. congruence.
Qed.

Lemma obj_rest_members (f : jsstring * value -> bool) k o :
  forallb f o = true -> forallb f (AppContext.obj_rest k o) = true.
Proof.
  induction o as [|kv o IH]; [reflexivity|].
  cbn [forallb]. intros H. apply andb_true_iff in H. destruct H as [Hkv Hm].
  rewrite obj_rest_cons. destruct (str_eqb (fst kv) k); [apply IH, Hm|].
  cbn [forallb]. rewrite Hkv. apply IH, Hm.
Qed.

Lemma obj_rest_ok u k o :
  value_ok u (JObj o) = true -> value_ok u (JObj (AppContext.obj_rest k o)) = true.
Proof.
  cbn [value_ok]. intros H. apply andb_true_iff in H. destruct H as [Hd Hm].
  rewrite (obj_rest_distinct k o Hd). cbn [andb]. apply obj_rest_members, Hm.
Qed.

(** X20. What is persisted never holds the private key: for every state,
    the text stored under [encryptionState] parses to an object that has
    no [privateKey] and every other field of the state. *)
Theorem persisted_without_private_key (encryptionState : list (jsstring * value)) :
  well_formed (JObj encryptionState) = true ->
  exists saved,
    JSON_parse (AppContext.persistedEncryptionState encryptionState) = Ok (JObj saved) /\
    obj_get saved (js "privateKey") = None /\
    forall k, k <> js "privateKey" -> obj_get saved k = obj_get encryptionState k.
Proof.
  intros Hwf. exists (AppContext.obj_rest (js "privateKey") encryptionState).
  split; [|split].
  - unfold AppContext.persistedEncryptionState. cbv zeta.
    apply JSON_roundtrip. unfold well_formed in *. apply obj_rest_ok, Hwf.
  - apply obj_rest_absent.
  - intros k Hk. apply obj_rest_other, Hk.
Qed.

Lemma persisted_without_private_key_witness :
  exists saved,
    JSON_parse (AppContext.persistedEncryptionState
                  [(js "text", JStr (js "hi")); (js "privateKey", JStr (js "SECRET"))])
    = Ok (JObj saved) /\
    obj_get saved (js "privateKey") = None.
Proof.
  destruct (persisted_without_private_key
              [(js "text", JStr (js "hi")); (js "privateKey", JStr (js "SECRET"))])
    as (saved & H1 & H2 & _).
  - reflexivity.
  - exists saved. split; assumption.
Defined.

Lemma obj_set_distinct o k v :
  distinct (map fst o) = true -> distinct (map fst (obj_set o k v)) = true.
Proof.
  induction o as [|[k' v'] o IH]; [reflexivity|].
  cbn [map fst distinct]. intros H. apply andb_true_iff in H. destruct H as [Hf Hd].
  cbn [obj_set]. destruct (str_eqb k' k) eqn:E; cbn [map fst distinct].
  - rewrite Hf, Hd. reflexivity.
  - rewrite keys_obj_set, E, orb_false_r, Hf, (IH Hd). reflexivity.
Qed.

Lemma obj_spread_keeps_distinct p : forall o,
  distinct (map fst o) = true -> distinct (map fst (obj_spread o p)) = true.
Proof.
  induction p as [|[k v] p IH]; intros o Ho; [exact Ho|].
  unfold obj_spread. cbn [fold_left fst snd].
  apply (IH (obj_set o k v)), obj_set_distinct, Ho.
Qed.

Lemma obj_spread_nil o : distinct (map fst o) = true -> obj_spread [] o = o.
Proof. intros H. apply (obj_spread_distinct o []). exact H. Qed.

(** ** The state objects of the provider *)

Lemma prop_get_set_same o k v :
  AppContext.prop_get (AppContext.prop_set o k v) k = Some v.
Proof.
  induction o as [|[k' v'] o IH]; cbn [AppContext.prop_set AppContext.prop_get].
  - rewrite str_eqb_refl. reflexivity.
  - destruct (str_eqb k' k) eqn:E; cbn [AppContext.prop_get]; rewrite E;
      [reflexivity|exact IH].
Qed.

Lemma prop_get_set_other o k v k' :
  k' <> k -> AppContext.prop_get (AppContext.prop_set o k v) k' = AppContext.prop_get o k'.
Proof.
  intros Hne. induction o as [|[k0 v0] o IH]; cbn [AppContext.prop_set AppContext.prop_get].
  - rewrite str_eqb_neq by congruence. reflexivity.
  - destruct (str_eqb k0 k) eqn:E; cbn [AppContext.prop_get].
    + apply str_eqb_eq in E. subst k0.
      rewrite !str_eqb_neq by congruence. reflexivity.
    + rewrite IH. reflexivity.
Qed.

Lemma prop_get_absent o k :
  existsb (str_eqb k) (map fst o) = false -> AppContext.prop_get o k = None.
Proof.
  induction o as [|[k' v'] o IH]; [reflexivity|].
  cbn [map fst existsb AppContext.prop_get]. intros H.
  apply orb_false_iff in H. destruct H as [H0 H].
  rewrite str_eqb_sym, H0. apply IH, H.
Qed.

Lemma keys_prop_set o k v x :
  existsb (str_eqb x) (map fst (AppContext.prop_set o k v))
  = existsb (str_eqb x) (map fst o) || str_eqb x k.
Proof.
  induction o as [|[k' v'] o IH]; cbn [AppContext.prop_set map fst existsb].
  - apply orb_comm.
  - destruct (str_eqb k' k) eqn:E; cbn [map fst existsb].
    + apply str_eqb_eq in E. subst k'.
      destruct (str_eqb x k), (existsb (str_eqb x) (map fst o)); reflexivity.
    + rewrite IH. apply orb_assoc.
Qed.

Lemma prop_set_distinct o k v :
  distinct (map fst o) = true -> distinct (map fst (AppContext.prop_set o k v)) = true.
Proof.
  induction o as [|[k' v'] o IH]; [reflexivity|].
  cbn [map fst distinct]. intros H. apply andb_true_iff in H. destruct H as [Hf Hd].
  cbn [AppContext.prop_set]. destruct (str_eqb k' k) eqn:E; cbn [map fst distinct].
  - rewrite Hf, Hd. reflexivity.
  - rewrite keys_prop_set, E, orb_false_r, Hf, (IH Hd). reflexivity.
Qed.

Lemma prop_spread_keeps_distinct p : forall o,
  distinct (map fst o) = true -> distinct (map fst (AppContext.prop_spread o p)) = true.
Proof.
  induction p as [|[k v] p IH]; intros o Ho; [exact Ho|].
  unfold AppContext.prop_spread. cbn [fold_left fst snd].
  apply (IH (AppContext.prop_set o k v)), prop_set_distinct, Ho.
Qed.

(** A property of [{...o, ...p}] is the one of [p], also when that holds
    [undefined], and the one of [o] when [p] has none. *)
Lemma prop_get_spread p : forall o k,
  distinct (map fst p) = true ->
  AppContext.prop_get (AppContext.prop_spread o p) k
  = match AppContext.prop_get p k with
    | Some v => Some v
    | None => AppContext.prop_get o k
    end.
Proof.
  induction p as [|[k1 v1] p IH]; intros o k Hd; [reflexivity|].
  cbn [map fst distinct] in Hd. apply andb_true_iff in Hd. destruct Hd as [Hf Hd].
  apply negb_true_iff in Hf.
  unfold AppContext.prop_spread. cbn [fold_left fst snd].
  change (fold_left _ p (AppContext.prop_set o k1 v1))
    with (AppContext.prop_spread (AppContext.prop_set o k1 v1) p).
  rewrite (IH _ k Hd). cbn [AppContext.prop_get].
  destruct (str_eqb k1 k) eqn:E.
  - apply str_eqb_eq in E. subst k1.
    rewrite (prop_get_absent p k Hf). apply prop_get_set_same.
  - destruct (AppContext.prop_get p k); [reflexivity|].
    apply prop_get_set_other. intros ->. rewrite str_eqb_refl in E. discriminate.
Qed.

Lemma prop_get_copy o k :
  distinct (map fst o) = true ->
  AppContext.prop_get (AppContext.prop_spread [] o) k = AppContext.prop_get o k.
Proof.
  intros Hd. rewrite (prop_get_spread o [] k Hd).
  destruct (AppContext.prop_get o k); reflexivity.
Qed.

Lemma keys_of_json o : map fst (AppContext.of_json o) = map fst o.
Proof. unfold AppContext.of_json. rewrite map_map. reflexivity. Qed.

Lemma prop_get_of_json o k :
  AppContext.prop_get (AppContext.of_json o) k = option_map Some (obj_get o k).
Proof.
  induction o as [|[k' v'] o IH]; [reflexivity|].
  cbn [AppContext.of_json map fst snd AppContext.prop_get obj_get option_map].
  destruct (str_eqb k' k); [reflexivity|exact IH].
Qed.

(** What the initializer builds: no key twice, and an empty [privateKey]. *)
Lemma initialEncryptionState_shape saved es :
  AppContext.initialEncryptionState saved = Ok es ->
  distinct (map fst es) = true /\ obj_get es (js "privateKey") = Some (JStr []).
Proof.
  intros Hinit. unfold AppContext.initialEncryptionState in Hinit.
  destruct saved as [[|c text]|].
  - injection Hinit as <-. split; reflexivity.
  - destruct (JSON_parse (c :: text)) as [parsed|e]; [|discriminate].
    cbn [bind] in Hinit. injection Hinit as <-.
    split; [|apply obj_get_set_same].
    apply obj_set_distinct, obj_spread_keeps_distinct. reflexivity.
  - injection Hinit as <-. split; reflexivity.
Qed.

(** The [privateKey] field of [encryptionState] after an update, by what
    [state] brings for it. *)
Lemma updateEncryptionState_field state st :
  distinct (map fst state) = true ->
  distinct (map fst (AppContext.encryptionState st)) = true ->
  AppContext.prop_get
    (AppContext.encryptionState (AppContext.updateEncryptionState state st))
    (js "privateKey")
  = match AppContext.prop_get state (js "privateKey") with
    | Some (Some key) => Some (Some (JStr []))
    | Some None => Some None
    | None => AppContext.prop_get (AppContext.encryptionState st) (js "privateKey")
    end.
Proof.
  intros Hs Hd. unfold AppContext.updateEncryptionState.
  destruct (AppContext.prop_get state (js "privateKey")) as [[key|]|] eqn:E;
    cbn [AppContext.encryptionState].
  - apply prop_get_set_same.
  - rewrite (prop_get_spread state _ _ Hs), E. reflexivity.
  - rewrite (prop_get_spread state _ _ Hs), E. apply prop_get_copy, Hd.
Qed.

(** The invariant of the states: no key twice, and a [privateKey] field
    that is empty or [undefined]. *)
Lemma reachable_invariant st :
  reachable st ->
  distinct (map fst (AppContext.encryptionState st)) = true /\
  (AppContext.prop_get (AppContext.encryptionState st) (js "privateKey")
   = Some (Some (JStr [])) \/
   AppContext.prop_get (AppContext.encryptionState st) (js "privateKey") = Some None).
Proof.
  induction 1 as [saved es Hinit|state st Hs _ [Hd Hk]|st _ _].
  - destruct (initialEncryptionState_shape saved es Hinit) as [Hd Hk].
    unfold AppContext.initialStore. cbn [AppContext.encryptionState].
    rewrite keys_of_json, prop_get_of_json, Hk. split; [exact Hd|left; reflexivity].
  - split.
    + unfold AppContext.updateEncryptionState.
      destruct (AppContext.prop_get state (js "privateKey")) as [[key|]|];
        cbn [AppContext.encryptionState];
        try apply prop_set_distinct;
        apply prop_spread_keeps_distinct, prop_spread_keeps_distinct; reflexivity.
    + rewrite (updateEncryptionState_field state st Hs Hd).
      destruct (AppContext.prop_get state (js "privateKey")) as [[key|]|];
        [left; reflexivity|right; reflexivity|exact Hk].
  - split; [reflexivity|left; reflexivity].
Qed.

(** X21. What [encryptionState] keeps of a private key.  In every state
    the provider reaches, from whatever [localStorage] held and through
    whatever updates and clears, the [privateKey] field of
    [encryptionState] is the empty string or [undefined], never a key.
    An update that brings a key puts it in the separate [privateKey] slot
    and leaves the field empty; an update that brings
    [privateKey: undefined] keeps the slot and makes the field
    [undefined]; an update without [privateKey] keeps both. *)
Theorem private_key_stays_out (st : AppContext.store) :
  reachable st ->
  let field s := AppContext.prop_get (AppContext.encryptionState s) (js "privateKey") in
  (field st = Some (Some (JStr [])) \/ field st = Some None) /\
  forall state,
    distinct (map fst state) = true ->
    let st' := AppContext.updateEncryptionState state st in
    (forall key,
       AppContext.prop_get state (js "privateKey") = Some (Some key) ->
       AppContext.privateKey st' = key /\ field st' = Some (Some (JStr []))) /\
    (AppContext.prop_get state (js "privateKey") = Some None ->
     AppContext.privateKey st' = AppContext.privateKey st /\ field st' = Some None) /\
    (AppContext.prop_get state (js "privateKey") = None ->
     AppContext.privateKey st' = AppContext.privateKey st /\ field st' = field st).
Proof.
  intros H field. destruct (reachable_invariant st H) as [Hd Hk].
  split; [exact Hk|].
  intros state Hs st'.
  pose proof (updateEncryptionState_field state st Hs Hd) as Hf.
  fold st' in Hf. fold (field st') in Hf. fold (field st) in Hf.
  split; [|split].
  - intros key E. rewrite E in Hf. split; [|exact Hf].
    unfold st', AppContext.updateEncryptionState. rewrite E. reflexivity.
  - intros E. rewrite E in Hf. split; [|exact Hf].
    unfold st', AppContext.updateEncryptionState. rewrite E. reflexivity.
  - intros E. rewrite E in Hf. split; [|exact Hf].
    unfold st', AppContext.updateEncryptionState. rewrite E. reflexivity.
Qed.

Lemma private_key_stays_out_witness :
  let st := AppContext.updateEncryptionState
              [(js "text", Some (JStr (js "hi")));
               (js "privateKey", Some (JStr (js "SECRET")))]
              (AppContext.initialStore AppContext.defaultEncryptionState) in
  let st' := AppContext.updateEncryptionState [(js "privateKey", None)] st in
  AppContext.privateKey st = JStr (js "SECRET") /\
  AppContext.prop_get (AppContext.encryptionState st) (js "privateKey")
  = Some (Some (JStr [])) /\
  AppContext.privateKey st' = JStr (js "SECRET") /\
  AppContext.prop_get (AppContext.encryptionState st') (js "privateKey") = Some None.
Proof.
  intros st st'.
  split; [reflexivity|].
  assert (Hst : reachable st).
  { apply reach_update; [reflexivity|]. apply (reach_initial None). reflexivity. }
  destruct (private_key_stays_out st Hst) as [_ Hupd].
  destruct (Hupd [(js "privateKey", None)] eq_refl) as (_ & Hundef & _).
  destruct (Hundef eq_refl) as [Hslot Hfield].
  split; [reflexivity|]. split; [exact Hslot|exact Hfield].
Defined.

(** X22. Saving and loading: the state that the initializer builds from
    the text persisted for a state has every field of that state, except
    for [privateKey], which is empty. *)
Theorem persist_then_load (encryptionState : list (jsstring * value)) :
  well_formed (JObj encryptionState) = true ->
  exists loaded,
    AppContext.initialEncryptionState
      (Some (AppContext.persistedEncryptionState encryptionState)) = Ok loaded /\
    obj_get loaded (js "privateKey") = Some (JStr []) /\
    forall k, k <> js "privateKey" -> obj_get loaded k = obj_get encryptionState k.
Proof.
  intros Hwf.
  assert (Hrest : well_formed (JObj (AppContext.obj_rest (js "privateKey") encryptionState))
                  = true) by (apply obj_rest_ok, Hwf).
  unfold AppContext.initialEncryptionState, AppContext.persistedEncryptionState.
  cbv zeta.
  pose proof (JSON_roundtrip _ Hrest) as Hparse.
  destruct (JSON_stringify (JObj (AppContext.obj_rest (js "privateKey") encryptionState)))
    as [|c text] eqn:Etext; [discriminate Hparse|].
  rewrite Hparse. cbn [bind AppContext.own_properties].
  eexists. split; [reflexivity|]. split; [apply obj_get_set_same|].
  intros k Hk. rewrite (obj_get_set_other _ _ _ _ Hk).
  rewrite obj_spread_nil.
  - apply obj_rest_other, Hk.
  - unfold well_formed in Hrest. cbn [value_ok] in Hrest.
    apply andb_true_iff in Hrest. apply Hrest.
Qed.

Lemma persist_then_load_witness :
  exists loaded,
    AppContext.initialEncryptionState
      (Some (AppContext.persistedEncryptionState
               [(js "text", JStr (js "hi")); (js "privateKey", JStr (js "SECRET"))]))
    = Ok loaded /\
    obj_get loaded (js "privateKey") = Some (JStr []) /\
    obj_get loaded (js "text") = Some (JStr (js "hi")).
Proof.
  destruct (persist_then_load
              [(js "text", JStr (js "hi")); (js "privateKey", JStr (js "SECRET"))])
    as (loaded & H1 & H2 & H3).
  - reflexivity.
  - exists loaded. split; [exact H1|]. split; [exact H2|].
    apply H3. discriminate.
Defined.

(** ** The two codecs on the same token *)

(** X23. The decoders of [encrypt.ts] read the tokens of [jwt.ts]: for a
    Latin-1 value, [decodeTokenPayload] returns from the token of
    [encodeJWT] the value that was encoded, and [decodeTokenHeader] its
    HS256/JWT header. *)
Theorem encrypt_reads_jwt_tokens (payload : value) :
  value_ok is_byte payload = true ->
  exists token,
    Jwt.encodeJWT payload = Ok token /\
    Encrypt.decodeTokenPayload token = payload /\
    Encrypt.decodeTokenHeader token
    = JObj [(js "alg", JStr (js "HS256")); (js "typ", JStr (js "JWT"))].
Proof.
  intros Hv. pose proof (stringify_bytes payload Hv) as Hb.
  eexists. split; [apply jwt_token_text, Hb|].
  assert (Hs : ~ In 46 (js "mock-signature")) by (apply no_dot_literal; reflexivity).
  split.
  - rewrite decodeTokenPayload_segments by (try apply encode_no_dot; exact Hs).
    rewrite (base64UrlDecode_encode _ Hb). cbn [bind].
    rewrite (JSON_roundtrip payload (bytes_well_formed payload Hv)). reflexivity.
  - rewrite decodeTokenHeader_segments by (try apply encode_no_dot; exact Hs).
    reflexivity.
Qed.

Lemma encrypt_reads_jwt_tokens_witness :
  exists token,
    Jwt.encodeJWT (JObj [(js "exp", JNum (Dec 17 8)); (js "name", JStr [233])]) = Ok token /\
    Encrypt.decodeTokenPayload token
    = JObj [(js "exp", JNum (Dec 17 8)); (js "name", JStr [233])].
Proof.
  destruct (encrypt_reads_jwt_tokens
              (JObj [(js "exp", JNum (Dec 17 8)); (js "name", JStr [233])]))
    as (token & H1 & H2 & _).
  - reflexivity.
  - exists token. split; assumption.
Defined.

Lemma dec_of_Z_mantissa e : e <> 0 -> mantissa (dec_of_Z e) <> 0.
Proof.
  intros He Hm. pose proof (dec_Q_of_Z e) as E.
  rewrite (dec_Q_zero _ Hm) in E. change 0%Q with (inject_Z 0) in E.
  assert (E' : 0 = e) by (apply inject_Z_injective; exact E). lia.
Qed.

Section TwoClocks.
Context {host : Host}.

(** X24. The two functions called [getTokenExpiration] disagree.  For a
    token of [encodeJWT] with a whole number [exp] of seconds that the
    clock has not reached (both instants that a Date can hold, the clock
    at or after the epoch), the one of [jwt.ts] returns [exp] minus the
    clock's whole seconds; the one of [encrypt.ts] returns one second less
    whenever the clock is not on a whole second. *)
Theorem expirations_differ (Date_now e : Z) (o : list (jsstring * value)) :
  0 <= Date_now <= 8640000000000000 -> Date_now / 1000 < e <= 8640000000000 ->
  value_ok is_byte (JObj o) = true ->
  obj_get o (js "exp") = Some (JNum (dec_of_Z e)) ->
  exists token q,
    Jwt.encodeJWT (JObj o) = Ok token /\
    Jwt.getTokenExpiration Date_now token = Some (Fin q) /\
    (q == inject_Z (e - Date_now / 1000))%Q /\
    Encrypt.getTokenExpiration Date_now token
    = Some (of_int (e - Date_now / 1000 - (if Date_now mod 1000 =? 0 then 0 else 1))).
Proof.
  intros [Hnow _] [Hlt _] Hv Hexp.
  destruct (jwt_token_payload (JObj o) (stringify_bytes _ Hv))
    as (token & Htok & Hsplit & Hatob).
  assert (Hdec : Encrypt.decodeTokenPayload token = JObj o).
  { pose proof (jwt_token_text (JObj o) (stringify_bytes _ Hv)) as Htext.
    rewrite Htok in Htext. apply Ok_inj in Htext. rewrite Htext.
    rewrite decodeTokenPayload_segments
      by (try apply encode_no_dot; apply no_dot_literal; reflexivity).
    rewrite (base64UrlDecode_encode _ (stringify_bytes _ Hv)). cbn [bind].
    rewrite (JSON_roundtrip _ (bytes_well_formed _ Hv)). reflexivity. }
  assert (HltQ : (inject_Z (Date_now / 1000) < dec_Q (dec_of_Z e))%Q).
  { rewrite dec_Q_of_Z, <- Zlt_Qlt. exact Hlt. }
  exists token, (dec_Q (dec_of_Z e) - inject_Z (Date_now / 1000))%Q.
  split; [exact Htok|]. split; [|split].
  - unfold Jwt.getTokenExpiration. change (code "."%char) with 46.
    rewrite Hatob. rewrite Hsplit. cbn [length Nat.eqb negb bind].
    rewrite (JSON_roundtrip _ (bytes_well_formed _ Hv)). cbn [bind get_prop].
    rewrite Hexp. cbn [num_sub of_int num_gt]. change (inject_Z 0) with 0%Q.
    replace (Qle_bool (dec_Q (dec_of_Z e) - inject_Z (Date_now / 1000)) 0) with false;
      [reflexivity|].
    symmetry. apply Qle_bool_false. apply Qsub_pos, HltQ.
  - rewrite dec_Q_of_Z. unfold Qminus. rewrite <- inject_Z_opp, <- inject_Z_plus.
    reflexivity.
  - assert (Hget : get_prop (Encrypt.decodeTokenPayload token) (js "exp")
                   = Some (JNum (dec_of_Z e))) by (rewrite Hdec; exact Hexp).
    assert (Hs : 0 <= Date_now / 1000) by (apply Z.div_pos; lia).
    assert (E1000 : (dec_Q (dec_of_Z e) * inject_Z 1000 - inject_Z Date_now
                     == inject_Z (e * 1000 - Date_now))%Q).
    { rewrite dec_Q_of_Z. unfold Qminus, Z.sub.
      rewrite inject_Z_plus, inject_Z_mult, inject_Z_opp. reflexivity. }
    rewrite (expiration_numeric Date_now token _ Hget).
    + do 2 f_equal. rewrite E1000, Qfloor_thousandth.
      destruct (Z.eqb_spec (Date_now mod 1000) 0); euclid.
    + apply Qsub_pos. rewrite E1000. change 0%Q with (inject_Z 0).
      rewrite <- Zlt_Qlt. euclid.
    + apply dec_of_Z_mantissa. lia.
Qed.

(** X25. With a buffer of zero minutes, and an [exp] that is a whole
    number of seconds, [isTokenExpired] says expired exactly when
    [getTokenTimeRemaining] says that no time is left. *)
Theorem zero_buffer_agrees (Date_now e : Z) (token : jsstring) (d : decimal) :
  0 <= Date_now ->
  get_prop (Encrypt.decodeTokenPayload token) (js "exp") = Some (JNum d) ->
  (dec_Q d == inject_Z e)%Q ->
  Encrypt.isTokenExpired Date_now token (Some (of_int 0))
  = num_eq (Encrypt.getTokenTimeRemaining Date_now token) (of_int 0).
Proof.
  intros Hnow Hexp He.
  destruct (Z.eq_dec (mantissa d) 0) as [Hm|Hm].
  - rewrite (time_remaining_zero_exp Date_now token d Hexp Hm).
    unfold Encrypt.isTokenExpired.
    rewrite Hexp, (get_prop_truthy _ _ _ Hexp).
    cbn [negb orb truthy_opt truthy]. rewrite Hm. reflexivity.
  - rewrite (time_remaining_numeric Date_now token d Hexp Hm).
    unfold Encrypt.isTokenExpired.
    rewrite Hexp, (get_prop_truthy _ _ _ Hexp).
    cbn [negb orb truthy_opt truthy ToNumber].
    apply Z.eqb_neq in Hm. rewrite Hm. cbn [negb].
    cbn [num_mul num_add of_int num_le].
    assert (Hs : 0 <= Date_now / 1000) by (apply Z.div_pos; lia).
    assert (E1 : (dec_Q d * inject_Z 1000 - inject_Z Date_now
                  == inject_Z (e * 1000 - Date_now))%Q).
    { rewrite He. unfold Qminus, Z.sub.
      rewrite inject_Z_plus, inject_Z_mult, inject_Z_opp. reflexivity. }
    assert (E2 : (inject_Z (Date_now / 1000) + inject_Z 0 * inject_Z 60
                  == inject_Z (Date_now / 1000))%Q).
    { change (inject_Z 0) with 0%Q. ring. }
    destruct (Z_le_gt_dec e (Date_now / 1000)) as [Hle|Hgt].
    + replace (Qle_bool (dec_Q d)
                 (inject_Z (Date_now / 1000) + inject_Z 0 * inject_Z 60)) with true.
      2:{ symmetry. apply Qle_bool_iff. rewrite E2, He, <- Zle_Qle. exact Hle. }
      assert (Hy : (dec_Q d * inject_Z 1000 - inject_Z Date_now <= 0)%Q).
      { rewrite E1. change 0%Q with (inject_Z 0). rewrite <- Zle_Qle. euclid. }
      destruct (Qle_bool 0 (dec_Q d * inject_Z 1000 - inject_Z Date_now)) eqn:B;
        cbn [num_eq of_int]; [|reflexivity].
      symmetry. apply Qeq_bool_iff. apply Qle_bool_iff in B.
      apply Qle_antisym; assumption.
    + replace (Qle_bool (dec_Q d)
                 (inject_Z (Date_now / 1000) + inject_Z 0 * inject_Z 60)) with false.
      2:{ symmetry. apply Qle_bool_false. rewrite E2, He, <- Zlt_Qlt. lia. }
      assert (Hy : (0 < dec_Q d * inject_Z 1000 - inject_Z Date_now)%Q).
      { rewrite E1. change 0%Q with (inject_Z 0). rewrite <- Zlt_Qlt. euclid. }
      replace (Qle_bool 0 (dec_Q d * inject_Z 1000 - inject_Z Date_now)) with true
        by (symmetry; apply Qle_bool_iff, Qlt_le_weak, Hy).
      cbn [num_eq of_int]. symmetry.
      destruct (Qeq_bool (dec_Q d * inject_Z 1000 - inject_Z Date_now) (inject_Z 0)) eqn:B;
        [|reflexivity].
      apply Qeq_bool_iff in B. rewrite B in Hy. exfalso. exact (Qlt_irrefl _ Hy).
Qed.

End TwoClocks.

Lemma expirations_differ_witness :
  exists token q,
    Jwt.encodeJWT (JObj [(js "exp", JNum (dec_of_Z 1700000000))]) = Ok token /\
    Jwt.getTokenExpiration 1699999000999 token = Some (Fin q) /\
    (q == inject_Z 1000)%Q /\
    @Encrypt.getTokenExpiration example_host 1699999000999 token = Some (of_int 999).
Proof.
  apply (@expirations_differ example_host 1699999000999 1700000000
           [(js "exp", JNum (dec_of_Z 1700000000))]).
  - lia.
  - split; [reflexivity|lia].
  - reflexivity.
  - reflexivity.
Defined.

Lemma zero_buffer_agrees_witness :
  @Encrypt.isTokenExpired example_host 1700000299000
    (js "e30.eyJleHAiOjE3MDAwMDAyOTl9.x") (Some (of_int 0))
  = num_eq (@Encrypt.getTokenTimeRemaining example_host 1700000299000
              (js "e30.eyJleHAiOjE3MDAwMDAyOTl9.x")) (of_int 0).
Proof.
  apply (@zero_buffer_agrees example_host 1700000299000 1700000299
           (js "e30.eyJleHAiOjE3MDAwMDAyOTl9.x") (Dec 1700000299 0)).
  - lia.
  - reflexivity.
  - reflexivity.
Defined.

(** ** Examples *)

Example token_sample :
  let now := 1700000000123 in
  let g := {| tape := fun i => [Z.of_nat i; 7; 35; 12]; position := 0 |} in
  let t := fst (Encrypt.createMockToken now [(js "user_id", JStr (js "u1"))] g) in
  match t with
  | Ok tok =>
      get_prop (Encrypt.decodeTokenPayload tok) (js "user_id") = Some (JStr (js "u1")) /\
      get_prop (Encrypt.decodeTokenPayload tok) (js "sub") = Some (JStr (js "u1")) /\
      get_prop (Encrypt.decodeTokenPayload tok) (js "exp") = Some (JNum (Dec 17000018 2)) /\
      get_prop (Encrypt.decodeTokenPayload tok) (js "jti") = Some (JStr (js "07zc17zc")) /\
      Jwt.decodeJWT tok = Encrypt.decodeTokenPayload tok
  | Throw _ => False
  end.
Proof. vm_compute. repeat split. Qed.

Example parse_sample :
  JSON_parse (jsq "{ 'a' : [1, -2.50, 1e3, true, null, 'xA\nz'], 'b':{}, 'a':0.001 }")
  = Ok (JObj [(js "a", JNum (Dec 1 (-3))); (js "b", JObj [])]).
Proof. reflexivity. Qed.

Example parse_sample2 :
  JSON_parse (jsq "[1, -2.50, 1e3, true, null, 'xA\nz', 1200]")
  = Ok (JArr [JNum (Dec 1 0); JNum (Dec (-25) (-1)); JNum (Dec 1 3); JBool true;
              JNull; JStr [120; 65; 10; 122]; JNum (Dec 12 2)]).
Proof. reflexivity. Qed.

Example stringify_sample :
  JSON_stringify (JArr [JNum (Dec 1 0); JNum (Dec (-25) (-1)); JNum (Dec 1 3);
                        JNum (Dec 1 21); JNum (Dec 123 (-9)); JNum (Dec 5 (-6));
                        JObj [(js "k", JStr [120; 34; 10; 233; 55357])]])
  = jsq "[1,-2.5,1000,1e+21,1.23e-7,0.000005,{'k':'x\'\n" ++ [233] ++ jsq "\ud83d'}]".
Proof. reflexivity. Qed.

Example encode_foobar : Base64.encode (js "foobar") = js "Zm9vYmFy".
Proof. reflexivity. Qed.

Example encode_fooba : Base64.encode (js "fooba") = js "Zm9vYmE=".
Proof. reflexivity. Qed.

Example atob_unpadded : atob (js "Zm9vYmE") = Ok (js "fooba").
Proof. reflexivity. Qed.

Example url_roundtrip :
  Encrypt.base64UrlEncode (js "??>~") = Ok (js "Pz8-fg") /\
  Encrypt.base64UrlDecode (js "Pz8-fg") = Ok (js "??>~").
Proof. split; reflexivity. Qed.
